(** * QuantumCircuitsSim: the gate simulators of [task_1.py]

    A shallow embedding of [GateSimulator], [GateSVSimulator] and
    [GateTensorSimulator].  numpy arrays are lists (a 2-D array is the list
    of its rows), float64 and complex128 amplitudes are exact real and
    complex numbers, the attributes of [self] are a record threaded through
    every method, and numpy's process-wide random generator is an explicit
    state of an abstract generator. *)

From Stdlib Require Import String Ascii DecimalString DecimalN DecimalPos.
From Stdlib Require Import Reals Lra Lia ZArith Bool Arith Ring Psatz List.
Import ListNotations.

(** ** Numbers

    The arrays of the program hold integers, floats and (for the Pauli-Y
    gate) complex numbers; the array operations are the same at every
    dtype, so they are written once over a class of numbers. *)

Class Num (A : Type) : Type := {
  zero : A;
  one : A;
  add : A -> A -> A;
  mul : A -> A -> A
}.

Class NumLaws (A : Type) {N : Num A} : Prop := {
  num_srt : semi_ring_theory zero one add mul (@eq A)
}.

#[export] Instance Num_R : Num R :=
  {| zero := 0%R; one := 1%R; add := Rplus; mul := Rmult |}.

#[export] Instance NumLaws_R : NumLaws R.
Proof.
  constructor. constructor; intros; cbn; ring.
Qed.

(** Complex numbers as pairs (real part, imaginary part). *)
Definition C : Type := (R * R)%type.

Definition Cadd (x y : C) : C := (fst x + fst y, snd x + snd y)%R.
Definition Cmul (x y : C) : C :=
  (fst x * fst y - snd x * snd y, fst x * snd y + snd x * fst y)%R.
Definition RtoC (x : R) : C := (x, 0%R).
Definition Ci : C := (0%R, 1%R).
Definition Cneg (x : C) : C := (- fst x, - snd x)%R.
Definition Re (x : C) : R := fst x.

#[export] Instance Num_C : Num C :=
  {| zero := RtoC 0; one := RtoC 1; add := Cadd; mul := Cmul |}.

#[export] Instance NumLaws_C : NumLaws C.
Proof.
  constructor.
  constructor; intros; cbn; unfold Cadd, Cmul, RtoC;
    repeat match goal with x : C |- _ => destruct x end; cbn; f_equal; ring.
Qed.

(** ** Arrays *)

Section Arrays.
Context {A : Type} {N : Num A}.

Definition matrix : Type := list (list A).

Definition rows (M : matrix) : nat := length M.
Definition cols (M : matrix) : nat := length (hd [] M).

Fixpoint sum (l : list A) : A :=
  match l with
  | [] => zero
  | x :: l' => add x (sum l')
  end.

Fixpoint zip_with {X Y Z : Type} (f : X -> Y -> Z) (l1 : list X) (l2 : list Y)
  : list Z :=
  match l1, l2 with
  | x :: l1', y :: l2' => f x y :: zip_with f l1' l2'
  | _, _ => []
  end.

Definition dot (u v : list A) : A := sum (zip_with mul u v).

Definition vadd (u v : list A) : list A := zip_with add u v.
Definition vscale (a : A) (v : list A) : list A := map (mul a) v.

(** [M @ v] for a 2-D [M] and a 1-D [v]. *)
Definition mat_vec (M : matrix) (v : list A) : list A :=
  map (fun row => dot row v) M.

(** [M.T] *)
Fixpoint transpose_aux (k : nat) (M : matrix) : matrix :=
  match k with
  | O => []
  | S k' => map (hd zero) M :: transpose_aux k' (map (@tl A) M)
  end.
Definition transpose (M : matrix) : matrix := transpose_aux (cols M) M.

(** The product of two 2-D arrays whose shapes agree. *)
Definition mmul (M P : matrix) : matrix :=
  map (fun row => map (dot row) (transpose P)) M.

(** [M + P], element by element. *)
Definition madd (M P : matrix) : matrix := zip_with vadd M P.

(** [a * M] for a scalar [a]. *)
Definition mscale (a : A) (M : matrix) : matrix := map (vscale a) M.

(** [np.kron] on two 2-D arrays: block (i, j) of the result is
    [M[i][j] * P]. *)
Definition kron_row (ra rb : list A) : list A :=
  flat_map (fun a => map (mul a) rb) ra.
Definition kron (M P : matrix) : matrix :=
  flat_map (fun ra => map (kron_row ra) P) M.

(** [kronecker_product]: the loop
    [result = np.kron(result, arg)] started from [np.array([[1]])]. *)
Definition kronecker_product (args : list matrix) : matrix :=
  fold_left kron args [[one]].

(** [x.flatten()] of a 2-D array, in row-major order. *)
Definition flatten2 (M : matrix) : list A := concat M.

Definition identity_row (m i : nat) : list A :=
  map (fun j => if Nat.eqb i j then one else zero) (seq 0 m).
(** The [m] x [m] identity, written out entry by entry. *)
Definition identity_matrix (m : nat) : matrix :=
  map (identity_row m) (seq 0 m).
End Arrays.

Arguments matrix A : clear implicits.

(** ** Python values, exceptions and the simulator object *)

(** The arguments whose type the constructors and methods test with
    [isinstance]. *)
Inductive pyval : Type :=
| PyInt (z : Z)
| PyFloat (x : R)
| PyStr (s : string)
| PyNone.

Inductive exn : Type :=
| TypeError (msg : string)
| ValueError (msg : string)
| IndexError (msg : string)
| AttributeError (msg : string)
| Exception_ (msg : string).

(** What a call comes to: a value, an exception, or (for the one [while]
    loop of the program, which the model runs for a bounded number of
    turns) a loop that is still running when the bound is reached. *)
Inductive result (A : Type) : Type :=
| Ok (a : A)
| Raise (e : exn)
| Unfinished.
Arguments Ok {A} a.
Arguments Raise {A} e.
Arguments Unfinished {A}.

(** A rank-[n] array whose axes all have size 2, as
    [np.zeros([2 for i in range(n)])] creates it: the first axis is the
    root. *)
Inductive tensor : Type :=
| Scalar (x : R)
| Axis (t0 t1 : tensor).

(** The attribute [self.state]: [None] after [GateSimulator.__init__], a
    [2^n] x 1 [np.matrix] in the state-vector simulator, a rank-[n] array
    in the tensor simulator, and the flat array that the tensor simulator
    holds between its product with [CX] and its [reshape]. *)
Inductive state_val : Type :=
| StNone
| StMatrix (m : matrix R)
| StTensor (t : tensor)
| StFlat (v : list R).

Record simulator : Type := {
  self_n : Z;
  self_seed : Z;
  self_state : state_val
}.

Definition set_state (st : state_val) (self : simulator) : simulator :=
  {| self_n := self_n self; self_seed := self_seed self; self_state := st |}.

(** Methods run in a state ([self], the random generator, or both) and may
    raise. *)
Definition M (S A : Type) : Type := S -> result A * S.

Definition ret {S A : Type} (a : A) : M S A := fun s => (Ok a, s).
Definition raise {S A : Type} (e : exn) : M S A := fun s => (Raise e, s).
Definition bind {S A B : Type} (c : M S A) (k : A -> M S B) : M S B :=
  fun s =>
    match c s with
    | (Ok a, s') => k a s'
    | (Raise e, s') => (Raise e, s')
    | (Unfinished, s') => (Unfinished, s')
    end.
Definition lift {S A : Type} (r : result A) : M S A := fun s => (r, s).
Definition get {S : Type} : M S S := fun s => (Ok s, s).
Definition put_state (st : state_val) : M simulator unit :=
  fun self => (Ok tt, set_state st self).

Declare Scope sim_scope.
Delimit Scope sim_scope with sim.
Notation "x <- c ;; k" := (bind c (fun x => k))
  (at level 61, c at next level, right associativity) : sim_scope.
Notation "c ;;; k" := (bind c (fun _ => k))
  (at level 61, right associativity) : sim_scope.
Open Scope sim_scope.

(** ** Gates: the attributes [I], [X], [H], [Z], [Y] set by [__init__] *)

Definition I_gate : matrix R := [[1; 0]; [0; 1]]%R.
Definition X_gate : matrix R := [[0; 1]; [1; 0]]%R.
Definition H_gate : matrix R := mscale (1 / sqrt 2)%R [[1; 1]; [1; -1]]%R.
Definition Z_gate : matrix R := [[1; 0]; [0; -1]]%R.
Definition Y_gate : matrix C := [[(0, 0); (0, -1)]; [(0, 1); (0, 0)]]%R.

(** ** [GateSimulator]: helpers *)

(** [A @ B] for two 2-D arrays: numpy raises [ValueError] when the inner
    dimensions differ. *)
Definition matmul {A : Type} {N : Num A} (M1 M2 : matrix A) : result (matrix A) :=
  if Nat.eqb (cols M1) (rows M2) then Ok (mmul M1 M2)
  else Raise (ValueError "matmul: mismatch in its core dimension").

(** The position a Python index denotes in a list of length [len]. *)
Definition py_index (len : nat) (i : Z) : option nat :=
  if (0 <=? i)%Z && (i <? Z.of_nat len)%Z then Some (Z.to_nat i)
  else if (- Z.of_nat len <=? i)%Z && (i <? 0)%Z then Some (Z.to_nat (Z.of_nat len + i))
  else None.

Fixpoint replace_nth {A : Type} (k : nat) (v : A) (l : list A) : list A :=
  match l, k with
  | [], _ => []
  | _ :: l', O => v :: l'
  | x :: l', S k' => x :: replace_nth k' v l'
  end.

(** [l[i] = v] *)
Definition list_set {A : Type} (l : list A) (i : Z) (v : A) : result (list A) :=
  match py_index (length l) i with
  | Some k => Ok (replace_nth k v l)
  | None => Raise (IndexError "list assignment index out of range")
  end.

(** [bin(dec)[2:]] *)
Fixpoint bin_pos (p : positive) : string :=
  match p with
  | xH => "1"
  | xO p' => bin_pos p' ++ "0"
  | xI p' => bin_pos p' ++ "1"
  end.
Definition bin_tail (dec : Z) : string :=
  match dec with
  | Z0 => "0"
  | Zpos p => bin_pos p
  | Zneg p => "b" ++ bin_pos p
  end.

Fixpoint zeros (k : nat) : string :=
  match k with
  | O => ""
  | S k' => String "0" (zeros k')
  end.
(** [s.zfill(width)] for a string without a sign. *)
Definition zfill (s : string) (width : Z) : string :=
  zeros (Z.to_nat width - String.length s) ++ s.

(** [to_bin(dec)] for an integer [dec]. *)
Definition to_bin (dec : Z) : M simulator string :=
  self <- get ;; ret (zfill (bin_tail dec) (self_n self)).

(** ** [GateSimulator.initialize_state] *)

Definition zero_ket : matrix R := transpose [[1; 0]]%R.
Definition one_ket : matrix R := transpose [[0; 1]]%R.

Definition is_bit_char (c : ascii) : bool :=
  Ascii.eqb c "0" || Ascii.eqb c "1".

(** The first loop: any character other than '0' and '1' raises. *)
Fixpoint check_bits (chars : list ascii) : result unit :=
  match chars with
  | [] => Ok tt
  | c :: chars' =>
      if is_bit_char c then check_bits chars'
      else Raise (Exception_ "bitstring must not contain characters other than '0' and '1'")
  end.

(** The second loop: [state = np.kron(state, one)] or
    [np.kron(state, zero)], bit by bit. *)
Definition kron_bits (chars : list ascii) : matrix R :=
  fold_left (fun state bit =>
               if Ascii.eqb bit "1" then kron state one_ket else kron state zero_ket)
            chars [[1%R]].

Definition initialize_state (bitstring : pyval) (change : bool)
  : M simulator (matrix R) :=
  match bitstring with
  | PyStr s =>
      lift (check_bits (list_ascii_of_string s)) ;;;
      let state := kron_bits (list_ascii_of_string s) in
      self <- get ;;
      put_state (if change then StMatrix state else self_state self) ;;;
      ret state
  | _ => raise (TypeError "bitstring must be a string (str)")
  end.

(** ** [GateSimulator.CX] *)

(** The decimal digits of a natural number [k]. *)
Definition decimal (k : Z) : string :=
  NilZero.string_of_uint (N.to_uint (Z.to_N k)).

(** [str(z)] for an integer. *)
Definition str_int (z : Z) : string :=
  if (z <? 0)%Z then "-" ++ decimal (- z) else decimal z.

Definition CX (control target : Z) : M simulator (matrix R) :=
  self <- get ;;
  if (control >=? self_n self)%Z || (target >=? self_n self)%Z then
    raise (Exception_ ("Control or target is out of bounds for "
                       ++ str_int (self_n self) ++ " qubits"))
  else if (control =? target)%Z then
    ret (kronecker_product (repeat I_gate (Z.to_nat (self_n self))))
  else
    let zero_args := repeat I_gate (Z.to_nat (self_n self)) in
    let one_args := zero_args in
    k0 <- initialize_state (PyStr "0") false ;;
    b0 <- initialize_state (PyStr "0") false ;;
    p0 <- lift (matmul k0 (transpose b0)) ;;
    zero_args <- lift (list_set zero_args (-1 - control) p0) ;;
    k1 <- initialize_state (PyStr "1") false ;;
    b1 <- initialize_state (PyStr "1") false ;;
    p1 <- lift (matmul k1 (transpose b1)) ;;
    one_args <- lift (list_set one_args (-1 - control) p1) ;;
    one_args <- lift (list_set one_args (-1 - target) X_gate) ;;
    ret (madd (kronecker_product zero_args) (kronecker_product one_args)).

(** ** numpy's process-wide random generator

    [np.random] is not part of the program: its generator is taken as a
    parameter, a type of generator states with the three calls the program
    makes and what numpy documents of their results. *)
Record Generator : Type := {
  gen : Type;
  (** the state after [np.random.seed(s)] *)
  seed_gen : Z -> gen;
  (** [np.random.randint(low, high)] for [low < high] *)
  randint_gen : Z -> Z -> gen -> Z * gen;
  (** [np.random.choice(a, size=k)] *)
  choice_gen : list string -> nat -> gen -> list string * gen;
  (** [np.random.choice(a, size=k, p=p)] *)
  choice_p_gen : list string -> nat -> list R -> gen -> list string * gen;
  randint_range : forall lo hi g,
      (lo < hi)%Z -> (lo <= fst (randint_gen lo hi g) < hi)%Z;
  choice_length : forall a k g, length (fst (choice_gen a k g)) = k;
  choice_in : forall a k g x, a <> [] -> In x (fst (choice_gen a k g)) -> In x a
}.

(** *** A prefix of numpy's generator

    [np.random.seed(s)] starts a Mersenne Twister (MT19937) whose outputs
    are 32-bit words; [randint] masks a word and rejects it when it is out
    of range, [choice] without [p] is [randint] on the positions, and
    [choice] with [p] inverts the cumulated probabilities at a double made
    of two words. The states of this instance are the words still to come;
    after seeds 1 and 42 they are the first twelve words of MT19937, which
    is as far as the examples below draw. *)
Definition words_after_seed (s : Z) : list Z :=
  if (s =? 1)%Z then
    [1791095845; 4282876139; 3093770124; 4005303368; 491263; 550290313;
     1298508491; 4290846341; 630311759; 1013994432; 396591248; 1703301249]%Z
  else if (s =? 42)%Z then
    [1608637542; 3421126067; 4083286876; 787846414; 3143890026; 3348747335;
     2571218620; 2563451924; 670094950; 1914837113; 669991378; 429389014]%Z
  else [].

(** The smallest mask of ones that covers [rng]. *)
Definition gen_mask (rng : Z) : Z := (2 ^ (Z.log2 rng + 1) - 1)%Z.

Fixpoint bounded_masked (rng mask : Z) (words : list Z) : Z * list Z :=
  match words with
  | [] => (0%Z, [])
  | w :: words' =>
      let v := Z.land w mask in
      if (v <=? rng)%Z then (v, words') else bounded_masked rng mask words'
  end.

Definition words_randint (low high : Z) (words : list Z) : Z * list Z :=
  let rng := (high - 1 - low)%Z in
  if (rng <=? 0)%Z then (low, words)
  else let (v, words') := bounded_masked rng (gen_mask rng) words in
       ((low + v)%Z, words').

Fixpoint words_choice (a : list string) (k : nat) (words : list Z)
  : list string * list Z :=
  match k with
  | O => ([], words)
  | S k' =>
      let (i, words') := words_randint 0 (Z.of_nat (length a)) words in
      let (xs, words'') := words_choice a k' words' in
      (nth (Z.to_nat i) a (hd EmptyString a) :: xs, words'')
  end.

(** A double in [0, 1) from two words. *)
Definition words_double (words : list Z) : R * list Z :=
  match words with
  | a :: b :: words' =>
      ((IZR ((a / 32) * 67108864 + b / 64) / 9007199254740992)%R, words')
  | _ => (0%R, [])
  end.

Fixpoint cumsum (acc : R) (p : list R) : list R :=
  match p with
  | [] => []
  | x :: p' => (acc + x)%R :: cumsum (acc + x)%R p'
  end.

(** [cdf.searchsorted(u, side='right')] *)
Definition searchsorted_right (cdf : list R) (u : R) : nat :=
  length (filter (fun c => if Rle_dec c u then true else false) cdf).

Fixpoint words_choice_p (a : list string) (k : nat) (p : list R) (words : list Z)
  : list string * list Z :=
  match k with
  | O => ([], words)
  | S k' =>
      let cdf := cumsum 0 p in
      let cdf := map (fun c => (c / last cdf 1)%R) cdf in
      let (u, words') := words_double words in
      let (xs, words'') := words_choice_p a k' p words' in
      (nth (searchsorted_right cdf u) a (hd EmptyString a) :: xs, words'')
  end.

Lemma bounded_masked_range (rng mask : Z) (words : list Z) :
  (0 <= rng)%Z -> (0 <= mask)%Z ->
  (0 <= fst (bounded_masked rng mask words) <= rng)%Z.
Proof.
  intros Hr Hm. induction words as [|w words IH]; cbn; [lia|].
  destruct (Z.leb_spec (Z.land w mask) rng); cbn; [|exact IH].
  split; [|assumption]. apply Z.land_nonneg. now right.
Qed.

Lemma words_randint_range (lo hi : Z) (words : list Z) :
  (lo < hi)%Z -> (lo <= fst (words_randint lo hi words) < hi)%Z.
Proof.
  intros H. unfold words_randint.
  destruct (Z.leb_spec (hi - 1 - lo) 0); cbn; [lia|].
  pose proof (bounded_masked_range (hi - 1 - lo) (gen_mask (hi - 1 - lo)) words) as B.
  destruct (bounded_masked (hi - 1 - lo) (gen_mask (hi - 1 - lo)) words) as [v ws].
  cbn in *. unfold gen_mask in B.
  assert (0 < 2 ^ (Z.log2 (hi - 1 - lo) + 1))%Z
    by (apply Z.pow_pos_nonneg; [lia|pose proof (Z.log2_nonneg (hi - 1 - lo)); lia]).
  lia.
Qed.

Lemma words_choice_length (a : list string) (k : nat) (words : list Z) :
  length (fst (words_choice a k words)) = k.
Proof.
  revert words. induction k as [|k IH]; intros words; [reflexivity|].
  cbn [words_choice].
  destruct (words_randint 0 (Z.of_nat (length a)) words) as [i ws].
  specialize (IH ws). destruct (words_choice a k ws) as [xs ws'].
  cbn in *. now rewrite IH.
Qed.

Lemma words_choice_in (a : list string) (k : nat) (words : list Z) (x : string) :
  a <> [] -> In x (fst (words_choice a k words)) -> In x a.
Proof.
  intros Ha. revert words. induction k as [|k IH]; intros words; [intros []|].
  cbn [words_choice].
  pose proof (words_randint_range 0 (Z.of_nat (length a)) words) as Hr.
  destruct (words_randint 0 (Z.of_nat (length a)) words) as [i ws].
  specialize (IH ws). destruct (words_choice a k ws) as [xs ws'].
  cbn in *. intros [<-|H]; [|now apply IH].
  destruct a as [|y a]; [contradiction|].
  apply nth_In. cbn [length] in *. lia.
Qed.

(** The generator of the examples. *)
Definition numpy_prefix : Generator :=
  {| gen := list Z;
     seed_gen := words_after_seed;
     randint_gen := words_randint;
     choice_gen := words_choice;
     choice_p_gen := words_choice_p;
     randint_range := fun lo hi g H => words_randint_range lo hi g H;
     choice_length := words_choice_length;
     choice_in := fun a k g x H => words_choice_in a k g x H |}.

Section Simulators.
Variable G : Generator.

(** The state of a run: the generator and the simulator object. *)
Definition world : Type := (gen G * simulator)%type.

Definition on_self {A : Type} (c : M simulator A) : M world A :=
  fun w => let (r, self') := c (snd w) in (r, (fst w, self')).
Definition on_rng {A : Type} (c : M (gen G) A) : M world A :=
  fun w => let (r, g') := c (fst w) in (r, (g', snd w)).

(** [np.random.seed(s)]: numpy accepts seeds from 0 to 2^32 - 1. *)
Definition np_random_seed (s : Z) : M (gen G) unit :=
  fun g =>
    if (0 <=? s)%Z && (s <? 2 ^ 32)%Z then (Ok tt, seed_gen G s)
    else (Raise (ValueError "Seed must be between 0 and 2**32 - 1"), g).

(** [np.random.randint(low, high)] *)
Definition np_random_randint (low high : Z) : M (gen G) Z :=
  fun g =>
    if (low <? high)%Z then
      let (x, g') := randint_gen G low high g in (Ok x, g')
    else (Raise (ValueError "low >= high"), g).

(** [np.random.choice(a, size=size)] *)
Definition np_random_choice (a : list string) (size : Z) : M (gen G) (list string) :=
  fun g =>
    if (size <? 0)%Z then (Raise (ValueError "negative dimensions are not allowed"), g)
    else let (xs, g') := choice_gen G a (Z.to_nat size) g in (Ok xs, g').

(** ** [GateSimulator.__init__] *)
Definition GateSimulator_init (n seed : pyval) : M (gen G) simulator :=
  match n with
  | PyInt n =>
      match seed with
      | PyInt _ | PyNone =>
          seed <- match seed with
                  | PyInt s => if (s =? 0)%Z then np_random_randint 0 1000000 else ret s
                  | _ => np_random_randint 0 1000000
                  end ;;
          np_random_seed seed ;;;
          ret {| self_n := n; self_seed := seed; self_state := StNone |}
      | _ => raise (TypeError "seed must be an integer")
      end
  | _ => raise (TypeError "n must be an integer")
  end.

(** [''.join(chars)] *)
Definition join (chars : list string) : string :=
  fold_right String.append EmptyString chars.

(** [if state] for a [str] or [None]. *)
Definition truthy (v : pyval) : bool :=
  match v with
  | PyStr s => negb (String.eqb s "")
  | PyInt z => negb (z =? 0)%Z
  | PyFloat x => if Req_dec_T x 0 then false else true
  | PyNone => false
  end.

(** Run a method on a simulator object that is being constructed. *)
Definition construct {A : Type} (self : simulator) (c : M simulator A)
  : M (gen G) simulator :=
  fun g =>
    match c self with
    | (Ok _, self') => (Ok self', g)
    | (Raise e, _) => (Raise e, g)
    | (Unfinished, _) => (Unfinished, g)
    end.

(** ** [GateSVSimulator.__init__] *)
Definition GateSVSimulator_init (n state seed : pyval) : M (gen G) simulator :=
  self <- GateSimulator_init n seed ;;
  match state with
  | PyStr _ | PyNone =>
      bitstring <- np_random_choice ["0"; "1"]%string (self_n self) ;;
      construct self
        (st <- (if truthy state then initialize_state state true
                else initialize_state (PyStr (join bitstring)) true) ;;
         put_state (StMatrix st))
  | _ => raise (TypeError "state must be a string (str)")
  end.

(** ** [GateSVSimulator.make_operations] *)

(** [while target == control: target = np.random.randint(0, self.n)] *)
Fixpoint redraw_target (fuel : nat) (n control target : Z) : M (gen G) Z :=
  if (target =? control)%Z then
    match fuel with
    | O => lift Unfinished
    | S fuel' =>
        target <- np_random_randint 0 n ;;
        redraw_target fuel' n control target
    end
  else ret target.

(** The random control and target of a round. *)
Definition draw_control_target (fuel : nat) (n : Z) : M (gen G) (Z * Z) :=
  control <- np_random_randint 0 n ;;
  target <- np_random_randint 0 n ;;
  target <- redraw_target fuel n control target ;;
  ret (control, target).

Definition SV_operations_list (n : Z) : list (matrix R) :=
  let num_of_H := Z.to_nat (n / 2) in
  let num_of_X := Z.to_nat (n / 2) in
  let operations_list := repeat H_gate num_of_H ++ repeat X_gate num_of_X in
  if (Z.of_nat (length operations_list) <? n)%Z then operations_list ++ [I_gate]
  else operations_list.

Definition SV_make_operations (fuel : nat) : M world (matrix R * matrix R) :=
  self <- on_self get ;;
  if (self_n self <? 2)%Z then ret (H_gate, I_gate)
  else
    let operations := kronecker_product (SV_operations_list (self_n self)) in
    ct <- on_rng (draw_control_target fuel (self_n self)) ;;
    cx <- on_self (CX (fst ct) (snd ct)) ;;
    ret (operations, cx).

(** ** [GateSVSimulator.apply_operations] *)
Definition SV_apply_operations (operations cx : matrix R) : M simulator unit :=
  self <- get ;;
  match self_state self with
  | StMatrix st =>
      co <- lift (matmul cx operations) ;;
      st' <- lift (matmul co st) ;;
      put_state (StMatrix st')
  | _ => raise (TypeError "unsupported operand type(s) for @")
  end.

(** ** Rank-[n] arrays *)

Fixpoint rank (t : tensor) : nat :=
  match t with
  | Scalar _ => O
  | Axis t0 _ => S (rank t0)
  end.

(** [np.zeros([2 for i in range(n)])] *)
Fixpoint tzeros (n : nat) : tensor :=
  match n with
  | O => Scalar 0
  | S n' => Axis (tzeros n') (tzeros n')
  end.

Fixpoint fill (v : R) (t : tensor) : tensor :=
  match t with
  | Scalar _ => Scalar v
  | Axis t0 t1 => Axis (fill v t0) (fill v t1)
  end.

Definition rbind {A B : Type} (r : result A) (k : A -> result B) : result B :=
  match r with
  | Ok a => k a
  | Raise e => Raise e
  | Unfinished => Unfinished
  end.

(** [t[tuple(idx)] = v]: an index tuple shorter than the rank assigns
    the whole sub-array. *)
Fixpoint tensor_set (t : tensor) (idx : list Z) (v : R) : result tensor :=
  match idx, t with
  | [], _ => Ok (fill v t)
  | i :: idx', Axis t0 t1 =>
      if (i =? 0)%Z then rbind (tensor_set t0 idx' v) (fun t0' => Ok (Axis t0' t1))
      else if (i =? 1)%Z then rbind (tensor_set t1 idx' v) (fun t1' => Ok (Axis t0 t1'))
      else Raise (IndexError "index is out of bounds for axis with size 2")
  | _ :: _, Scalar _ => Raise (IndexError "too many indices for array")
  end.

(** [t[tuple(idx)]] for a full index. *)
Fixpoint tensor_get (t : tensor) (idx : list bool) : R :=
  match t, idx with
  | Scalar x, _ => x
  | Axis t0 t1, b :: idx' => tensor_get (if b then t1 else t0) idx'
  | Axis _ _, [] => 0
  end.

(** [t.flatten()], in row-major order. *)
Fixpoint flatten (t : tensor) : list R :=
  match t with
  | Scalar x => [x]
  | Axis t0 t1 => flatten t0 ++ flatten t1
  end.

Fixpoint reshape_aux (n : nat) (v : list R) : tensor :=
  match n with
  | O => Scalar (hd 0%R v)
  | S n' => Axis (reshape_aux n' (firstn (2 ^ n') v)) (reshape_aux n' (skipn (2 ^ n') v))
  end.
(** [v.reshape([2 for i in range(n)])] *)
Definition reshape (n : nat) (v : list R) : result tensor :=
  if Nat.eqb (length v) (2 ^ n) then Ok (reshape_aux n v)
  else Raise (ValueError "cannot reshape array").

(** ** [np.einsum] on a 2-D array and a rank-[n] array

    A subscript string is the list of the code points of its labels.
    [einsum ein_inp qubits_ein ein_out gate t] is
    [np.einsum(f'{ein_inp}, {qubits_ein} -> {ein_out}', gate, t)]: an
    entry of the result is the sum, over the labels that are not in the
    output, of the products of the entries of the operands. *)
Definition subscripts : Type := list nat.

Definition is_letter (c : nat) : bool :=
  (Nat.leb 65 c && Nat.leb c 90) || (Nat.leb 97 c && Nat.leb c 122).

Definition mem (c : nat) (l : subscripts) : bool := existsb (Nat.eqb c) l.

Fixpoint nodupb (l : subscripts) : bool :=
  match l with
  | [] => true
  | c :: l' => negb (mem c l') && nodupb l'
  end.

Fixpoint dedup (l : subscripts) : subscripts :=
  match l with
  | [] => []
  | c :: l' => if mem c l' then dedup l' else c :: dedup l'
  end.

(** An assignment of an index (0 or 1) to every label. *)
Definition assignment : Type := nat -> bool.
Definition assign (e : assignment) (c : nat) (b : bool) : assignment :=
  fun c' => if Nat.eqb c' c then b else e c'.

Definition entry (g : matrix R) (i j : bool) : R :=
  nth (if j then 1 else 0)%nat (nth (if i then 1 else 0)%nat g []) 0%R.

Fixpoint sum_over (ls : subscripts) (f : assignment -> R) (e : assignment) : R :=
  match ls with
  | [] => f e
  | c :: ls' => (sum_over ls' f (assign e c false) + sum_over ls' f (assign e c true))%R
  end.

Fixpoint build (out : subscripts) (f : assignment -> R) (e : assignment) : tensor :=
  match out with
  | [] => Scalar (f e)
  | c :: out' => Axis (build out' f (assign e c false)) (build out' f (assign e c true))
  end.

Definition einsum (ein_inp qubits_ein ein_out : subscripts) (gate : matrix R)
           (t : tensor) : result tensor :=
  if negb (forallb is_letter (ein_inp ++ qubits_ein ++ ein_out)) then
    Raise (ValueError "invalid subscript")
  else if negb (Nat.eqb (length ein_inp) 2 && Nat.eqb (length qubits_ein) (rank t)) then
    Raise (ValueError "operand has more or fewer dimensions than subscripts")
  else if negb (nodupb ein_out && forallb (fun c => mem c (ein_inp ++ qubits_ein)) ein_out) then
    Raise (ValueError "invalid output subscript")
  else
    let summed :=
      dedup (filter (fun c => negb (mem c ein_out)) (ein_inp ++ qubits_ein)) in
    let term (e : assignment) : R :=
      (entry gate (e (nth 0 ein_inp O)) (e (nth 1 ein_inp O))
       * tensor_get t (map e qubits_ein))%R in
    Ok (build ein_out (sum_over summed term) (fun _ => false)).

(** ** [GateTensorSimulator.__init__] *)

(** [int(bit)] for a one-character string. *)
Definition int_of_char (c : ascii) : result Z :=
  let k := nat_of_ascii c in
  if Nat.leb 48 k && Nat.leb k 57 then Ok (Z.of_nat (k - 48))
  else Raise (ValueError "invalid literal for int() with base 10").

Fixpoint ints_of_chars (chars : list ascii) : result (list Z) :=
  match chars with
  | [] => Ok []
  | c :: chars' =>
      rbind (int_of_char c) (fun i =>
      rbind (ints_of_chars chars') (fun idx => Ok (i :: idx)))
  end.

Definition GateTensorSimulator_init (n state seed : pyval) : M (gen G) simulator :=
  self <- GateSimulator_init n seed ;;
  match state with
  | PyStr _ | PyNone =>
      let zeros_n := tzeros (Z.to_nat (self_n self)) in
      bitstring <- (if truthy state then
                      ret (match state with PyStr s => s | _ => EmptyString end)
                    else
                      chars <- np_random_choice ["0"; "1"]%string (self_n self) ;;
                      ret (join chars)) ;;
      idx <- lift (ints_of_chars (list_ascii_of_string bitstring)) ;;
      st <- lift (tensor_set zeros_n idx 1) ;;
      ret (set_state (StTensor st) self)
  | _ => raise (TypeError "state must be a string (str)")
  end.

(** ** [GateTensorSimulator.make_operations] *)

Definition chr_a : nat := 97.

(** [''.join([chr(ord('b') + i) for i in range(n)])] *)
Definition make_qubits_ein (n : Z) : subscripts :=
  map (fun i => 98 + i)%nat (seq 0 (Z.to_nat n)).

(** [s.replace(old, new)] for one-character [old] and [new]. *)
Definition replace (old new : nat) (s : subscripts) : subscripts :=
  map (fun c => if Nat.eqb c old then new else c) s.

(** One entry of [operations_list]: the gate on the qubit with label
    [qubits_ein[i]]. *)
Definition local_step (gate : matrix R) (qubits_ein : subscripts) (i : nat)
  : matrix R * subscripts * subscripts :=
  let ein_inp := [chr_a; nth i qubits_ein O] in
  let ein_out := replace (last ein_inp O) (hd O ein_inp) qubits_ein in
  (gate, ein_inp, ein_out).

Definition Tensor_operations_list (n : Z) (qubits_ein : subscripts)
  : list (matrix R * subscripts * subscripts) :=
  let num_of_H := Z.to_nat (n / 2) in
  let num_of_X := Z.to_nat (n / 2) in
  map (fun i => local_step H_gate qubits_ein i) (seq 0 num_of_H)
  ++ map (fun i => local_step X_gate qubits_ein (i + num_of_H)) (seq 0 num_of_X).

Definition Tensor_make_operations (fuel : nat)
  : M world (list (matrix R * subscripts * subscripts) * matrix R * subscripts) :=
  self <- on_self get ;;
  let qubits_ein := make_qubits_ein (self_n self) in
  if (self_n self <? 2)%Z then ret ([(H_gate, [chr_a; 98], [chr_a])], I_gate, qubits_ein)
  else
    let operations_list := Tensor_operations_list (self_n self) qubits_ein in
    ct <- on_rng (draw_control_target fuel (self_n self)) ;;
    let operations_list := rev operations_list in
    cx <- on_self (CX (fst ct) (snd ct)) ;;
    ret (operations_list, cx, qubits_ein).

(** ** [GateTensorSimulator.apply_operations] *)

(** [M @ v] for a 2-D [M] and a 1-D [v]: numpy raises [ValueError] when
    the number of columns is not the length of [v]. *)
Definition matmul_vec (M1 : matrix R) (v : list R) : result (list R) :=
  if Nat.eqb (cols M1) (length v) then Ok (mat_vec M1 v)
  else Raise (ValueError "matmul: mismatch in its core dimension").

(** The loop [self.state = np.einsum(..., gate, self.state)]. *)
Fixpoint einsum_loop (operations : list (matrix R * subscripts * subscripts))
         (qubits_ein : subscripts) : M simulator unit :=
  match operations with
  | [] => ret tt
  | (gate, ein_inp, ein_out) :: operations' =>
      self <- get ;;
      match self_state self with
      | StTensor t =>
          t' <- lift (einsum ein_inp qubits_ein ein_out gate t) ;;
          put_state (StTensor t') ;;;
          einsum_loop operations' qubits_ein
      | _ => raise (TypeError "einsum: operand is not an array")
      end
  end.

Definition Tensor_apply_operations
           (operations : list (matrix R * subscripts * subscripts))
           (cx : matrix R) (qubits_ein : subscripts) : M simulator unit :=
  einsum_loop operations qubits_ein ;;;
  self <- get ;;
  match self_state self with
  | StTensor t =>
      flat <- lift (matmul_vec cx (flatten t)) ;;
      put_state (StFlat flat) ;;;
      t' <- lift (reshape (Z.to_nat (self_n self)) flat) ;;
      put_state (StTensor t')
  | _ => raise (TypeError "flatten: the state is not an array")
  end.

(** ** Readout: [state_to_braket] *)

Definition Rgtb (x y : R) : bool := if Rgt_dec x y then true else false.
Definition Rneqb (x y : R) : bool := if Req_dec_T x y then false else true.

(** The absolute threshold [1e-10] of both renderings. *)
Definition threshold : R := 1e-10.

(** Rounding to the nearest integer, ties to even. *)
Definition round_half_even (x : R) : Z :=
  let f := Int_part x in
  let r := (x - IZR f)%R in
  if Rlt_dec r (1 / 2) then f
  else if Rlt_dec (1 / 2) r then (f + 1)%Z
  else if Z.even f then f else (f + 1)%Z.

(** [f"{x:.3f}"] for [x >= 0]: three digits after the point. *)
Definition fmt3 (x : R) : string :=
  let k := round_half_even (x * 1000) in
  let frac := decimal (k mod 1000) in
  (decimal (k / 1000) ++ "." ++ zeros (3 - String.length frac) ++ frac)%string.

(** What one turn of either loop appends to [braket]. *)
Definition braket_append (braket : string) (amplitude : R) (label : string) : string :=
  if negb (String.eqb braket "") then
    (braket ++ " " ++ (if Rgtb amplitude 0 then "+" else "-")
            ++ " (" ++ fmt3 (Rabs amplitude) ++ ")|" ++ label ++ "⟩")%string
  else
    ("(" ++ fmt3 (Rabs amplitude) ++ ")|" ++ label ++ "⟩")%string.

(** [np.where(self.state != 0)[0]]: the row index of every entry that is
    not zero, in row-major order. *)
Definition where_nonzero_rows (st : matrix R) : list nat :=
  concat (map (fun dr => map (fun _ => fst dr) (filter (fun x => Rneqb x 0) (snd dr)))
              (combine (seq 0 (length st)) st)).

(** [row.item()] *)
Definition item {A : Type} (row : list A) : result A :=
  match row with
  | [x] => Ok x
  | _ => Raise (ValueError "can only convert an array of size 1 to a Python scalar")
  end.

Fixpoint SV_braket_loop (n : Z) (st : matrix R) (dec : list nat) (braket : string)
  : result string :=
  match dec with
  | [] => Ok braket
  | d :: dec' =>
      rbind (item (nth d st [])) (fun x =>
      let amplitude := if Rgtb x threshold then x else 0%R in
      if Rneqb amplitude 0 then
        SV_braket_loop n st dec'
          (braket_append braket amplitude (zfill (bin_tail (Z.of_nat d)) n))
      else SV_braket_loop n st dec' braket)
  end.

(** [GateSVSimulator.state_to_braket]; the state of a state-vector
    simulator is always a [np.matrix]. *)
Definition SV_state_to_braket : M simulator string :=
  self <- get ;;
  match self_state self with
  | StMatrix st =>
      lift (SV_braket_loop (self_n self) st (where_nonzero_rows st) "")
  | _ => raise (TypeError "the state is not a matrix")
  end.

(** The multi-indices of a rank-[n] array with their entries, in
    row-major order. *)
Fixpoint indexed (t : tensor) : list (list bool * R) :=
  match t with
  | Scalar x => [([], x)]
  | Axis t0 t1 =>
      map (fun qx => (false :: fst qx, snd qx)) (indexed t0)
      ++ map (fun qx => (true :: fst qx, snd qx)) (indexed t1)
  end.

(** [''.join(map(str, q))] *)
Fixpoint bits_string (q : list bool) : string :=
  match q with
  | [] => ""
  | b :: q' => String (if b then "1" else "0")%char (bits_string q')
  end.

Fixpoint Tensor_braket_loop (bin_states : list (list bool * R)) (braket : string)
  : string :=
  match bin_states with
  | [] => braket
  | (q, amplitude) :: bin_states' =>
      if Rgtb amplitude threshold then
        Tensor_braket_loop bin_states' (braket_append braket amplitude (bits_string q))
      else Tensor_braket_loop bin_states' braket
  end.

(** [GateTensorSimulator.state_to_braket]; [bin_states] are the
    multi-indices of [np.where(self.state > 0)]. *)
Definition Tensor_state_to_braket : M simulator string :=
  self <- get ;;
  match self_state self with
  | StTensor t =>
      let bin_states := filter (fun qx => Rgtb (snd qx) 0) (indexed t) in
      ret (Tensor_braket_loop bin_states "")
  | StMatrix _ | StFlat _ => raise (TypeError "the state is not a rank-n array")
  | StNone => raise (TypeError "state must be a numpy.matrix or numpy.array")
  end.

(** ** Readout: [calculate_expectation_value] *)

(** [self.state.flatten()] *)
Definition state_flat (st : state_val) : result (list R) :=
  match st with
  | StMatrix m => Ok (flatten2 m)
  | StTensor t => Ok (flatten t)
  | StFlat v => Ok v
  | StNone => Raise (AttributeError "'NoneType' object has no attribute 'flatten'")
  end.

(** [np.real(state @ Gate_n @ state.T).item()] at the dtype [A] of the
    gate: [of_real] is numpy's conversion of the real state to that
    dtype, [real] is [np.real]. *)
Definition expectation {A : Type} {N : Num A} (of_real : R -> A) (real : A -> R)
           (Gate : matrix A) (n : Z) (flat : list R) : result R :=
  let state := [map of_real flat] in
  let Gate_n := kronecker_product (repeat Gate (Z.to_nat n)) in
  rbind (matmul state Gate_n) (fun sg =>
  rbind (matmul sg (transpose state)) (fun r =>
  rbind (item (flatten2 r)) (fun x => Ok (real x)))).

Definition calculate_expectation_value (gate : pyval) : M simulator R :=
  match gate with
  | PyStr gate =>
      self <- get ;;
      if String.eqb gate "X" then
        flat <- lift (state_flat (self_state self)) ;;
        lift (expectation (fun x => x) (fun x => x) X_gate (self_n self) flat)
      else if String.eqb gate "H" then
        flat <- lift (state_flat (self_state self)) ;;
        lift (expectation (fun x => x) (fun x => x) H_gate (self_n self) flat)
      else if String.eqb gate "Y" then
        flat <- lift (state_flat (self_state self)) ;;
        lift (expectation RtoC Re Y_gate (self_n self) flat)
      else if String.eqb gate "Z" then
        flat <- lift (state_flat (self_state self)) ;;
        lift (expectation (fun x => x) (fun x => x) Z_gate (self_n self) flat)
      else if String.eqb gate "I" then
        flat <- lift (state_flat (self_state self)) ;;
        lift (expectation (fun x => x) (fun x => x) I_gate (self_n self) flat)
      else raise (Exception_ "gate not found")
  | _ => raise (TypeError "gate must be a string (str)")
  end.

(** ** One round: [make_operations] followed by [apply_operations] *)

Definition SV_round (fuel : nat) : M world unit :=
  args <- SV_make_operations fuel ;;
  on_self (SV_apply_operations (fst args) (snd args)).

Definition Tensor_round (fuel : nat) : M world unit :=
  args <- Tensor_make_operations fuel ;;
  on_self (Tensor_apply_operations (fst (fst args)) (snd (fst args)) (snd args)).

(** The methods a subclass of [GateSimulator] implements, as
    [sample_probability] calls them. *)
Record simulator_class : Type := {
  class_name : string;
  class_round : nat -> M world unit;
  class_state_to_braket : M simulator string
}.

Definition GateSVSimulator : simulator_class :=
  {| class_name := "GateSVSimulator";
     class_round := SV_round;
     class_state_to_braket := SV_state_to_braket |}.

Definition GateTensorSimulator : simulator_class :=
  {| class_name := "GateTensorSimulator";
     class_round := Tensor_round;
     class_state_to_braket := Tensor_state_to_braket |}.

(** ** Readout: [sample_probability] *)

(** [re.findall(r'\((.*?)\)', s)]: the text between each opening
    parenthesis and the next closing one. [inside] is the text read
    since the opening parenthesis, latest character first. *)
Fixpoint findall_parens (inside : option (list ascii)) (s : list ascii)
  : list string :=
  match s with
  | [] => []
  | c :: s' =>
      match inside with
      | None =>
          if Ascii.eqb c "(" then findall_parens (Some []) s'
          else findall_parens None s'
      | Some acc =>
          if Ascii.eqb c ")" then
            string_of_list_ascii (rev acc) :: findall_parens None s'
          else findall_parens (Some (c :: acc)) s'
      end
  end.

(** The three bytes of the closing bracket of a ket. *)
Definition rangle : list ascii := list_ascii_of_string "⟩".

(** [re.findall(r'\|.*?\⟩', s)]: each ket, from a bar to the next
    closing bracket. [seen] counts the bytes of the bracket just read. *)
Fixpoint findall_kets (inside : option (list ascii * nat)) (s : list ascii)
  : list string :=
  match s with
  | [] => []
  | c :: s' =>
      match inside with
      | None =>
          if Ascii.eqb c "|" then findall_kets (Some ([c], O)) s'
          else findall_kets None s'
      | Some (acc, seen) =>
          if Ascii.eqb c (nth seen rangle c) && Nat.eqb seen 2 then
            string_of_list_ascii (rev (c :: acc)) :: findall_kets None s'
          else if Ascii.eqb c (nth seen rangle c) then
            findall_kets (Some (c :: acc, S seen)) s'
          else if Ascii.eqb c (nth 0 rangle c) then
            findall_kets (Some (c :: acc, 1%nat)) s'
          else findall_kets (Some (c :: acc, O)) s'
      end
  end.

(** The value of a string of decimal digits. *)
Fixpoint digits_value (acc : Z) (cs : list ascii) : option Z :=
  match cs with
  | [] => Some acc
  | c :: cs' =>
      let k := nat_of_ascii c in
      if Nat.leb 48 k && Nat.leb k 57 then
        digits_value (10 * acc + Z.of_nat (k - 48)) cs'
      else None
  end.

Fixpoint split_point (cs : list ascii) : list ascii * list ascii :=
  match cs with
  | [] => ([], [])
  | c :: cs' =>
      if Ascii.eqb c "." then ([], cs')
      else let (a, b) := split_point cs' in (c :: a, b)
  end.

(** [float(s)] for the decimal strings [state_to_braket] writes. *)
Definition parse_float (s : string) : result R :=
  let (a, b) := split_point (list_ascii_of_string s) in
  match a, digits_value 0 a, digits_value 0 b with
  | _ :: _, Some i, Some f => Ok (IZR i + IZR f / 10 ^ length b)%R
  | _, _, _ => Raise (ValueError "could not convert string to float")
  end.

Fixpoint parse_floats (l : list string) : result (list R) :=
  match l with
  | [] => Ok []
  | s :: l' =>
      rbind (parse_float s) (fun x =>
      rbind (parse_floats l') (fun xs => Ok (x :: xs)))
  end.

(** [np.random.choice(a, size=k, p=p)] *)
Definition np_random_choice_p (a : list string) (k : nat) (p : list R)
  : M (gen G) (list string) :=
  fun g =>
    match a with
    | [] => (Raise (ValueError "'a' cannot be empty unless no samples are taken"), g)
    | _ :: _ =>
        if negb (Nat.eqb (length a) (length p)) then
          (Raise (ValueError "'a' and 'p' must have same size"), g)
        else let (xs, g') := choice_p_gen G a k p g in (Ok xs, g')
    end.

(** [np.unique(states, return_counts=True)]: the distinct strings in
    increasing order, each with the number of times it occurs. *)
Fixpoint insert_sorted (x : string) (l : list string) : list string :=
  match l with
  | [] => [x]
  | y :: l' =>
      if String.eqb x y then l
      else if String.ltb x y then x :: l
      else y :: insert_sorted x l'
  end.
Definition unique (l : list string) : list string :=
  fold_right insert_sorted [] l.
Definition unique_counts (l : list string) : list (string * nat) :=
  map (fun x => (x, count_occ string_dec l x)) (unique l).

(** [sample_probability]: its value here is what it hands to
    [plt.bar], the kets and the heights of their bars; the plot itself is
    outside the model. *)
Definition sample_probability (cls : simulator_class) (fuel : nat)
  : M world (list string * list R) :=
  class_round cls fuel ;;;
  braket <- on_self (class_state_to_braket cls) ;;
  amplitudes <- lift (parse_floats (findall_parens None (list_ascii_of_string braket))) ;;
  let probabilities := map (fun a => (Rabs a ^ 2)%R) amplitudes in
  let kets := findall_kets None (list_ascii_of_string braket) in
  let total := sum probabilities in
  if Rneqb total 0 then
    states <- on_rng (np_random_choice_p kets 1024
                        (map (fun p => (p / total)%R) probabilities)) ;;
    let counts := map snd (unique_counts states) in
    let drawn := INR (fold_right Nat.add O counts) in
    ret (kets, map (fun c => (INR c / drawn)%R) counts)
  else raise (ValueError "probabilities contain NaN").
End Simulators.

(** * Properties *)

(** ** Arrays: algebra of [kron], [dot] and [mat_vec] *)

Section ArrayLaws.
Context {A : Type} {N : Num A} {L : NumLaws A}.

Lemma num_ring : semi_ring_theory (@zero A N) (@one A N) (@add A N) (@mul A N) (@eq A).
Proof. exact num_srt. Qed.

Add Ring num_ring_inst : num_ring.

Lemma kron_row_cons (x : A) (ra rb : list A) :
  kron_row (x :: ra) rb = map (mul x) rb ++ kron_row ra rb.
Proof. reflexivity. Qed.

Lemma kron_row_app (r1 r2 rb : list A) :
  kron_row (r1 ++ r2) rb = kron_row r1 rb ++ kron_row r2 rb.
Proof. unfold kron_row. now rewrite flat_map_app. Qed.

Lemma kron_row_scale (x : A) (rb rc : list A) :
  kron_row (map (mul x) rb) rc = map (mul x) (kron_row rb rc).
Proof.
  induction rb as [|y rb IH]; [reflexivity|].
  cbn [map]. rewrite !kron_row_cons, map_app, IH. f_equal.
  rewrite map_map. apply map_ext. intros z. ring.
Qed.

Lemma kron_row_assoc (ra rb rc : list A) :
  kron_row (kron_row ra rb) rc = kron_row ra (kron_row rb rc).
Proof.
  induction ra as [|x ra IH]; [reflexivity|].
  rewrite !kron_row_cons, kron_row_app, IH. f_equal.
  apply kron_row_scale.
Qed.

Lemma kron_cons (ra : list A) (M P : matrix A) :
  kron (ra :: M) P = map (kron_row ra) P ++ kron M P.
Proof. reflexivity. Qed.

Lemma kron_app (M1 M2 P : matrix A) :
  kron (M1 ++ M2) P = kron M1 P ++ kron M2 P.
Proof. unfold kron. now rewrite flat_map_app. Qed.

Lemma kron_map_row (ra : list A) (P Q : matrix A) :
  kron (map (kron_row ra) P) Q = map (kron_row ra) (kron P Q).
Proof.
  induction P as [|rp P IH]; [reflexivity|].
  cbn [map]. rewrite !kron_cons, map_app, IH. f_equal.
  rewrite map_map. apply map_ext. intros rq. apply kron_row_assoc.
Qed.

Lemma kron_assoc (M P Q : matrix A) :
  kron (kron M P) Q = kron M (kron P Q).
Proof.
  induction M as [|ra M IH]; [reflexivity|].
  rewrite !kron_cons, kron_app, IH. f_equal. apply kron_map_row.
Qed.

Lemma map_mul_one (r : list A) : map (mul one) r = r.
Proof.
  induction r as [|x r IH]; [reflexivity|]. cbn. rewrite IH. f_equal. ring.
Qed.

Lemma kron_one_l (M : matrix A) : kron [[one]] M = M.
Proof.
  unfold kron. cbn. rewrite app_nil_r.
  induction M as [|r M IH]; [reflexivity|].
  cbn [map]. rewrite IH. f_equal. unfold kron_row. cbn. rewrite app_nil_r.
  apply map_mul_one.
Qed.

Lemma fold_left_kron (args : list (matrix A)) (K : matrix A) :
  fold_left kron args K = kron K (kronecker_product args).
Proof.
  unfold kronecker_product. revert K.
  induction args as [|M args IH]; intros K.
  - cbn [fold_left]. induction K as [|r K IHK]; [reflexivity|].
    rewrite kron_cons, <- IHK. cbn [map app]. f_equal.
    induction r as [|x r IHr]; [reflexivity|].
    rewrite kron_row_cons, <- IHr. cbn. f_equal. ring.
  - cbn [fold_left]. rewrite IH, (IH (kron [[one]] M)), kron_one_l.
    apply kron_assoc.
Qed.

(** The loop of [kronecker_product] builds the product of the first
    argument with the product of the others. *)
Lemma kronecker_product_cons (M : matrix A) (args : list (matrix A)) :
  kronecker_product (M :: args) = kron M (kronecker_product args).
Proof.
  unfold kronecker_product at 1. cbn [fold_left].
  now rewrite kron_one_l, fold_left_kron.
Qed.

Lemma kronecker_product_nil : kronecker_product (A:=A) [] = [[one]].
Proof. reflexivity. Qed.
End ArrayLaws.

(** ** [initialize_state] and the frame of [CX] *)

(** A 1-D array as the column [np.matrix] with the same entries. *)
Definition col {A : Type} (v : list A) : matrix A := map (fun x => [x]) v.

(** The integer a bitstring denotes, first character most significant. *)
Definition bits_value (chars : list ascii) : nat :=
  fold_left (fun d c => if Ascii.eqb c "1" then 2 * d + 1 else 2 * d) chars O.

(** The basis vector of index [d] among [m]: 1 at [d], 0 elsewhere. *)
Definition basis (m d : nat) : list R := identity_row m d.

Lemma set_state_same (self : simulator) : set_state (self_state self) self = self.
Proof. now destruct self. Qed.

Lemma initialize_state_keep (s : string) (self : simulator) :
  snd (initialize_state (PyStr s) false self) = self.
Proof.
  unfold initialize_state, bind, lift, get, put_state, ret.
  destruct (check_bits (list_ascii_of_string s)); cbn; auto using set_state_same.
Qed.

Lemma initialize_state_bit (s : string) (self : simulator) :
  check_bits (list_ascii_of_string s) = Ok tt ->
  initialize_state (PyStr s) false self
  = (Ok (kron_bits (list_ascii_of_string s)), self).
Proof.
  intros Hc. unfold initialize_state, bind, lift, get, put_state, ret.
  rewrite Hc. cbn. now rewrite set_state_same.
Qed.

Lemma bind_snd_keep {S A B : Type} (c : M S A) (k : A -> M S B) (s : S) :
  snd (c s) = s -> (forall a, snd (k a s) = s) -> snd (bind c k s) = s.
Proof.
  intros Hc Hk. unfold bind. destruct (c s) as [[a|e|] s'] eqn:E;
    cbn in Hc; subst; auto.
Qed.

(** C10. Building the controlled-X operator leaves the simulator object,
    and so its [state] attribute, as it was: whatever [control] and
    [target] are, and whether [CX] returns an operator or raises, the
    calls of [initialize_state] inside it run with [change=False] and
    rebind [self.state] to itself. *)
Theorem CX_leaves_state_unchanged (control target : Z) (self : simulator) :
  snd (CX control target self) = self
  /\ self_state (snd (CX control target self)) = self_state self.
Proof.
  assert (H : snd (CX control target self) = self).
  { unfold CX. apply bind_snd_keep; [reflexivity|]. intros self0.
    destruct (_ || _); [reflexivity|].
    destruct (control =? target)%Z; [reflexivity|].
    repeat (apply bind_snd_keep;
            [ first [ apply initialize_state_keep | reflexivity ] | intros ? ]).
    reflexivity. }
  now rewrite H.
Qed.

Lemma kron_col (v w : list R) : kron (col v) (col w) = col (kron_row v w).
Proof.
  induction v as [|x v IH]; [reflexivity|].
  change (col (x :: v)) with ([x] :: col v).
  rewrite kron_cons, IH, kron_row_cons. unfold col at 3. rewrite map_app.
  f_equal. unfold col. rewrite !map_map. apply map_ext. intros y.
  unfold kron_row. cbn. reflexivity.
Qed.

(** The column of a single character. *)
Definition ket_vec (c : ascii) : list R :=
  if Ascii.eqb c "1" then [0; 1]%R else [1; 0]%R.

Definition bits_vec (chars : list ascii) : list R :=
  fold_left (fun v c => kron_row v (ket_vec c)) chars [1%R].

Lemma kron_bits_col (chars : list ascii) : kron_bits chars = col (bits_vec chars).
Proof.
  unfold kron_bits, bits_vec.
  change [[1%R]] with (col [1%R]). generalize [1%R] as v.
  induction chars as [|c chars IH]; intros v; [reflexivity|].
  cbn [fold_left]. rewrite <- IH. f_equal. unfold ket_vec.
  destruct (Ascii.eqb c "1"); now rewrite <- kron_col.
Qed.

Lemma kron_row_delta (d s m : nat) (b : bool) :
  kron_row (map (fun j => if Nat.eqb d j then 1%R else 0%R) (seq s m))
           (if b then [0; 1]%R else [1; 0]%R)
  = map (fun j => if Nat.eqb (2 * d + (if b then 1 else 0)) j then 1%R else 0%R)
        (seq (2 * s) (2 * m)).
Proof.
  revert s. induction m as [|m IH]; intros s; [reflexivity|].
  replace (2 * S m)%nat with (S (S (2 * m))) by lia.
  cbn [seq map]. rewrite kron_row_cons, IH.
  replace (2 * S s)%nat with (S (S (2 * s))) by lia. cbn [map app].
  destruct (Nat.eqb_spec d s) as [->|Hd].
  - destruct b; cbn [map].
    + replace (Nat.eqb (2 * s + 1) (2 * s)) with false
        by (symmetry; apply Nat.eqb_neq; lia).
      replace (Nat.eqb (2 * s + 1) (S (2 * s))) with true
        by (symmetry; apply Nat.eqb_eq; lia).
      cbn [map app]. f_equal; [cbn; lra|f_equal; cbn; lra].
    + replace (Nat.eqb (2 * s + 0) (2 * s)) with true
        by (symmetry; apply Nat.eqb_eq; lia).
      replace (Nat.eqb (2 * s + 0) (S (2 * s))) with false
        by (symmetry; apply Nat.eqb_neq; lia).
      cbn [map app]. f_equal; [cbn; lra|f_equal; cbn; lra].
  - replace (Nat.eqb (2 * d + (if b then 1 else 0)) (2 * s)) with false
      by (symmetry; apply Nat.eqb_neq; destruct b; lia).
    replace (Nat.eqb (2 * d + (if b then 1 else 0)) (S (2 * s))) with false
      by (symmetry; apply Nat.eqb_neq; destruct b; lia).
    destruct b; cbn [map app]; (f_equal; [cbn; lra|f_equal; cbn; lra]).
Qed.

Lemma bits_vec_basis_from (chars : list ascii) (m d : nat) :
  fold_left (fun v c => kron_row v (ket_vec c)) chars (basis m d)
  = basis (m * 2 ^ length chars)
          (fold_left (fun d c => if Ascii.eqb c "1" then 2 * d + 1 else 2 * d) chars d).
Proof.
  revert m d. induction chars as [|c chars IH]; intros m d.
  - cbn. now rewrite Nat.mul_1_r.
  - cbn [fold_left length]. unfold basis at 1, identity_row, ket_vec.
    pose proof (kron_row_delta d 0 m (Ascii.eqb c "1")) as K.
    cbn [Num_R one zero] in *. rewrite K.
    replace (2 * 0)%nat with O by lia.
    change (map _ (seq 0 (2 * m))) with
      (basis (2 * m) (2 * d + (if Ascii.eqb c "1" then 1 else 0))).
    rewrite IH. f_equal.
    + rewrite Nat.pow_succ_r'. lia.
    + destruct (Ascii.eqb c "1"); f_equal; lia.
Qed.

(** The state built from a bitstring is the basis column of the integer
    the bitstring denotes. *)
Lemma bits_vec_basis (chars : list ascii) :
  bits_vec chars = basis (2 ^ length chars) (bits_value chars).
Proof.
  unfold bits_vec, bits_value.
  change [1%R] with (basis 1 0). rewrite bits_vec_basis_from.
  now rewrite Nat.mul_1_l.
Qed.

Lemma check_bits_forallb (chars : list ascii) :
  check_bits chars
  = if forallb is_bit_char chars then Ok tt
    else Raise (Exception_ "bitstring must not contain characters other than '0' and '1'").
Proof.
  induction chars as [|c chars IH]; [reflexivity|].
  cbn. destruct (is_bit_char c); [exact IH|reflexivity].
Qed.

Lemma length_list_ascii (s : string) :
  length (list_ascii_of_string s) = String.length s.
Proof. induction s as [|c s IH]; cbn; congruence. Qed.

(** C8 (as amended). [initialize_state] raises exactly when a character
    of the bitstring is not '0' or '1'; the length of the bitstring is not
    compared with [self.n]. For a bitstring of '0's and '1's, of any length
    [k], it returns the tensor product of the single-qubit basis columns
    taken left to right, which is the column of length [2^k] with 1 at the
    integer the bitstring denotes and 0 elsewhere; with [change] set that
    column also becomes [self.state]. *)
Theorem initialize_state_checks_characters_only
        (s : string) (change : bool) (self : simulator) :
  initialize_state (PyStr s) change self
  = if forallb is_bit_char (list_ascii_of_string s) then
      (Ok (col (basis (2 ^ String.length s) (bits_value (list_ascii_of_string s)))),
       if change then
         set_state (StMatrix (col (basis (2 ^ String.length s)
                                         (bits_value (list_ascii_of_string s))))) self
       else self)
    else
      (Raise (Exception_ "bitstring must not contain characters other than '0' and '1'"),
       self).
Proof.
  unfold initialize_state, bind, lift, get, put_state, ret.
  rewrite check_bits_forallb.
  destruct (forallb is_bit_char (list_ascii_of_string s)); [|reflexivity].
  rewrite kron_bits_col, bits_vec_basis, length_list_ascii.
  destruct change; [reflexivity|]. now rewrite set_state_same.
Qed.

(** C8, counterexample. On a simulator of four qubits the one-character
    bitstring "0" is accepted: [initialize_state] returns the column
    [[1], [0]] although the length of the bitstring is not [self.n]. *)
Lemma initialize_state_accepts_other_lengths :
  String.length "0" <> 4%nat
  /\ fst (initialize_state (PyStr "0") false
            {| self_n := 4; self_seed := 42; self_state := StNone |})
     = Ok [[1%R]; [0%R]].
Proof.
  split; [cbn; lia|].
  unfold initialize_state, bind, lift, get, put_state, ret. cbn.
  f_equal. unfold kron, kron_row. cbn. repeat (f_equal; try lra).
Qed.

(** ** Shapes, dot products and the mixed product of [kron] *)

(** [M] is an [r] x [c] array. *)
Definition shaped {A : Type} (r c : nat) (M : matrix A) : Prop :=
  length M = r /\ Forall (fun row => length row = c) M.

Section MixedProduct.
Context {A : Type} {N : Num A} {L : NumLaws A}.

Add Ring num_ring_mixed : (num_ring (A:=A)).

Lemma length_zip_with {X Y Z : Type} (f : X -> Y -> Z) (l1 : list X) (l2 : list Y) :
  length (zip_with f l1 l2) = Nat.min (length l1) (length l2).
Proof.
  revert l2. induction l1 as [|x l1 IH]; intros [|y l2]; cbn; auto.
Qed.

Lemma length_kron_row (ra rb : list A) :
  length (kron_row ra rb) = (length ra * length rb)%nat.
Proof.
  induction ra as [|x ra IH]; [reflexivity|].
  rewrite kron_row_cons, length_app, length_map, IH. reflexivity.
Qed.

Lemma length_kron (M P : matrix A) : length (kron M P) = (length M * length P)%nat.
Proof.
  induction M as [|r M IH]; [reflexivity|].
  rewrite kron_cons, length_app, length_map, IH. reflexivity.
Qed.

Lemma shaped_kron (r1 c1 r2 c2 : nat) (M P : matrix A) :
  shaped r1 c1 M -> shaped r2 c2 P -> shaped (r1 * r2) (c1 * c2) (kron M P).
Proof.
  intros [HM1 HM2] [HP1 HP2]. split.
  - now rewrite length_kron, HM1, HP1.
  - clear HM1 HP1. induction HM2 as [|ra M Hra _ IH]; [constructor|].
    rewrite kron_cons. apply Forall_app. split; [|exact IH].
    apply Forall_map. eapply Forall_impl; [|exact HP2].
    intros rb Hrb. cbn beta. now rewrite length_kron_row, Hra, Hrb.
Qed.

Lemma shaped_cols (r c : nat) (M : matrix A) :
  shaped (S r) c M -> cols M = c.
Proof.
  intros [H1 H2]. destruct M as [|row M]; [discriminate|].
  now inversion H2.
Qed.

Lemma length_mat_vec (M : matrix A) (v : list A) : length (mat_vec M v) = length M.
Proof. apply length_map. Qed.

Lemma dot_nil_r (u : list A) : dot u [] = zero.
Proof. now destruct u. Qed.

Lemma dot_cons (x y : A) (u v : list A) :
  dot (x :: u) (y :: v) = add (mul x y) (dot u v).
Proof. reflexivity. Qed.

Lemma dot_app (u1 u2 v1 v2 : list A) :
  length u1 = length v1 ->
  dot (u1 ++ u2) (v1 ++ v2) = add (dot u1 v1) (dot u2 v2).
Proof.
  revert v1. induction u1 as [|x u1 IH]; intros [|y v1] H; try discriminate.
  - cbn [app]. unfold dot at 2. cbn. ring.
  - cbn [app]. rewrite !dot_cons, IH by (cbn in H; lia). ring.
Qed.

Lemma dot_scale_l (a : A) (u v : list A) :
  dot (map (mul a) u) v = mul a (dot u v).
Proof.
  revert v. induction u as [|x u IH]; intros [|y v]; cbn [map];
    rewrite ?dot_nil_r; try (unfold dot; cbn; ring).
  rewrite !dot_cons, IH. ring.
Qed.

Lemma dot_scale_r (a : A) (u v : list A) :
  dot u (map (mul a) v) = mul a (dot u v).
Proof.
  revert v. induction u as [|x u IH]; intros [|y v]; cbn [map];
    rewrite ?dot_nil_r; try (unfold dot; cbn; ring).
  rewrite !dot_cons, IH. ring.
Qed.

Lemma dot_kron_row (ra rb u v : list A) :
  length rb = length v ->
  dot (kron_row ra rb) (kron_row u v) = mul (dot ra u) (dot rb v).
Proof.
  intros H. revert u. induction ra as [|x ra IH]; intros [|y u].
  - unfold dot; cbn; ring.
  - unfold dot at 1 2; cbn; ring.
  - rewrite dot_nil_r. cbn [kron_row flat_map]. rewrite dot_nil_r. ring.
  - rewrite !kron_row_cons, dot_app, IH by (now rewrite !length_map).
    rewrite dot_cons, dot_scale_l, dot_scale_r. ring.
Qed.

(** [(M (x) P) (u (x) v) = (M u) (x) (P v)] *)
Lemma mat_vec_kron (M P : matrix A) (u v : list A) :
  Forall (fun row => length row = length v) P ->
  mat_vec (kron M P) (kron_row u v) = kron_row (mat_vec M u) (mat_vec P v).
Proof.
  intros HP. induction M as [|ra M IH]; [reflexivity|].
  rewrite kron_cons. unfold mat_vec at 1. rewrite map_app.
  fold (mat_vec (kron M P) (kron_row u v)). rewrite IH.
  cbn [mat_vec map]. rewrite kron_row_cons. f_equal.
  unfold mat_vec. rewrite !map_map. apply map_ext_in. intros rb Hrb.
  apply dot_kron_row. rewrite Forall_forall in HP. now apply HP.
Qed.

Lemma mat_vec_fold_kron (args : list (matrix A)) (vs : list (list A))
      (K : matrix A) (w : list A) :
  Forall2 (fun M v => Forall (fun row => length row = length v) M) args vs ->
  mat_vec (fold_left kron args K) (fold_left kron_row vs w)
  = fold_left kron_row (zip_with mat_vec args vs) (mat_vec K w).
Proof.
  intros H. revert K w. induction H as [|M v args vs HM _ IH]; intros K w.
  - reflexivity.
  - cbn [fold_left zip_with]. rewrite IH. f_equal. now apply mat_vec_kron.
Qed.

Lemma dot_vadd_l (r1 r2 v : list A) :
  length r1 = length r2 ->
  dot (vadd r1 r2) v = add (dot r1 v) (dot r2 v).
Proof.
  revert r2 v. induction r1 as [|x r1 IHr]; intros [|y r2] v Hr; try discriminate.
  - unfold dot; cbn; ring.
  - destruct v as [|z v]; [rewrite !dot_nil_r; ring|].
    change (vadd (x :: r1) (y :: r2)) with (add x y :: vadd r1 r2).
    rewrite !dot_cons, IHr by (cbn in Hr; lia). ring.
Qed.

Lemma mat_vec_madd (M P : matrix A) (v : list A) :
  Forall2 (fun r1 r2 => length r1 = length r2) M P ->
  mat_vec (madd M P) v = vadd (mat_vec M v) (mat_vec P v).
Proof.
  induction 1 as [|r1 r2 M P Hr _ IH]; [reflexivity|].
  change (madd (r1 :: M) (r2 :: P)) with (vadd r1 r2 :: madd M P).
  change (mat_vec (vadd r1 r2 :: madd M P) v)
    with (dot (vadd r1 r2) v :: mat_vec (madd M P) v).
  rewrite IH, dot_vadd_l by exact Hr. reflexivity.
Qed.
End MixedProduct.

(** ** Basis states, bit by bit *)

(** The column of one qubit: [|1>] or [|0>]. *)
Definition ket (b : bool) : list R := if b then [0; 1]%R else [1; 0]%R.

(** The tensor product of a list of 1-D arrays, left to right. *)
Definition kron_vecs (vs : list (list R)) : list R := fold_left kron_row vs [1%R].

(** The integer of a list of bits, first bit most significant. *)
Definition bools_value (bs : list bool) : nat :=
  fold_left (fun d (b : bool) => 2 * d + (if b then 1 else 0))%nat bs O.

(** The [n] bits of [d], most significant first. *)
Definition to_bits (n d : nat) : list bool :=
  map (fun k => Nat.testbit d (n - 1 - k)) (seq 0 n).

Lemma kron_kets_from (bs : list bool) (m d : nat) :
  fold_left kron_row (map ket bs) (basis m d)
  = basis (m * 2 ^ length bs)
          (fold_left (fun d (b : bool) => 2 * d + (if b then 1 else 0))%nat bs d).
Proof.
  revert m d. induction bs as [|b bs IH]; intros m d.
  - cbn. now rewrite Nat.mul_1_r.
  - cbn [fold_left length map]. unfold basis at 1, identity_row, ket.
    pose proof (kron_row_delta d 0 m b) as K.
    cbn [Num_R one zero] in *. rewrite K.
    replace (2 * 0)%nat with O by lia.
    change (map _ (seq 0 (2 * m))) with (basis (2 * m) (2 * d + (if b then 1 else 0))).
    rewrite IH. f_equal. rewrite Nat.pow_succ_r'. lia.
Qed.

Lemma kron_kets (bs : list bool) :
  kron_vecs (map ket bs) = basis (2 ^ length bs) (bools_value bs).
Proof.
  unfold kron_vecs, bools_value. change [1%R] with (basis 1 0).
  rewrite kron_kets_from. now rewrite Nat.mul_1_l.
Qed.

Lemma bools_value_snoc (bs : list bool) (b : bool) :
  bools_value (bs ++ [b]) = (2 * bools_value bs + (if b then 1 else 0))%nat.
Proof. unfold bools_value. now rewrite fold_left_app. Qed.

Lemma to_bits_succ (n d : nat) :
  to_bits (S n) d = to_bits n (Nat.div2 d) ++ [Nat.testbit d 0].
Proof.
  unfold to_bits. rewrite seq_S, map_app. cbn [map]. f_equal.
  - apply map_ext_in. intros k Hk. apply in_seq in Hk.
    replace (S n - 1 - k)%nat with (S (n - 1 - k)) by lia.
    reflexivity.
  - repeat f_equal. lia.
Qed.

Lemma length_to_bits (n d : nat) : length (to_bits n d) = n.
Proof. unfold to_bits. now rewrite length_map, length_seq. Qed.

Lemma bools_value_to_bits (n d : nat) :
  (d < 2 ^ n)%nat -> bools_value (to_bits n d) = d.
Proof.
  revert d. induction n as [|n IH]; intros d Hd.
  - cbn in *. lia.
  - rewrite to_bits_succ, bools_value_snoc, IH.
    + rewrite (Nat.div2_odd d) at 3. cbn [Nat.testbit].
      destruct (Nat.odd d); cbn [Nat.b2n]; lia.
    + rewrite Nat.pow_succ_r' in Hd. rewrite Nat.div2_div.
      apply Nat.Div0.div_lt_upper_bound. lia.
Qed.

Lemma testbit_bools_value (bs : list bool) (k : nat) :
  Nat.testbit (bools_value bs) k
  = if Nat.ltb k (length bs) then nth (length bs - 1 - k) bs false else false.
Proof.
  revert k. induction bs as [|b bs IH] using rev_ind; intros k.
  - cbn. apply Nat.bits_0.
  - rewrite bools_value_snoc, length_app. cbn [length].
    replace (length bs + 1)%nat with (S (length bs)) by lia.
    destruct k as [|k].
    + replace (S (length bs) - 1 - 0)%nat with (length bs) by lia.
      rewrite app_nth2, Nat.sub_diag by lia. cbn [nth Nat.ltb Nat.leb].
      destruct b.
      * replace (2 * bools_value bs + 1)%nat with (S (2 * bools_value bs)) by lia.
        apply Nat.odd_spec. exists (bools_value bs). lia.
      * rewrite Nat.add_0_r. cbn [Nat.testbit].
        rewrite <- Nat.negb_even, Nat.even_mul. reflexivity.
    + change (if b then 1 else 0)%nat with (Nat.b2n b).
      rewrite Nat.testbit_succ_r, IH.
      change (Nat.ltb (S k) (S (length bs))) with (Nat.ltb k (length bs)).
      destruct (Nat.ltb_spec k (length bs)); [|reflexivity].
      replace (S (length bs) - 1 - S k)%nat with (length bs - 1 - k)%nat by lia.
      now rewrite app_nth1 by lia.
Qed.

(** ** The controlled-X operator *)

(** The projectors [|0><0|] and [|1><1|] as [CX] computes them, from two
    calls of [initialize_state] each. *)
Definition P0_gate : matrix R :=
  mmul (kron_bits ["0"%char]) (transpose (kron_bits ["0"%char])).
Definition P1_gate : matrix R :=
  mmul (kron_bits ["1"%char]) (transpose (kron_bits ["1"%char])).

(** The two argument lists of [CX], with the control at list position
    [pc] and the target at list position [pt]. *)
Definition zero_args (n pc : nat) : list (matrix R) :=
  replace_nth pc P0_gate (repeat I_gate n).
Definition one_args (n pc pt : nat) : list (matrix R) :=
  replace_nth pt X_gate (replace_nth pc P1_gate (repeat I_gate n)).

Lemma length_replace_nth {A : Type} (k : nat) (v : A) (l : list A) :
  length (replace_nth k v l) = length l.
Proof.
  revert k. induction l as [|x l IH]; intros [|k]; cbn; auto.
Qed.

Lemma nth_replace_nth_eq {A : Type} (k : nat) (v d : A) (l : list A) :
  (k < length l)%nat -> nth k (replace_nth k v l) d = v.
Proof.
  revert k. induction l as [|x l IH]; intros [|k] H; cbn in *; try lia; auto.
  apply IH. lia.
Qed.

Lemma nth_replace_nth_neq {A : Type} (k j : nat) (v d : A) (l : list A) :
  k <> j -> nth j (replace_nth k v l) d = nth j l d.
Proof.
  revert k j. induction l as [|x l IH]; intros [|k] [|j] H; cbn; auto; try lia.
Qed.

Lemma replace_nth_same {A : Type} (k : nat) (d : A) (l : list A) :
  replace_nth k (nth k l d) l = l.
Proof.
  revert k. induction l as [|x l IH]; intros [|k]; cbn; auto. now rewrite IH.
Qed.

Lemma map_replace_nth {A B : Type} (f : A -> B) (k : nat) (v : A) (l : list A) :
  map f (replace_nth k v l) = replace_nth k (f v) (map f l).
Proof.
  revert k. induction l as [|x l IH]; intros [|k]; cbn; auto. now rewrite IH.
Qed.

Lemma zip_with_replace_nth {A B X : Type} (f : A -> B -> X) (k : nat) (a : A)
      (l1 : list A) (l2 : list B) (d : B) :
  zip_with f (replace_nth k a l1) l2
  = replace_nth k (f a (nth k l2 d)) (zip_with f l1 l2).
Proof.
  revert k l2. induction l1 as [|x l1 IH]; intros [|k] [|y l2]; cbn; auto.
  now rewrite (IH k l2).
Qed.

Lemma zip_with_repeat {A B X : Type} (f : A -> B -> X) (a : A) (l : list B) :
  zip_with f (repeat a (length l)) l = map (f a) l.
Proof. induction l as [|y l IH]; cbn; auto. now rewrite IH. Qed.

Lemma list_set_back {A : Type} (l : list A) (q : Z) (v : A) :
  (0 <= q < Z.of_nat (length l))%Z ->
  list_set l (-1 - q) v = Ok (replace_nth (length l - 1 - Z.to_nat q) v l).
Proof.
  intros H. unfold list_set, py_index.
  replace (0 <=? -1 - q)%Z with false by (symmetry; apply Z.leb_gt; lia).
  cbn [andb].
  replace (- Z.of_nat (length l) <=? -1 - q)%Z with true
    by (symmetry; apply Z.leb_le; lia).
  replace (-1 - q <? 0)%Z with true by (symmetry; apply Z.ltb_lt; lia).
  cbn [andb]. do 2 f_equal. lia.
Qed.

Lemma bind_get {S B : Type} (k : S -> M S B) (s : S) : bind get k s = k s s.
Proof. reflexivity. Qed.

Lemma bind_lift_ok {S A B : Type} (a : A) (k : A -> M S B) (s : S) :
  bind (lift (Ok a)) k s = k a s.
Proof. reflexivity. Qed.

Lemma bind_initialize_state {B : Type} (s : string) (k : matrix R -> M simulator B)
      (self : simulator) :
  check_bits (list_ascii_of_string s) = Ok tt ->
  bind (initialize_state (PyStr s) false) k self
  = k (kron_bits (list_ascii_of_string s)) self.
Proof. intros H. unfold bind. now rewrite initialize_state_bit. Qed.

Lemma matmul_P0 :
  matmul (kron_bits ["0"%char]) (transpose (kron_bits ["0"%char])) = Ok P0_gate.
Proof. reflexivity. Qed.

Lemma matmul_P1 :
  matmul (kron_bits ["1"%char]) (transpose (kron_bits ["1"%char])) = Ok P1_gate.
Proof. reflexivity. Qed.

Lemma CX_value (self : simulator) (control target : Z) :
  (0 <= control < self_n self)%Z -> (0 <= target < self_n self)%Z ->
  control <> target ->
  CX control target self
  = (Ok (madd (kronecker_product
                 (zero_args (Z.to_nat (self_n self))
                            (Z.to_nat (self_n self) - 1 - Z.to_nat control)))
              (kronecker_product
                 (one_args (Z.to_nat (self_n self))
                           (Z.to_nat (self_n self) - 1 - Z.to_nat control)
                           (Z.to_nat (self_n self) - 1 - Z.to_nat target)))),
     self).
Proof.
  intros Hc Ht Hne. unfold CX. rewrite bind_get.
  replace (control >=? self_n self)%Z with false
    by (symmetry; rewrite Z.geb_leb; apply Z.leb_gt; lia).
  replace (target >=? self_n self)%Z with false
    by (symmetry; rewrite Z.geb_leb; apply Z.leb_gt; lia).
  replace (control =? target)%Z with false by (symmetry; apply Z.eqb_neq; lia).
  cbn [orb].
  rewrite !bind_initialize_state by reflexivity. cbn [list_ascii_of_string].
  rewrite matmul_P0, bind_lift_ok.
  rewrite list_set_back, repeat_length, bind_lift_ok by (rewrite repeat_length; lia).
  rewrite !bind_initialize_state by reflexivity. cbn [list_ascii_of_string].
  rewrite matmul_P1, bind_lift_ok.
  rewrite list_set_back, repeat_length, bind_lift_ok by (rewrite repeat_length; lia).
  rewrite list_set_back, length_replace_nth, repeat_length, bind_lift_ok
    by (rewrite length_replace_nth, repeat_length; lia).
  reflexivity.
Qed.

Lemma I_gate_ket (b : bool) : mat_vec I_gate (ket b) = ket b.
Proof. destruct b; cbn; repeat (f_equal; try lra). Qed.

Lemma X_gate_ket (b : bool) : mat_vec X_gate (ket b) = ket (negb b).
Proof. destruct b; cbn; repeat (f_equal; try lra). Qed.

Lemma P0_gate_ket (b : bool) :
  mat_vec P0_gate (ket b) = if b then [0; 0]%R else ket false.
Proof. destruct b; cbn; repeat (f_equal; try lra). Qed.

Lemma P1_gate_ket (b : bool) :
  mat_vec P1_gate (ket b) = if b then ket true else [0; 0]%R.
Proof. destruct b; cbn; repeat (f_equal; try lra). Qed.

(** Arrays of zeros. *)
Definition all_zero (v : list R) : Prop := Forall (fun x => x = 0%R) v.

Lemma all_zero_repeat (v : list R) : all_zero v -> v = repeat 0%R (length v).
Proof. induction 1 as [|x v Hx _ IH]; cbn; [reflexivity|]. now rewrite Hx, <- IH. Qed.

Lemma all_zero_map_mul (x : R) (v : list R) :
  x = 0%R \/ all_zero v -> all_zero (map (mul x) v).
Proof.
  intros H. apply Forall_map. destruct H as [->|H].
  - apply Forall_forall. intros y _. cbn. lra.
  - eapply Forall_impl; [|exact H]. intros y ->. cbn. lra.
Qed.

Lemma all_zero_kron_row (u v : list R) :
  all_zero u \/ all_zero v -> all_zero (kron_row u v).
Proof.
  intros H. induction u as [|x u IH]; [constructor|].
  rewrite kron_row_cons. apply Forall_app. split.
  - apply all_zero_map_mul. destruct H as [H|H]; [left; now inversion H|now right].
  - apply IH. destruct H as [H|H]; [left; now inversion H|now right].
Qed.

Lemma all_zero_fold (vs : list (list R)) (w : list R) :
  all_zero w \/ Exists all_zero vs -> all_zero (fold_left kron_row vs w).
Proof.
  revert w. induction vs as [|v vs IH]; intros w H.
  - destruct H as [H|H]; [exact H|inversion H].
  - cbn [fold_left]. apply IH. destruct H as [H|H].
    + left. apply all_zero_kron_row. now left.
    + inversion H; subst; [left; apply all_zero_kron_row; now right|now right].
Qed.

Lemma length_fold_kron_row (vs : list (list R)) (w : list R) :
  Forall (fun v => length v = 2%nat) vs ->
  length (fold_left kron_row vs w) = (length w * 2 ^ length vs)%nat.
Proof.
  intros H. revert w. induction H as [|v vs Hv _ IH]; intros w.
  - cbn. lia.
  - cbn [fold_left length]. rewrite IH, length_kron_row, Hv, Nat.pow_succ_r'. lia.
Qed.

Lemma vadd_zero_r (v : list R) (k : nat) :
  length v = k -> vadd v (repeat 0%R k) = v.
Proof.
  revert k. induction v as [|x v IH]; intros [|k] H; try discriminate; [reflexivity|].
  cbn [repeat]. change (vadd (x :: v) (0%R :: repeat 0%R k))
    with (add x 0%R :: vadd v (repeat 0%R k)).
  rewrite IH by (cbn in H; lia). f_equal. cbn. lra.
Qed.

Lemma vadd_zero_l (v : list R) (k : nat) :
  length v = k -> vadd (repeat 0%R k) v = v.
Proof.
  revert k. induction v as [|x v IH]; intros [|k] H; try discriminate; [reflexivity|].
  cbn [repeat]. change (vadd (0%R :: repeat 0%R k) (x :: v))
    with (add 0%R x :: vadd (repeat 0%R k) v).
  rewrite IH by (cbn in H; lia). f_equal. cbn. lra.
Qed.

Lemma Exists_replace_nth (k : nat) (v : list R) (vs : list (list R)) :
  (k < length vs)%nat -> all_zero v -> Exists all_zero (replace_nth k v vs).
Proof.
  revert k. induction vs as [|u vs IH]; intros [|k] Hk Hv; cbn in *; try lia.
  - now constructor.
  - constructor 2. apply IH; [lia|exact Hv].
Qed.

Lemma Exists_replace_nth_other (k j : nat) (v : list R) (vs : list (list R)) :
  Exists all_zero vs -> (j < length vs)%nat -> all_zero (nth j vs []) -> k <> j ->
  Exists all_zero (replace_nth k v vs).
Proof.
  intros _ Hj Hz Hne.
  apply Exists_exists. exists (nth j (replace_nth k v vs) []). split.
  - apply nth_In. now rewrite length_replace_nth.
  - now rewrite nth_replace_nth_neq.
Qed.

Lemma basis_length (m d : nat) : length (basis m d) = m.
Proof. unfold basis, identity_row. now rewrite length_map, length_seq. Qed.

Lemma Forall_length_kets (bs : list bool) :
  Forall (fun v => length v = 2%nat) (map ket bs).
Proof. apply Forall_map, Forall_forall. intros b _. now destruct b. Qed.

(** The shape of a tensor product of 2 x 2 arrays. *)
Lemma shaped_kronecker_product (args : list (matrix R)) :
  Forall (shaped 2 2) args ->
  shaped (2 ^ length args) (2 ^ length args) (kronecker_product args).
Proof.
  induction 1 as [|M args HM _ IH].
  - cbn. split; [reflexivity|]. repeat constructor.
  - rewrite kronecker_product_cons. cbn [length]. rewrite Nat.pow_succ_r'.
    now apply shaped_kron.
Qed.

Lemma shaped_I_gate : shaped 2 2 I_gate.
Proof. split; [reflexivity|repeat constructor]. Qed.
Lemma shaped_X_gate : shaped 2 2 X_gate.
Proof. split; [reflexivity|repeat constructor]. Qed.
Lemma shaped_H_gate : shaped 2 2 H_gate.
Proof. split; [reflexivity|repeat constructor]. Qed.
Lemma shaped_P0_gate : shaped 2 2 P0_gate.
Proof. split; [reflexivity|repeat constructor]. Qed.
Lemma shaped_P1_gate : shaped 2 2 P1_gate.
Proof. split; [reflexivity|repeat constructor]. Qed.

Lemma Forall_replace_nth {A : Type} (P : A -> Prop) (k : nat) (v : A) (l : list A) :
  P v -> Forall P l -> Forall P (replace_nth k v l).
Proof.
  intros Hv H. revert k. induction H as [|x l Hx Hl IH]; intros [|k]; cbn;
    constructor; auto.
Qed.

Lemma shaped_zero_args (n pc : nat) : Forall (shaped 2 2) (zero_args n pc).
Proof.
  apply Forall_replace_nth; [apply shaped_P0_gate|].
  apply Forall_forall. intros M HM. apply repeat_spec in HM. subst.
  apply shaped_I_gate.
Qed.

Lemma shaped_one_args (n pc pt : nat) : Forall (shaped 2 2) (one_args n pc pt).
Proof.
  apply Forall_replace_nth; [apply shaped_X_gate|].
  apply Forall_replace_nth; [apply shaped_P1_gate|].
  apply Forall_forall. intros M HM. apply repeat_spec in HM. subst.
  apply shaped_I_gate.
Qed.

Lemma shaped_madd (r c : nat) (M P : matrix R) :
  shaped r c M -> shaped r c P ->
  shaped r c (madd M P) /\ Forall2 (fun r1 r2 => length r1 = length r2) M P.
Proof.
  intros [HM1 HM2] [HP1 HP2]. subst r. revert P HP1 HP2.
  induction HM2 as [|ra M Hra _ IH]; intros [|rb P] HP1 HP2; try discriminate.
  - repeat split; constructor.
  - inversion HP2; subst. destruct (IH P) as [[I1 I2] I3]; [cbn in HP1; lia|assumption|].
    repeat split.
    + cbn. f_equal. exact I1.
    + constructor; [|exact I2]. unfold vadd. rewrite length_zip_with. lia.
    + constructor; [lia|exact I3].
Qed.

Lemma Forall2_rows_kets (args : list (matrix R)) (bs : list bool) :
  Forall (shaped 2 2) args -> length args = length bs ->
  Forall2 (fun M v => Forall (fun row => length row = length v) M) args (map ket bs).
Proof.
  intros H. revert bs. induction H as [|M args HM _ IH]; intros [|b bs] Hl;
    try discriminate; cbn [map]; constructor.
  - destruct HM as [_ HM]. replace (length (ket b)) with 2%nat by now destruct b.
    exact HM.
  - apply IH. cbn in Hl. lia.
Qed.

Lemma length_zero_args (n pc : nat) : length (zero_args n pc) = n.
Proof. unfold zero_args. now rewrite length_replace_nth, repeat_length. Qed.

Lemma length_one_args (n pc pt : nat) : length (one_args n pc pt) = n.
Proof. unfold one_args. now rewrite !length_replace_nth, repeat_length. Qed.

Lemma one_by_one : mat_vec [[1%R]] [1%R] = [1%R].
Proof. cbn. f_equal. lra. Qed.

Lemma nth_map_ket (k : nat) (bs : list bool) :
  nth k (map ket bs) (ket false) = ket (nth k bs false).
Proof. apply map_nth. Qed.

Lemma zero_branch (n pc : nat) (bs : list bool) :
  length bs = n -> (pc < n)%nat ->
  mat_vec (kronecker_product (zero_args n pc)) (kron_vecs (map ket bs))
  = if nth pc bs false then repeat 0%R (2 ^ n) else kron_vecs (map ket bs).
Proof.
  intros Hl Hpc. unfold kronecker_product, kron_vecs.
  rewrite mat_vec_fold_kron
    by (apply Forall2_rows_kets; [apply shaped_zero_args|now rewrite length_zero_args]).
  change (mat_vec [[one]] [1%R]) with (mat_vec [[1%R]] [1%R]). rewrite one_by_one.
  unfold zero_args. rewrite (zip_with_replace_nth _ _ _ _ _ (ket false)).
  rewrite <- Hl at 1. rewrite <- (length_map ket bs) at 1.
  rewrite zip_with_repeat, map_map, nth_map_ket, P0_gate_ket.
  rewrite (map_ext _ ket) by apply I_gate_ket.
  destruct (nth pc bs false) eqn:E.
  - assert (Z : all_zero (fold_left kron_row (replace_nth pc [0%R; 0%R] (map ket bs)) [1%R])).
    { apply all_zero_fold. right. apply Exists_replace_nth.
      - rewrite length_map. lia.
      - repeat constructor. }
    apply all_zero_repeat in Z. rewrite Z. f_equal.
    rewrite length_fold_kron_row.
    + rewrite length_replace_nth, length_map, Hl. cbn. lia.
    + apply Forall_replace_nth; [reflexivity|apply Forall_length_kets].
  - rewrite <- E, <- nth_map_ket, replace_nth_same. reflexivity.
Qed.

Lemma one_branch (n pc pt : nat) (bs : list bool) :
  length bs = n -> (pc < n)%nat -> (pt < n)%nat -> pc <> pt ->
  mat_vec (kronecker_product (one_args n pc pt)) (kron_vecs (map ket bs))
  = if nth pc bs false
    then kron_vecs (map ket (replace_nth pt (negb (nth pt bs false)) bs))
    else repeat 0%R (2 ^ n).
Proof.
  intros Hl Hpc Hpt Hne. unfold kronecker_product, kron_vecs.
  rewrite mat_vec_fold_kron
    by (apply Forall2_rows_kets; [apply shaped_one_args|now rewrite length_one_args]).
  change (mat_vec [[one]] [1%R]) with (mat_vec [[1%R]] [1%R]). rewrite one_by_one.
  unfold one_args. rewrite !(zip_with_replace_nth _ _ _ _ _ (ket false)).
  rewrite <- Hl at 1. rewrite <- (length_map ket bs) at 1.
  rewrite zip_with_repeat, map_map, !nth_map_ket, P1_gate_ket, X_gate_ket.
  rewrite (map_ext _ ket) by apply I_gate_ket.
  destruct (nth pc bs false) eqn:E.
  - rewrite <- E, <- nth_map_ket, replace_nth_same, map_replace_nth. reflexivity.
  - assert (Z : all_zero (fold_left kron_row
                 (replace_nth pt (ket (negb (nth pt bs false)))
                    (replace_nth pc [0%R; 0%R] (map ket bs))) [1%R])).
    { apply all_zero_fold. right.
      apply Exists_replace_nth_other with (j := pc); try lia.
      - apply Exists_replace_nth; [rewrite length_map; lia|repeat constructor].
      - rewrite length_replace_nth, length_map. lia.
      - rewrite nth_replace_nth_eq by (rewrite length_map; lia). repeat constructor. }
    apply all_zero_repeat in Z. rewrite Z. f_equal.
    rewrite length_fold_kron_row.
    + rewrite !length_replace_nth, length_map, Hl. cbn. lia.
    + apply Forall_replace_nth; [now destruct (nth pt bs false)|].
      apply Forall_replace_nth; [reflexivity|apply Forall_length_kets].
Qed.

(** The operator of [CX] on a basis state given by its bits: when the bit
    at the control position is set, the bit at the target position is
    flipped. *)
Lemma CX_matrix_bits (n pc pt : nat) (bs : list bool) :
  length bs = n -> (pc < n)%nat -> (pt < n)%nat -> pc <> pt ->
  mat_vec (madd (kronecker_product (zero_args n pc))
                (kronecker_product (one_args n pc pt)))
          (kron_vecs (map ket bs))
  = kron_vecs (map ket (if nth pc bs false
                        then replace_nth pt (negb (nth pt bs false)) bs
                        else bs)).
Proof.
  intros Hl Hpc Hpt Hne.
  pose proof (shaped_kronecker_product _ (shaped_zero_args n pc)) as S0.
  pose proof (shaped_kronecker_product _ (shaped_one_args n pc pt)) as S1.
  rewrite length_zero_args in S0. rewrite length_one_args in S1.
  destruct (shaped_madd _ _ _ _ S0 S1) as [_ F2].
  rewrite mat_vec_madd by exact F2.
  rewrite zero_branch, one_branch by assumption.
  destruct (nth pc bs false).
  - apply vadd_zero_l. unfold kron_vecs. rewrite length_fold_kron_row.
    + rewrite length_map, length_replace_nth, Hl. cbn. lia.
    + apply Forall_length_kets.
  - apply vadd_zero_r. unfold kron_vecs. rewrite length_fold_kron_row.
    + rewrite length_map, Hl. cbn. lia.
    + apply Forall_length_kets.
Qed.

Lemma flat_map_pairs {B : Type} (f : nat -> B) (s m : nat) :
  flat_map (fun i => [f (2 * i + 0)%nat; f (2 * i + 1)%nat]) (seq s m)
  = map f (seq (2 * s) (2 * m)).
Proof.
  revert s. induction m as [|m IH]; intros s; [reflexivity|].
  replace (2 * S m)%nat with (S (S (2 * m))) by lia.
  cbn [seq flat_map map app]. rewrite IH.
  replace (2 * S s)%nat with (S (S (2 * s))) by lia.
  f_equal; [f_equal; lia|]. f_equal. f_equal. lia.
Qed.

Lemma kron_identity (m : nat) :
  kron (identity_matrix (A:=R) m) I_gate = identity_matrix (2 * m).
Proof.
  unfold identity_matrix, kron. rewrite flat_map_concat_map, map_map.
  rewrite <- flat_map_concat_map.
  rewrite <- (flat_map_pairs (identity_row (2 * m)) 0 m).
  apply flat_map_ext. intros i. unfold I_gate. cbn [map].
  pose proof (kron_row_delta i 0 m false) as K0.
  pose proof (kron_row_delta i 0 m true) as K1.
  unfold identity_row. cbn [Num_R one zero] in *.
  replace (2 * 0)%nat with O in * by lia.
  now rewrite K0, K1.
Qed.

Lemma fold_kron_identity (n m : nat) :
  fold_left kron (repeat I_gate n) (identity_matrix m) = identity_matrix (m * 2 ^ n).
Proof.
  revert m. induction n as [|n IH]; intros m.
  - cbn. now rewrite Nat.mul_1_r.
  - cbn [repeat fold_left]. rewrite kron_identity, IH. f_equal.
    rewrite Nat.pow_succ_r'. lia.
Qed.

(** The tensor product of [n] identities is the identity of size [2^n]. *)
Lemma kronecker_product_identity (n : nat) :
  kronecker_product (repeat I_gate n) = identity_matrix (2 ^ n).
Proof.
  unfold kronecker_product. change [[one]] with (identity_matrix (A:=R) 1).
  rewrite fold_kron_identity. f_equal. lia.
Qed.

Lemma nth_to_bits (n d k : nat) :
  (k < n)%nat -> nth k (to_bits n d) false = Nat.testbit d (n - 1 - k).
Proof.
  intros H. unfold to_bits.
  rewrite nth_indep with (d' := Nat.testbit d (n - 1 - 0))
    by (now rewrite length_map, length_seq).
  change (Nat.testbit d (n - 1 - 0))
    with ((fun k => Nat.testbit d (n - 1 - k)) O).
  rewrite map_nth, seq_nth by lia. reflexivity.
Qed.

Lemma testbit_small (n d k : nat) :
  (d < 2 ^ n)%nat -> (n <= k)%nat -> Nat.testbit d k = false.
Proof.
  intros Hd Hk. rewrite <- (bools_value_to_bits n d Hd), testbit_bools_value.
  rewrite length_to_bits.
  destruct (Nat.ltb_spec k n); [lia|reflexivity].
Qed.

(** Flipping one bit of a bit list is the exclusive or of its integer with
    a power of two. *)
Lemma bools_value_flip (n d t : nat) :
  (d < 2 ^ n)%nat -> (t < n)%nat ->
  bools_value (replace_nth (n - 1 - t) (negb (nth (n - 1 - t) (to_bits n d) false))
                           (to_bits n d))
  = Nat.lxor d (2 ^ t).
Proof.
  intros Hd Ht. apply Nat.bits_inj. intros k.
  rewrite testbit_bools_value, length_replace_nth, length_to_bits.
  rewrite Nat.lxor_spec, Nat.pow2_bits_eqb.
  destruct (Nat.ltb_spec k n) as [Hk|Hk].
  - destruct (Nat.eqb_spec t k) as [->|Hne].
    + rewrite nth_replace_nth_eq by (rewrite length_to_bits; lia).
      rewrite nth_to_bits by lia.
      replace (n - 1 - (n - 1 - k))%nat with k by lia.
      now destruct (Nat.testbit d k).
    + rewrite nth_replace_nth_neq by lia.
      rewrite nth_to_bits by lia.
      replace (n - 1 - (n - 1 - k))%nat with k by lia.
      now destruct (Nat.testbit d k).
  - rewrite (testbit_small n d k Hd Hk).
    destruct (Nat.eqb_spec t k); [lia|reflexivity].
Qed.

(** The operator of [CX] on the basis state of index [d]: qubit [q] is bit
    [q] of the index. *)
Lemma CX_matrix_basis (n c t d : nat) :
  (c < n)%nat -> (t < n)%nat -> c <> t -> (d < 2 ^ n)%nat ->
  mat_vec (madd (kronecker_product (zero_args n (n - 1 - c)))
                (kronecker_product (one_args n (n - 1 - c) (n - 1 - t))))
          (basis (2 ^ n) d)
  = basis (2 ^ n) (if Nat.testbit d c then Nat.lxor d (2 ^ t) else d).
Proof.
  intros Hc Ht Hne Hd.
  pose proof (kron_kets (to_bits n d)) as K.
  rewrite length_to_bits, bools_value_to_bits in K by exact Hd.
  rewrite <- K at 1.
  rewrite CX_matrix_bits by (rewrite ?length_to_bits; lia).
  rewrite kron_kets, nth_to_bits by lia.
  replace (n - 1 - (n - 1 - c))%nat with c by lia.
  destruct (Nat.testbit d c).
  - rewrite length_replace_nth, length_to_bits. f_equal.
    now apply bools_value_flip.
  - rewrite length_to_bits. f_equal. now apply bools_value_to_bits.
Qed.

Lemma transpose_col {A : Type} {N : Num A} (x : A) (v : list A) :
  transpose (col (x :: v)) = [x :: v].
Proof.
  unfold transpose, cols. cbn [col map hd length transpose_aux]. f_equal.
  f_equal. induction v as [|y v IH]; [reflexivity|]. cbn. now rewrite IH.
Qed.

Lemma mmul_col {A : Type} {N : Num A} (M : matrix A) (x : A) (v : list A) :
  mmul M (col (x :: v)) = col (mat_vec M (x :: v)).
Proof.
  unfold mmul. rewrite transpose_col. unfold col, mat_vec. rewrite map_map.
  reflexivity.
Qed.

Lemma pow2_pos (n : nat) : exists k, (2 ^ n = S k)%nat.
Proof.
  exists (2 ^ n - 1)%nat. pose proof (Nat.pow_nonzero 2 n). lia.
Qed.

Lemma matmul_col (n : nat) (M : matrix R) (v : list R) :
  shaped (2 ^ n) (2 ^ n) M -> length v = (2 ^ n)%nat ->
  matmul M (col v) = Ok (col (mat_vec M v)).
Proof.
  intros HM Hv. destruct (pow2_pos n) as [k Hk]. rewrite Hk in *.
  unfold matmul. rewrite (shaped_cols _ _ _ HM).
  unfold rows, col. rewrite length_map, Hv, Nat.eqb_refl.
  destruct v as [|x v]; [discriminate|].
  fold (col (x :: v)). now rewrite mmul_col.
Qed.

Lemma shaped_CX_matrix (n pc pt : nat) :
  shaped (2 ^ n) (2 ^ n)
         (madd (kronecker_product (zero_args n pc))
               (kronecker_product (one_args n pc pt))).
Proof.
  pose proof (shaped_kronecker_product _ (shaped_zero_args n pc)) as S0.
  pose proof (shaped_kronecker_product _ (shaped_one_args n pc pt)) as S1.
  rewrite length_zero_args in S0. rewrite length_one_args in S1.
  now destruct (shaped_madd _ _ _ _ S0 S1).
Qed.

(** C3. For in-bounds [control] and [target], [CX] returns a
    [2^n] x [2^n] operator. When [control <> target] (so [n >= 2]) it maps
    the basis state of index [d] to itself when bit [control] of [d] is 0,
    and to the basis state whose index differs from [d] in bit [target]
    only when bit [control] of [d] is 1. When [control = target] (also for
    [n = 1], [control = target = 0]) it is the identity of size [2^n]. *)
Theorem CX_is_controlled_X (self : simulator) (control target : Z) :
  (0 <= control < self_n self)%Z -> (0 <= target < self_n self)%Z ->
  let n := Z.to_nat (self_n self) in
  exists cx : matrix R,
    CX control target self = (Ok cx, self)
    /\ shaped (2 ^ n) (2 ^ n) cx
    /\ (control = target -> cx = identity_matrix (2 ^ n))
    /\ (control <> target ->
        forall d : nat, (d < 2 ^ n)%nat ->
          matmul cx (col (basis (2 ^ n) d))
          = Ok (col (basis (2 ^ n)
                       (if Nat.testbit d (Z.to_nat control)
                        then Nat.lxor d (2 ^ Z.to_nat target) else d)))).
Proof.
  intros Hc Ht n. destruct (Z.eq_dec control target) as [->|Hne].
  - exists (identity_matrix (2 ^ n)). split; [|split; [|split]].
    + unfold CX. rewrite bind_get.
      replace (target >=? self_n self)%Z with false
        by (symmetry; rewrite Z.geb_leb; apply Z.leb_gt; lia).
      rewrite Z.eqb_refl. cbn [orb]. fold n.
      now rewrite kronecker_product_identity.
    + rewrite <- kronecker_product_identity.
      replace n with (length (repeat I_gate n)) at 1 2 by apply repeat_length.
      apply shaped_kronecker_product, Forall_forall.
      intros M HM. apply repeat_spec in HM. subst. apply shaped_I_gate.
    + reflexivity.
    + intros H. now destruct H.
  - eexists. split; [|split; [|split]].
    + now apply CX_value.
    + apply shaped_CX_matrix.
    + intros H. now destruct Hne.
    + intros _ d Hd. fold n.
      rewrite (matmul_col n) by (auto using shaped_CX_matrix, basis_length).
      f_equal. f_equal.
      pose proof (CX_matrix_basis n (Z.to_nat control) (Z.to_nat target) d) as K.
      apply K; lia.
Qed.

(** C3, witness: two qubits, control 1 and target 0. *)
Lemma CX_is_controlled_X_witness :
  exists cx : matrix R,
    CX 1 0 {| self_n := 2; self_seed := 42; self_state := StNone |}
    = (Ok cx, {| self_n := 2; self_seed := 42; self_state := StNone |})
    /\ shaped 4 4 cx
    /\ (1%Z = 0%Z -> cx = identity_matrix 4)
    /\ (1%Z <> 0%Z ->
        forall d : nat, (d < 4)%nat ->
          matmul cx (col (basis 4 d))
          = Ok (col (basis 4 (if Nat.testbit d 1 then Nat.lxor d 1 else d)))).
Proof.
  apply (CX_is_controlled_X {| self_n := 2; self_seed := 42; self_state := StNone |} 1 0);
    cbn; lia.
Defined.

(** ** The block form of a tensor product with a 2 x 2 array *)

Section Blocks.
Context {A : Type} {N : Num A} {L : NumLaws A}.

Add Ring num_ring_blocks : (num_ring (A:=A)).

(** [a * u + b * w] on 1-D arrays. *)
Definition lin2 (a b : A) (u w : list A) : list A :=
  vadd (vscale a u) (vscale b w).

Lemma zip_with_map {X Y Z W : Type} (f : Y -> Z -> W) (g : X -> Y) (h : X -> Z)
      (l : list X) :
  zip_with f (map g l) (map h l) = map (fun x => f (g x) (h x)) l.
Proof. induction l as [|x l IH]; cbn; auto. now rewrite IH. Qed.

Lemma length_lin2 (a b : A) (u w : list A) :
  length u = length w -> length (lin2 a b u w) = length u.
Proof.
  intros H. unfold lin2, vadd, vscale.
  rewrite length_zip_with, !length_map. lia.
Qed.

(** [(G (x) K) (v0 ++ v1)], block by block. *)
Lemma mat_vec_kron_block (a b c d : A) (K : matrix A) (v0 v1 : list A) :
  Forall (fun row => length row = length v0) K ->
  mat_vec (kron [[a; b]; [c; d]] K) (v0 ++ v1)
  = lin2 a b (mat_vec K v0) (mat_vec K v1) ++ lin2 c d (mat_vec K v0) (mat_vec K v1).
Proof.
  intros HK. rewrite !kron_cons. cbn [kron flat_map]. rewrite app_nil_r.
  unfold mat_vec at 1. rewrite map_app, !map_map.
  unfold lin2, vadd, vscale, mat_vec. rewrite !map_map, !zip_with_map.
  f_equal; apply map_ext_in; intros rk Hrk;
    rewrite !kron_row_cons; cbn [kron_row flat_map]; rewrite app_nil_r;
    (rewrite dot_app by (rewrite length_map; rewrite Forall_forall in HK; now apply HK));
    now rewrite !dot_scale_l.
Qed.

Lemma dot_lin2_l (a b : A) (u w v : list A) :
  length u = length w ->
  dot (lin2 a b u w) v = add (mul a (dot u v)) (mul b (dot w v)).
Proof.
  intros H. unfold lin2. rewrite dot_vadd_l by (unfold vscale; now rewrite !length_map).
  unfold vscale. now rewrite !dot_scale_l.
Qed.

(** A 2 x 2 array is the array of its four entries. *)
Lemma shaped_2_2_eta (g : matrix A) :
  shaped 2 2 g -> exists a b c d, g = [[a; b]; [c; d]].
Proof.
  intros [H1 H2]. destruct g as [|r0 [|r1 [|r2 g]]]; try discriminate.
  inversion H2 as [|? ? E0 H3]; subst. inversion H3 as [|? ? E1 _]; subst.
  destruct r0 as [|a [|b [|? ?]]]; try discriminate.
  destruct r1 as [|c [|d [|? ?]]]; try discriminate.
  now exists a, b, c, d.
Qed.
End Blocks.

(** ** Rank-[n] arrays as vectors *)

(** A rank-[n] array: every axis has both halves, down to the entries. *)
Inductive perfect : nat -> tensor -> Prop :=
| perfect_scalar (x : R) : perfect O (Scalar x)
| perfect_axis (n : nat) (t0 t1 : tensor) :
    perfect n t0 -> perfect n t1 -> perfect (S n) (Axis t0 t1).

Fixpoint tadd (s t : tensor) : tensor :=
  match s, t with
  | Scalar x, Scalar y => Scalar (x + y)
  | Axis s0 s1, Axis t0 t1 => Axis (tadd s0 t0) (tadd s1 t1)
  | _, _ => s
  end.

Fixpoint tscale (a : R) (t : tensor) : tensor :=
  match t with
  | Scalar x => Scalar (a * x)
  | Axis t0 t1 => Axis (tscale a t0) (tscale a t1)
  end.

Definition tlin2 (a b : R) (s t : tensor) : tensor := tadd (tscale a s) (tscale b t).

(** The contraction of the 2 x 2 array [g] against axis [i]. *)
Fixpoint apply_axis (i : nat) (g : matrix R) (t : tensor) {struct t} : tensor :=
  match t with
  | Scalar x => Scalar x
  | Axis t0 t1 =>
      match i with
      | O => Axis (tlin2 (entry g false false) (entry g false true) t0 t1)
                  (tlin2 (entry g true false) (entry g true true) t0 t1)
      | S i' => Axis (apply_axis i' g t0) (apply_axis i' g t1)
      end
  end.

(** The contraction of a list of 2 x 2 arrays, one against each axis. *)
Fixpoint apply_all (gs : list (matrix R)) (t : tensor) {struct t} : tensor :=
  match gs, t with
  | g :: gs', Axis t0 t1 =>
      Axis (tlin2 (entry g false false) (entry g false true)
                  (apply_all gs' t0) (apply_all gs' t1))
           (tlin2 (entry g true false) (entry g true true)
                  (apply_all gs' t0) (apply_all gs' t1))
  | _, _ => t
  end.

Lemma perfect_rank (n : nat) (t : tensor) : perfect n t -> rank t = n.
Proof. induction 1; cbn; auto. Qed.

Lemma length_flatten (n : nat) (t : tensor) :
  perfect n t -> length (flatten t) = (2 ^ n)%nat.
Proof.
  induction 1 as [x|n t0 t1 _ IH0 _ IH1]; [reflexivity|].
  cbn [flatten]. rewrite length_app, IH0, IH1, Nat.pow_succ_r'. lia.
Qed.

Lemma perfect_tscale (n : nat) (a : R) (t : tensor) :
  perfect n t -> perfect n (tscale a t).
Proof. induction 1; cbn; constructor; auto. Qed.

Lemma perfect_tadd (n : nat) (s t : tensor) :
  perfect n s -> perfect n t -> perfect n (tadd s t).
Proof.
  intros Hs. revert t. induction Hs as [x|n s0 s1 _ IH0 _ IH1]; intros t Ht;
    inversion Ht; subst; cbn; constructor; auto.
Qed.

Lemma perfect_tlin2 (n : nat) (a b : R) (s t : tensor) :
  perfect n s -> perfect n t -> perfect n (tlin2 a b s t).
Proof. intros. apply perfect_tadd; now apply perfect_tscale. Qed.

Lemma perfect_apply_axis (n i : nat) (g : matrix R) (t : tensor) :
  perfect n t -> perfect n (apply_axis i g t).
Proof.
  intros H. revert i. induction H as [x|n t0 t1 H0 IH0 H1 IH1]; intros i.
  - constructor.
  - destruct i; cbn; constructor; auto using perfect_tlin2.
Qed.

Lemma perfect_apply_all (n : nat) (gs : list (matrix R)) (t : tensor) :
  perfect n t -> perfect n (apply_all gs t).
Proof.
  intros H. revert gs. induction H as [x|n t0 t1 H0 IH0 H1 IH1]; intros gs.
  - destruct gs; constructor.
  - destruct gs; cbn; constructor; auto using perfect_tlin2.
Qed.

Lemma zip_with_app {X Y Z : Type} (f : X -> Y -> Z) (l1 l2 : list X) (m1 m2 : list Y) :
  length l1 = length m1 ->
  zip_with f (l1 ++ l2) (m1 ++ m2) = zip_with f l1 m1 ++ zip_with f l2 m2.
Proof.
  revert m1. induction l1 as [|x l1 IH]; intros [|y m1] H; try discriminate;
    [reflexivity|].
  cbn. rewrite IH by (cbn in H; lia). reflexivity.
Qed.

Lemma flatten_tscale (a : R) (t : tensor) :
  flatten (tscale a t) = vscale a (flatten t).
Proof.
  induction t as [x|t0 IH0 t1 IH1]; [reflexivity|].
  cbn [tscale flatten]. rewrite IH0, IH1. unfold vscale. now rewrite map_app.
Qed.

Lemma flatten_tadd (n : nat) (s t : tensor) :
  perfect n s -> perfect n t -> flatten (tadd s t) = vadd (flatten s) (flatten t).
Proof.
  intros Hs. revert t. induction Hs as [x|n s0 s1 H0 IH0 H1 IH1]; intros t Ht;
    inversion Ht; subst; [reflexivity|].
  cbn [tadd flatten]. rewrite IH0, IH1 by assumption.
  unfold vadd. rewrite zip_with_app; [reflexivity|].
  now rewrite !(length_flatten n).
Qed.

Lemma flatten_tlin2 (n : nat) (a b : R) (s t : tensor) :
  perfect n s -> perfect n t ->
  flatten (tlin2 a b s t) = lin2 a b (flatten s) (flatten t).
Proof.
  intros Hs Ht. unfold tlin2, lin2.
  rewrite (flatten_tadd n) by now apply perfect_tscale.
  now rewrite !flatten_tscale.
Qed.

(** Contracting one 2 x 2 array against every axis is the product with
    their tensor product. *)
Lemma flatten_apply_all (gs : list (matrix R)) (t : tensor) :
  Forall (shaped 2 2) gs -> perfect (length gs) t ->
  flatten (apply_all gs t) = mat_vec (kronecker_product gs) (flatten t).
Proof.
  intros Hgs. revert t. induction Hgs as [|g gs Hg Hgs IH]; intros t Ht.
  - inversion Ht; subst. cbn. f_equal. lra.
  - inversion Ht as [|n t0 t1 H0 H1]; subst.
    destruct (shaped_2_2_eta g Hg) as (a & b & c & d & ->).
    cbn [apply_all flatten entry nth].
    rewrite !(flatten_tlin2 (length gs)) by now apply perfect_apply_all.
    rewrite !IH by assumption.
    rewrite kronecker_product_cons, mat_vec_kron_block; [reflexivity|].
    destruct (shaped_kronecker_product gs Hgs) as [_ F].
    now rewrite (length_flatten (length gs)).
Qed.

Lemma tlin2_axis (a b : R) (s0 s1 t0 t1 : tensor) :
  tlin2 a b (Axis s0 s1) (Axis t0 t1) = Axis (tlin2 a b s0 t0) (tlin2 a b s1 t1).
Proof. reflexivity. Qed.

Lemma tlin2_scalar (a b x y : R) :
  tlin2 a b (Scalar x) (Scalar y) = Scalar (a * x + b * y).
Proof. reflexivity. Qed.

Lemma tlin2_interchange (n : nat) (x y a b : R) (s0 s1 t0 t1 : tensor) :
  perfect n s0 -> perfect n s1 -> perfect n t0 -> perfect n t1 ->
  tlin2 x y (tlin2 a b s0 t0) (tlin2 a b s1 t1)
  = tlin2 a b (tlin2 x y s0 s1) (tlin2 x y t0 t1).
Proof.
  intros H. revert s1 t0 t1.
  induction H as [v|n s00 s01 _ IH0 _ IH1]; intros s1 t0 t1 H1 H2 H3;
    inversion H1; inversion H2; inversion H3; subst.
  - rewrite !tlin2_scalar. f_equal. ring.
  - rewrite !tlin2_axis. f_equal; auto.
Qed.

Lemma tlin2_one_zero (n : nat) (u w : tensor) :
  perfect n u -> perfect n w -> tlin2 1 0 u w = u /\ tlin2 0 1 u w = w.
Proof.
  intros H. revert w. induction H as [v|n u0 u1 _ IH0 _ IH1]; intros w Hw;
    inversion Hw; subst.
  - rewrite !tlin2_scalar. split; f_equal; ring.
  - rewrite !tlin2_axis.
    destruct (IH0 t0) as [-> ->]; [assumption|].
    destruct (IH1 t1) as [-> ->]; [assumption|]. now split.
Qed.

Lemma apply_axis_tlin2 (n i : nat) (g : matrix R) (a b : R) (s t : tensor) :
  perfect n s -> perfect n t ->
  apply_axis i g (tlin2 a b s t) = tlin2 a b (apply_axis i g s) (apply_axis i g t).
Proof.
  intros H. revert i t. induction H as [v|n s0 s1 H0 IH0 H1 IH1]; intros i t Ht;
    inversion Ht as [|? t0 t1 G0 G1]; subst.
  - reflexivity.
  - rewrite tlin2_axis. destruct i as [|i]; cbn [apply_axis]; rewrite tlin2_axis.
    + f_equal; now apply (tlin2_interchange n).
    + f_equal; auto.
Qed.

Lemma apply_all_identity (n : nat) (t : tensor) :
  perfect n t -> apply_all (repeat I_gate n) t = t.
Proof.
  induction 1 as [v|n t0 t1 H0 IH0 H1 IH1]; [reflexivity|].
  cbn [repeat apply_all]. rewrite IH0, IH1.
  change (entry I_gate false false) with 1%R. change (entry I_gate false true) with 0%R.
  change (entry I_gate true false) with 0%R. change (entry I_gate true true) with 1%R.
  now destruct (tlin2_one_zero n t0 t1 H0 H1) as [-> ->].
Qed.

(** Contracting [g] against axis [i] after the others: the list of
    arrays has the identity at position [i] before, and [g] after. *)
Lemma apply_axis_apply_all (n i : nat) (g : matrix R) (gs : list (matrix R))
      (t : tensor) :
  perfect n t -> length gs = n -> (i < n)%nat -> nth i gs I_gate = I_gate ->
  apply_axis i g (apply_all gs t) = apply_all (replace_nth i g gs) t.
Proof.
  intros H. revert i gs. induction H as [v|n t0 t1 H0 IH0 H1 IH1];
    intros i gs Hl Hi Hnth; [lia|].
  destruct gs as [|h gs]; [discriminate|]. cbn in Hl.
  destruct i as [|i].
  - cbn in Hnth. subst h. cbn [replace_nth apply_all apply_axis].
    change (entry I_gate false false) with 1%R. change (entry I_gate false true) with 0%R.
    change (entry I_gate true false) with 0%R. change (entry I_gate true true) with 1%R.
    destruct (tlin2_one_zero n (apply_all gs t0) (apply_all gs t1)) as [-> ->];
      auto using perfect_apply_all.
  - cbn [replace_nth apply_all apply_axis].
    rewrite !(apply_axis_tlin2 n) by auto using perfect_apply_all.
    cbn in Hnth. rewrite IH0, IH1 by (auto; lia). reflexivity.
Qed.

(** ** [einsum] on the subscripts of [make_operations] *)

(** The assignment [build] has made when it reaches the entry of
    multi-index [p]. *)
Definition assigned (out : subscripts) (p : list bool) (e : assignment) : assignment :=
  fold_left (fun e cb => assign e (fst cb) (snd cb)) (combine out p) e.

Lemma tensor_get_build (out : subscripts) (f : assignment -> R) (e : assignment)
      (p : list bool) :
  length p = length out ->
  tensor_get (build out f e) p = f (assigned out p e).
Proof.
  revert e p. induction out as [|c out IH]; intros e [|b p] H; try discriminate.
  - reflexivity.
  - cbn [build tensor_get]. unfold assigned. cbn [combine fold_left fst snd].
    destruct b; apply IH; cbn in H; lia.
Qed.

Lemma perfect_build (out : subscripts) (f : assignment -> R) (e : assignment) :
  perfect (length out) (build out f e).
Proof.
  revert e. induction out as [|c out IH]; intros e; cbn; constructor; auto.
Qed.

Lemma assigned_other (out : subscripts) (p : list bool) (e : assignment) (x : nat) :
  ~ In x out -> assigned out p e x = e x.
Proof.
  revert p e. induction out as [|c out IH]; intros [|b p] e H; try reflexivity.
  unfold assigned. cbn [combine fold_left fst snd].
  fold (assigned out p (assign e c b)). rewrite IH by (intros F; apply H; now right).
  unfold assign. destruct (Nat.eqb_spec x c); [|reflexivity].
  subst. exfalso. apply H. now left.
Qed.

Lemma assigned_nth (out : subscripts) (p : list bool) (e : assignment) (k : nat) :
  NoDup out -> length p = length out -> (k < length out)%nat ->
  assigned out p e (nth k out O) = nth k p false.
Proof.
  intros Hnd. revert p e k. induction Hnd as [|c out Hc Hnd IH];
    intros [|b p] e k Hl Hk; cbn in *; try lia.
  unfold assigned. cbn [combine fold_left fst snd].
  fold (assigned out p (assign e c b)). destruct k as [|k].
  - rewrite assigned_other by exact Hc. unfold assign. now rewrite Nat.eqb_refl.
  - apply IH; lia.
Qed.

Lemma tensor_ext (n : nat) (s t : tensor) :
  perfect n s -> perfect n t ->
  (forall p, length p = n -> tensor_get s p = tensor_get t p) -> s = t.
Proof.
  intros Hs. revert t. induction Hs as [x|n s0 s1 H0 IH0 H1 IH1]; intros t Ht H;
    inversion Ht; subst.
  - f_equal. exact (H [] eq_refl).
  - f_equal.
    + apply IH0; [assumption|]. intros p Hp. apply (H (false :: p)). cbn. lia.
    + apply IH1; [assumption|]. intros p Hp. apply (H (true :: p)). cbn. lia.
Qed.

Lemma tensor_get_tlin2 (n : nat) (a b : R) (s t : tensor) (p : list bool) :
  perfect n s -> perfect n t -> length p = n ->
  tensor_get (tlin2 a b s t) p = (a * tensor_get s p + b * tensor_get t p)%R.
Proof.
  intros Hs. revert t p. induction Hs as [x|n s0 s1 H0 IH0 H1 IH1]; intros t p Ht Hp;
    inversion Ht; subst.
  - reflexivity.
  - destruct p as [|c p]; [discriminate|]. rewrite tlin2_axis. cbn [tensor_get].
    destruct c; [apply IH1|apply IH0]; auto.
Qed.

Lemma tensor_get_apply_axis (n i : nat) (g : matrix R) (t : tensor) (p : list bool) :
  perfect n t -> (i < n)%nat -> length p = n ->
  tensor_get (apply_axis i g t) p
  = (entry g (nth i p false) false * tensor_get t (replace_nth i false p)
     + entry g (nth i p false) true * tensor_get t (replace_nth i true p))%R.
Proof.
  intros Ht. revert i p. induction Ht as [x|n t0 t1 H0 IH0 H1 IH1]; intros i p Hi Hp;
    [lia|].
  destruct p as [|c p]; [discriminate|]. cbn in Hp.
  destruct i as [|i].
  - cbn [apply_axis tensor_get nth replace_nth].
    destruct c; now rewrite (tensor_get_tlin2 n) by (auto; lia).
  - cbn [apply_axis tensor_get nth replace_nth].
    destruct c; [apply IH1|apply IH0]; lia.
Qed.

Lemma map_nth_seq {A : Type} (d : A) (p : list A) :
  map (fun k => nth k p d) (seq 0 (length p)) = p.
Proof.
  induction p as [|x p IH]; [reflexivity|].
  cbn [length seq map nth]. rewrite <- seq_shift, map_map. cbn [nth].
  now rewrite IH.
Qed.

Lemma replace_nth_seq {A : Type} (i : nat) (b d : A) (p : list A) :
  replace_nth i b p
  = map (fun k => if Nat.eqb k i then b else nth k p d) (seq 0 (length p)).
Proof.
  revert i. induction p as [|x p IH]; intros i; [now destruct i|].
  cbn [length seq map]. rewrite <- seq_shift, map_map. destruct i as [|i].
  - cbn [replace_nth Nat.eqb nth]. f_equal.
    rewrite <- (map_nth_seq d p) at 1. reflexivity.
  - cbn [replace_nth Nat.eqb nth]. f_equal. apply IH.
Qed.

(** The labels of the qubits, ['b'], ['c'], ..., and the output labels of
    the step on qubit [i]: the label of qubit [i] replaced by ['a']. *)
Definition qubit_labels (n : nat) : subscripts := map (fun k => 98 + k)%nat (seq 0 n).
Definition out_labels (n i : nat) : subscripts :=
  map (fun k => if Nat.eqb k i then 97 else 98 + k)%nat (seq 0 n).

Lemma make_qubits_ein_labels (n : nat) : make_qubits_ein (Z.of_nat n) = qubit_labels n.
Proof. unfold make_qubits_ein, qubit_labels. now rewrite Nat2Z.id. Qed.

Lemma nth_map_seq {A : Type} (f : nat -> A) (n k : nat) (d : A) :
  (k < n)%nat -> nth k (map f (seq 0 n)) d = f k.
Proof.
  intros H. rewrite nth_indep with (d' := f O) by (now rewrite length_map, length_seq).
  rewrite (map_nth f (seq 0 n) O k), seq_nth by lia. reflexivity.
Qed.

Lemma nth_qubit_labels (n i : nat) :
  (i < n)%nat -> nth i (qubit_labels n) O = (98 + i)%nat.
Proof. intros H. unfold qubit_labels. now rewrite nth_map_seq. Qed.

Lemma nth_out_labels (n i k : nat) :
  (k < n)%nat -> nth k (out_labels n i) O = if Nat.eqb k i then 97%nat else (98 + k)%nat.
Proof. intros H. unfold out_labels. now rewrite nth_map_seq. Qed.

Lemma local_step_labels (g : matrix R) (n i : nat) :
  (i < n)%nat ->
  local_step g (qubit_labels n) i = (g, [97; 98 + i]%nat, out_labels n i).
Proof.
  intros H. unfold local_step. rewrite nth_qubit_labels by exact H.
  cbn [last hd]. unfold chr_a. f_equal.
  unfold replace, qubit_labels, out_labels. rewrite map_map.
  apply map_ext. intros k.
  destruct (Nat.eqb_spec (98 + k) (98 + i)), (Nat.eqb_spec k i); try lia; reflexivity.
Qed.

Lemma mem_In (c : nat) (l : subscripts) : mem c l = true <-> In c l.
Proof.
  unfold mem. rewrite existsb_exists. split.
  - intros (x & Hx & E). apply Nat.eqb_eq in E. now subst.
  - intros H. exists c. split; [exact H|apply Nat.eqb_refl].
Qed.

Lemma nodupb_NoDup (l : subscripts) : NoDup l -> nodupb l = true.
Proof.
  induction 1 as [|c l Hc _ IH]; [reflexivity|].
  cbn. rewrite IH, andb_true_r. apply negb_true_iff.
  destruct (mem c l) eqn:E; [|reflexivity].
  apply mem_In in E. contradiction.
Qed.

Lemma NoDup_out_labels (n i : nat) : NoDup (out_labels n i).
Proof.
  unfold out_labels. apply NoDup_map_NoDup_ForallPairs; [|apply seq_NoDup].
  intros x y _ _. cbn beta.
  destruct (Nat.eqb_spec x i), (Nat.eqb_spec y i); lia.
Qed.

Lemma In_out_labels (n i c : nat) :
  In c (out_labels n i)
  <-> (c = 97%nat /\ (i < n)%nat) \/ (exists k, (k < n)%nat /\ k <> i /\ c = (98 + k)%nat).
Proof.
  unfold out_labels. rewrite in_map_iff. split.
  - intros (k & E & Hk). apply in_seq in Hk.
    destruct (Nat.eqb_spec k i); [left; split; lia|right; exists k; lia].
  - intros [[-> H]|(k & Hk & Hne & ->)].
    + exists i. rewrite Nat.eqb_refl. split; [reflexivity|apply in_seq; lia].
    + exists k. destruct (Nat.eqb_spec k i); [lia|]. split; [reflexivity|apply in_seq; lia].
Qed.

Lemma letters_qubit_labels (n : nat) :
  (n <= 25)%nat -> forallb is_letter (qubit_labels n) = true.
Proof.
  intros H. apply forallb_forall. intros c Hc.
  apply in_map_iff in Hc. destruct Hc as (k & <- & Hk). apply in_seq in Hk.
  unfold is_letter. apply orb_true_iff. right.
  apply andb_true_iff. split; apply Nat.leb_le; lia.
Qed.

Lemma letters_out_labels (n i : nat) :
  (n <= 25)%nat -> forallb is_letter (out_labels n i) = true.
Proof.
  intros H. apply forallb_forall. intros c Hc.
  apply In_out_labels in Hc. destruct Hc as [[-> _]|(k & Hk & _ & ->)].
  - reflexivity.
  - unfold is_letter. apply orb_true_iff. right.
    apply andb_true_iff. split; apply Nat.leb_le; lia.
Qed.

Lemma filter_eqb_seq (i s n : nat) :
  filter (fun k => Nat.eqb k i) (seq s n)
  = if Nat.leb s i && Nat.ltb i (s + n) then [i] else [].
Proof.
  revert s. induction n as [|n IH]; intros s.
  - cbn [seq filter].
    destruct (Nat.leb_spec s i), (Nat.ltb_spec i (s + 0)); try reflexivity; lia.
  - cbn [seq filter]. rewrite IH.
    destruct (Nat.eqb_spec s i) as [->|Hne].
    + replace (Nat.leb (S i) i) with false by (symmetry; apply Nat.leb_gt; lia).
      rewrite Nat.leb_refl.
      replace (Nat.ltb i (i + S n)) with true by (symmetry; apply Nat.ltb_lt; lia).
      reflexivity.
    + destruct (Nat.leb_spec (S s) i), (Nat.leb_spec s i),
        (Nat.ltb_spec i (S s + n)), (Nat.ltb_spec i (s + S n)); try reflexivity; lia.
Qed.

Lemma summed_labels (n i : nat) :
  (i < n)%nat ->
  dedup (filter (fun c => negb (mem c (out_labels n i)))
                ([97; 98 + i]%nat ++ qubit_labels n))
  = [(98 + i)%nat].
Proof.
  intros H.
  assert (Ha : mem 97 (out_labels n i) = true)
    by (apply mem_In, In_out_labels; left; lia).
  assert (Hq : mem (98 + i) (out_labels n i) = false).
  { destruct (mem (98 + i) (out_labels n i)) eqn:E; [|reflexivity].
    apply mem_In, In_out_labels in E. destruct E as [[? _]|(k & ? & ? & ?)]; lia. }
  cbn [app filter]. rewrite Ha, Hq. cbn [negb].
  unfold qubit_labels at 1. rewrite filter_map_swap.
  rewrite (filter_ext_in _ (fun k => Nat.eqb k i)).
  - rewrite filter_eqb_seq. cbn [Nat.leb andb].
    replace (Nat.ltb i (0 + n)) with true by (symmetry; apply Nat.ltb_lt; lia).
    cbn. now rewrite Nat.eqb_refl.
  - intros k Hk. apply in_seq in Hk. destruct (Nat.eqb_spec k i) as [->|Hne].
    + now rewrite Hq.
    + apply negb_false_iff, mem_In, In_out_labels. right. exists k. lia.
Qed.

Lemma length_out_labels (n i : nat) : length (out_labels n i) = n.
Proof. unfold out_labels. now rewrite length_map, length_seq. Qed.

Lemma length_qubit_labels (n : nat) : length (qubit_labels n) = n.
Proof. unfold qubit_labels. now rewrite length_map, length_seq. Qed.

(** [np.einsum('ax, bc...x... -> bc...a...', g, t)] contracts [g] against
    axis [i], the axis of label [x]. numpy takes letters only as labels,
    which bounds the number of qubits by 25. *)
Lemma einsum_local_step (n i : nat) (g : matrix R) (t : tensor) :
  (n <= 25)%nat -> (i < n)%nat -> perfect n t ->
  einsum [97; 98 + i]%nat (qubit_labels n) (out_labels n i) g t
  = Ok (apply_axis i g t).
Proof.
  intros Hn Hi Ht. unfold einsum.
  assert (L1 : forallb is_letter ([97; 98 + i]%nat ++ qubit_labels n ++ out_labels n i) = true).
  { rewrite !forallb_app, letters_qubit_labels, letters_out_labels by exact Hn.
    cbn [forallb]. rewrite !andb_true_r. unfold is_letter.
    apply orb_true_iff. right. apply andb_true_iff. split; apply Nat.leb_le; lia. }
  rewrite L1. cbn [negb].
  rewrite length_qubit_labels, (perfect_rank n t Ht).
  cbn [length Nat.eqb andb negb]. rewrite !Nat.eqb_refl. cbn [andb negb].
  assert (L2 : forallb (fun c => mem c ([97; 98 + i]%nat ++ qubit_labels n))
                       (out_labels n i) = true).
  { apply forallb_forall. intros c Hc. apply mem_In.
    apply In_out_labels in Hc. destruct Hc as [[-> _]|(k & Hk & _ & ->)].
    - now left.
    - right. right. apply in_map_iff. exists k. split; [reflexivity|apply in_seq; lia]. }
  rewrite (nodupb_NoDup _ (NoDup_out_labels n i)), L2. cbn [andb negb].
  f_equal. rewrite summed_labels by exact Hi.
  apply (tensor_ext n).
  - rewrite <- (length_out_labels n i) at 1. apply perfect_build.
  - now apply perfect_apply_axis.
  - intros p Hp.
    rewrite tensor_get_build by (now rewrite length_out_labels).
    rewrite (tensor_get_apply_axis n) by assumption.
    cbn [sum_over nth].
    set (e := assigned (out_labels n i) p (fun _ => false)).
    assert (Ea : forall b, assign e (98 + i)%nat b 97%nat = nth i p false).
    { intros b. unfold assign. cbn [Nat.eqb]. unfold e.
      rewrite <- (assigned_nth (out_labels n i) p (fun _ => false) i);
        rewrite ?length_out_labels; auto using NoDup_out_labels.
      rewrite nth_out_labels, Nat.eqb_refl by exact Hi. reflexivity. }
    assert (Ei : forall b, assign e (98 + i)%nat b (98 + i)%nat = b).
    { intros b. unfold assign. now rewrite Nat.eqb_refl. }
    assert (Em : forall b, map (assign e (98 + i)%nat b) (qubit_labels n)
                           = replace_nth i b p).
    { intros b. rewrite (replace_nth_seq i b false p), Hp.
      unfold qubit_labels. rewrite map_map. apply map_ext_in. intros k Hk.
      apply in_seq in Hk. unfold assign.
      destruct (Nat.eqb_spec (98 + k) (98 + i)), (Nat.eqb_spec k i); try lia;
        [reflexivity|].
      unfold e.
      rewrite <- (assigned_nth (out_labels n i) p (fun _ => false) k);
        rewrite ?length_out_labels; auto using NoDup_out_labels; try lia.
      rewrite nth_out_labels by lia.
      destruct (Nat.eqb_spec k i); [lia|reflexivity]. }
    now rewrite !Ea, !Ei, !Em.
Qed.

(** ** The local steps of the tensor engine, one after the other *)

Section LocalSteps.
Variable n : nat.
Variable gate_of : nat -> matrix R.

(** The arrays contracted so far, by axis: [gate_of j] on the axes of
    [done], the identity on the others. *)
Definition contracted (done : list nat) : list (matrix R) :=
  map (fun j => if mem j done then gate_of j else I_gate) (seq 0 n).

Lemma length_contracted (done : list nat) : length (contracted done) = n.
Proof. unfold contracted. now rewrite length_map, length_seq. Qed.

Lemma contracted_cons (p : nat) (done : list nat) :
  replace_nth p (gate_of p) (contracted done) = contracted (p :: done).
Proof.
  rewrite (replace_nth_seq p (gate_of p) I_gate), length_contracted.
  unfold contracted. apply map_ext_in. intros k Hk. apply in_seq in Hk.
  rewrite nth_map_seq by lia. unfold mem. cbn [existsb].
  destruct (Nat.eqb_spec k p) as [->|Hne]; reflexivity.
Qed.

Lemma contracted_ext (d1 d2 : list nat) :
  (forall j, mem j d1 = mem j d2) -> contracted d1 = contracted d2.
Proof. intros H. unfold contracted. apply map_ext. intros j. now rewrite H. Qed.

Lemma set_state_twice (a b : state_val) (self : simulator) :
  set_state a (set_state b self) = set_state a self.
Proof. reflexivity. Qed.

Lemma einsum_loop_positions (t : tensor) (ps done : list nat) (self : simulator) :
  (n <= 25)%nat -> perfect n t -> NoDup ps ->
  (forall p, In p ps -> (p < n)%nat /\ ~ In p done) ->
  self_state self = StTensor (apply_all (contracted done) t) ->
  einsum_loop (map (fun p => local_step (gate_of p) (qubit_labels n) p) ps)
              (qubit_labels n) self
  = (Ok tt, set_state (StTensor (apply_all (contracted (ps ++ done)) t)) self).
Proof.
  intros Hn Ht Hnd. revert done self.
  induction Hnd as [|p ps Hp Hnd IH]; intros done self Hps Hst.
  - cbn. rewrite <- Hst. now rewrite set_state_same.
  - cbn [map einsum_loop].
    destruct (Hps p (or_introl eq_refl)) as [Hpn Hpd].
    rewrite local_step_labels by exact Hpn.
    rewrite bind_get, Hst.
    rewrite einsum_local_step by (auto using perfect_apply_all).
    rewrite bind_lift_ok.
    rewrite (apply_axis_apply_all n); auto using length_contracted.
    + rewrite contracted_cons. unfold bind, put_state.
      rewrite (IH (p :: done)).
      * rewrite set_state_twice. do 4 f_equal. apply contracted_ext.
        intros j. unfold mem. cbn [app existsb]. rewrite !existsb_app. cbn [existsb].
        now destruct (Nat.eqb j p), (existsb (Nat.eqb j) ps).
      * intros q Hq. destruct (Hps q (or_intror Hq)) as [Hqn Hqd]. split; [exact Hqn|].
        intros [->|F]; [contradiction|contradiction].
      * reflexivity.
    + unfold contracted. rewrite nth_map_seq by exact Hpn.
      destruct (mem p done) eqn:E; [|reflexivity].
      apply mem_In in E. contradiction.
Qed.
End LocalSteps.

(** ** Products of 2-D arrays *)

Section Products.
Context {A : Type} {N : Num A} {L : NumLaws A}.

Add Ring num_ring_products : (num_ring (A:=A)).

Lemma dot_map_zero {X : Type} (a : list A) (l : list X) :
  dot a (map (fun _ => zero) l) = zero.
Proof.
  revert l. induction a as [|x a IH]; intros [|y l]; try reflexivity.
  cbn [map]. rewrite dot_cons, IH. ring.
Qed.

Lemma dot_map_add {X : Type} (f g : X -> A) (a : list A) (l : list X) :
  dot a (map (fun x => add (f x) (g x)) l)
  = add (dot a (map f l)) (dot a (map g l)).
Proof.
  revert l. induction a as [|x a IH]; intros [|y l]; cbn [map];
    rewrite ?dot_nil_r; try (unfold dot; cbn; ring).
  rewrite !dot_cons, IH. ring.
Qed.

Lemma dot_map_mul_r {X : Type} (f : X -> A) (y : A) (a : list A) (l : list X) :
  dot a (map (fun x => mul (f x) y) l) = mul (dot a (map f l)) y.
Proof.
  revert l. induction a as [|x a IH]; intros [|z l]; cbn [map];
    rewrite ?dot_nil_r; try (unfold dot; cbn; ring).
  rewrite !dot_cons, IH. ring.
Qed.

Lemma length_transpose_aux (k : nat) (M : matrix A) : length (transpose_aux k M) = k.
Proof. revert M. induction k as [|k IH]; intros M; cbn; auto. Qed.

(** [(a B) . v = a . (B v)] *)
Lemma dot_transpose (c : nat) (B : matrix A) (a v : list A) :
  Forall (fun row => length row = c) B -> length v = c ->
  dot (map (dot a) (transpose_aux c B)) v = dot a (mat_vec B v).
Proof.
  revert B v. induction c as [|c IH]; intros B v HB Hv.
  - destruct v; [|discriminate]. cbn [transpose_aux map]. unfold mat_vec.
    rewrite (map_ext _ (fun _ => zero)) by (intros; apply dot_nil_r).
    now rewrite dot_map_zero.
  - destruct v as [|y v]; [discriminate|]. cbn [transpose_aux map].
    rewrite dot_cons, IH.
    + unfold mat_vec.
      rewrite (map_ext_in (fun row => dot row (y :: v))
                 (fun row => add (mul (hd zero row) y) (dot (tl row) v))).
      * rewrite dot_map_add, dot_map_mul_r, map_map. reflexivity.
      * intros row Hrow. rewrite Forall_forall in HB. specialize (HB row Hrow).
        destruct row; [discriminate|]. reflexivity.
    + apply Forall_map. eapply Forall_impl; [|exact HB].
      intros row Hrow. destruct row; [discriminate|]. cbn in *. lia.
    + cbn in Hv. lia.
Qed.

Lemma mat_vec_mmul (r c : nat) (M P : matrix A) (v : list A) :
  shaped (S r) c P -> length v = c ->
  mat_vec (mmul M P) v = mat_vec M (mat_vec P v).
Proof.
  intros HP Hv. unfold mmul, mat_vec at 1 2. rewrite map_map.
  apply map_ext. intros ra. unfold transpose. rewrite (shaped_cols _ _ _ HP).
  apply dot_transpose; [apply HP|exact Hv].
Qed.

Lemma shaped_mmul (r k c : nat) (M P : matrix A) :
  length M = r -> shaped (S k) c P -> shaped r c (mmul M P).
Proof.
  intros HM HP. split.
  - unfold mmul. now rewrite length_map.
  - unfold mmul. apply Forall_map, Forall_forall. intros ra _.
    rewrite length_map. unfold transpose.
    now rewrite length_transpose_aux, (shaped_cols _ _ _ HP).
Qed.
End Products.

(** ** One round of each engine *)

(** The operator of [CX] for control [c] and target [t] among [n] qubits. *)
Definition CX_matrix (n c t : nat) : matrix R :=
  madd (kronecker_product (zero_args n (n - 1 - c)))
       (kronecker_product (one_args n (n - 1 - c) (n - 1 - t))).

(** The local gates of a round, qubit by qubit: Hadamard on the first
    half, Pauli-X on the second, the identity on the qubit left over when
    [n] is odd. *)
Definition local_gates (n : nat) : list (matrix R) :=
  repeat H_gate (n / 2) ++ repeat X_gate (n / 2) ++ repeat I_gate (n - 2 * (n / 2)).

Lemma half_nat (n : nat) : Z.to_nat (Z.of_nat n / 2) = (n / 2)%nat.
Proof.
  change 2%Z with (Z.of_nat 2). now rewrite <- Nat2Z.inj_div, Nat2Z.id.
Qed.

Lemma odd_rest (n : nat) : (n - 2 * (n / 2) = n mod 2)%nat.
Proof. pose proof (Nat.div_mod_eq n 2). lia. Qed.

Lemma SV_operations_list_nat (n : nat) :
  SV_operations_list (Z.of_nat n) = local_gates n.
Proof.
  unfold SV_operations_list, local_gates. rewrite half_nat.
  rewrite length_app, !repeat_length, odd_rest.
  pose proof (Nat.div_mod_eq n 2) as E.
  pose proof (Nat.mod_upper_bound n 2 ltac:(lia)) as B.
  destruct (Z.ltb_spec (Z.of_nat (n / 2 + n / 2)) (Z.of_nat n)) as [H|H].
  - replace (n mod 2)%nat with 1%nat by lia. now rewrite <- app_assoc.
  - replace (n mod 2)%nat with 0%nat by lia. cbn [repeat]. now rewrite !app_nil_r.
Qed.

Lemma length_local_gates (n : nat) : length (local_gates n) = n.
Proof.
  unfold local_gates. rewrite !length_app, !repeat_length.
  pose proof (Nat.div_mod_eq n 2). lia.
Qed.

Lemma shaped_local_gates (n : nat) : Forall (shaped 2 2) (local_gates n).
Proof.
  unfold local_gates. rewrite !Forall_app. repeat split;
    apply Forall_forall; intros M HM; apply repeat_spec in HM; subst;
    auto using shaped_H_gate, shaped_X_gate, shaped_I_gate.
Qed.

Lemma shaped_local_product (n : nat) :
  shaped (2 ^ n) (2 ^ n) (kronecker_product (local_gates n)).
Proof.
  pose proof (shaped_kronecker_product _ (shaped_local_gates n)) as H.
  now rewrite length_local_gates in H.
Qed.

Lemma bind_ok {S A B : Type} (c : M S A) (k : A -> M S B) (s s' : S) (a : A) :
  c s = (Ok a, s') -> bind c k s = k a s'.
Proof. intros H. unfold bind. now rewrite H. Qed.

Lemma bind_unfinished {S A B : Type} (c : M S A) (k : A -> M S B) (s s' : S) :
  c s = (Unfinished, s') -> bind c k s = (Unfinished, s').
Proof. intros H. unfold bind. now rewrite H. Qed.

Lemma on_self_eq (G : Generator) {A : Type} (c : M simulator A) (g : gen G)
      (self self' : simulator) (r : result A) :
  c self = (r, self') -> on_self G c (g, self) = (r, (g, self')).
Proof. intros H. unfold on_self. cbn. now rewrite H. Qed.

Lemma on_rng_eq (G : Generator) {A : Type} (c : M (gen G) A) (g g' : gen G)
      (self : simulator) (r : result A) :
  c g = (r, g') -> on_rng G c (g, self) = (r, (g', self)).
Proof. intros H. unfold on_rng. cbn. now rewrite H. Qed.

Lemma np_random_randint_ok (G : Generator) (lo hi : Z) (g : gen G) :
  (lo < hi)%Z ->
  np_random_randint G lo hi g
  = (Ok (fst (randint_gen G lo hi g)), snd (randint_gen G lo hi g)).
Proof.
  intros H. unfold np_random_randint.
  replace (lo <? hi)%Z with true by (symmetry; apply Z.ltb_lt; lia).
  now destruct (randint_gen G lo hi g).
Qed.

(** The [while] loop ends with a target that is not the control, unless
    the bound of the model is reached; it never raises. *)
Lemma redraw_target_cases (G : Generator) (fuel : nat) (n control target : Z)
      (g : gen G) :
  (0 <= target < n)%Z ->
  (exists t g', redraw_target G fuel n control target g = (Ok t, g')
                /\ (0 <= t < n)%Z /\ t <> control)
  \/ (exists g', redraw_target G fuel n control target g = (Unfinished, g')).
Proof.
  revert target g. induction fuel as [|fuel IH]; intros target g Ht.
  - cbn. destruct (Z.eqb_spec target control).
    + right. now exists g.
    + left. exists target, g. auto.
  - cbn [redraw_target]. destruct (Z.eqb_spec target control).
    + assert (Hn : (0 < n)%Z) by lia.
      rewrite (bind_ok _ _ _ _ _ (np_random_randint_ok G 0 n g Hn)).
      apply IH. apply (randint_range G 0 n g Hn).
    + left. exists target, g. auto.
Qed.

Lemma draw_control_target_cases (G : Generator) (fuel : nat) (n : Z) (g : gen G) :
  (0 < n)%Z ->
  (exists c t g', draw_control_target G fuel n g = (Ok (c, t), g')
                  /\ (0 <= c < n)%Z /\ (0 <= t < n)%Z /\ c <> t)
  \/ (exists g', draw_control_target G fuel n g = (Unfinished, g')).
Proof.
  intros Hn. unfold draw_control_target.
  rewrite (bind_ok _ _ _ _ _ (np_random_randint_ok G 0 n g Hn)).
  pose proof (randint_range G 0 n g Hn) as Rc.
  set (c := fst (randint_gen G 0 n g)) in *.
  set (g1 := snd (randint_gen G 0 n g)) in *.
  rewrite (bind_ok _ _ _ _ _ (np_random_randint_ok G 0 n g1 Hn)).
  pose proof (randint_range G 0 n g1 Hn) as Rt.
  set (t := fst (randint_gen G 0 n g1)) in *.
  set (g2 := snd (randint_gen G 0 n g1)) in *.
  destruct (redraw_target_cases G fuel n c t g2 Rt)
    as [(t' & g3 & E & Ht' & Hne)|(g3 & E)].
  - left. exists c, t', g3. rewrite (bind_ok _ _ _ _ _ E). auto.
  - right. exists g3. now rewrite (bind_unfinished _ _ _ _ E).
Qed.

Lemma matmul_square (n : nat) (M P : matrix R) :
  shaped (2 ^ n) (2 ^ n) M -> shaped (2 ^ n) (2 ^ n) P ->
  matmul M P = Ok (mmul M P).
Proof.
  intros HM HP. destruct (pow2_pos n) as [k Hk]. rewrite Hk in *.
  unfold matmul. rewrite (shaped_cols _ _ _ HM).
  destruct HP as [HP _]. unfold rows. now rewrite HP, Nat.eqb_refl.
Qed.

(** [CX @ operations @ self.state] on a column of the right length. *)
Lemma SV_apply_operations_value (n : nat) (ops cx : matrix R) (v : list R)
      (self : simulator) :
  shaped (2 ^ n) (2 ^ n) ops -> shaped (2 ^ n) (2 ^ n) cx ->
  self_state self = StMatrix (col v) -> length v = (2 ^ n)%nat ->
  SV_apply_operations ops cx self
  = (Ok tt, set_state (StMatrix (col (mat_vec cx (mat_vec ops v)))) self).
Proof.
  intros Hops Hcx Hst Hv. unfold SV_apply_operations.
  rewrite bind_get, Hst, (matmul_square n) by assumption.
  rewrite bind_lift_ok.
  destruct (pow2_pos n) as [k Hk].
  assert (Hco : shaped (2 ^ n) (2 ^ n) (mmul cx ops)).
  { rewrite Hk in *. eapply shaped_mmul; [apply Hcx|exact Hops]. }
  rewrite (matmul_col n) by assumption.
  rewrite bind_lift_ok. unfold put_state. do 4 f_equal.
  rewrite Hk in *. now apply (mat_vec_mmul k (S k)).
Qed.

Lemma shaped_CX_matrix_nat (n c t : nat) : shaped (2 ^ n) (2 ^ n) (CX_matrix n c t).
Proof. apply shaped_CX_matrix. Qed.

Lemma CX_value_nat (self : simulator) (n : nat) (c t : Z) :
  self_n self = Z.of_nat n ->
  (0 <= c < Z.of_nat n)%Z -> (0 <= t < Z.of_nat n)%Z -> c <> t ->
  CX c t self = (Ok (CX_matrix n (Z.to_nat c) (Z.to_nat t)), self).
Proof.
  intros Hn Hc Ht Hne. rewrite CX_value by (rewrite ?Hn; auto).
  rewrite Hn, Nat2Z.id. reflexivity.
Qed.

Lemma make_operations_not_small (n : nat) : (2 <= n)%nat -> (Z.of_nat n <? 2)%Z = false.
Proof. intros H. apply Z.ltb_ge. lia. Qed.

Lemma SV_make_operations_value (G : Generator) (fuel n : nat) (g g' : gen G)
      (self : simulator) (c t : Z) :
  self_n self = Z.of_nat n -> (2 <= n)%nat ->
  draw_control_target G fuel (Z.of_nat n) g = (Ok (c, t), g') ->
  (0 <= c < Z.of_nat n)%Z -> (0 <= t < Z.of_nat n)%Z -> c <> t ->
  SV_make_operations G fuel (g, self)
  = (Ok (kronecker_product (local_gates n), CX_matrix n (Z.to_nat c) (Z.to_nat t)),
     (g', self)).
Proof.
  intros Hn H2 Hd Hc Ht Hne. unfold SV_make_operations.
  rewrite (bind_ok _ _ _ _ _ (on_self_eq G get g self self (Ok self) eq_refl)).
  rewrite Hn, make_operations_not_small by exact H2.
  rewrite (bind_ok _ _ _ _ _ (on_rng_eq G _ g g' self _ Hd)).
  cbn [fst snd].
  rewrite (bind_ok _ _ _ _ _
             (on_self_eq G _ g' self self _ (CX_value_nat self n c t Hn Hc Ht Hne))).
  now rewrite SV_operations_list_nat.
Qed.

Lemma SV_make_operations_unfinished (G : Generator) (fuel n : nat) (g g' : gen G)
      (self : simulator) :
  self_n self = Z.of_nat n -> (2 <= n)%nat ->
  draw_control_target G fuel (Z.of_nat n) g = (Unfinished, g') ->
  SV_make_operations G fuel (g, self) = (Unfinished, (g', self)).
Proof.
  intros Hn H2 Hd. unfold SV_make_operations.
  rewrite (bind_ok _ _ _ _ _ (on_self_eq G get g self self (Ok self) eq_refl)).
  rewrite Hn, make_operations_not_small by exact H2.
  apply bind_unfinished. now apply on_rng_eq.
Qed.

Lemma SV_make_operations_single (G : Generator) (fuel : nat) (g : gen G)
      (self : simulator) :
  self_n self = 1%Z ->
  SV_make_operations G fuel (g, self) = (Ok (H_gate, I_gate), (g, self)).
Proof.
  intros Hn. unfold SV_make_operations.
  rewrite (bind_ok _ _ _ _ _ (on_self_eq G get g self self (Ok self) eq_refl)).
  now rewrite Hn.
Qed.

(** One round of the state-vector engine on [n >= 2] qubits, for the
    control and target that the generator gives. *)
Lemma SV_round_value (G : Generator) (fuel n : nat) (g g' : gen G) (self : simulator)
      (v : list R) (c t : Z) :
  self_n self = Z.of_nat n -> (2 <= n)%nat ->
  self_state self = StMatrix (col v) -> length v = (2 ^ n)%nat ->
  draw_control_target G fuel (Z.of_nat n) g = (Ok (c, t), g') ->
  (0 <= c < Z.of_nat n)%Z -> (0 <= t < Z.of_nat n)%Z -> c <> t ->
  SV_round G fuel (g, self)
  = (Ok tt,
     (g', set_state
            (StMatrix (col (mat_vec (CX_matrix n (Z.to_nat c) (Z.to_nat t))
                                    (mat_vec (kronecker_product (local_gates n)) v))))
            self)).
Proof.
  intros Hn H2 Hst Hv Hd Hc Ht Hne. unfold SV_round.
  rewrite (bind_ok _ _ _ _ _ (SV_make_operations_value G fuel n g g' self c t
                                Hn H2 Hd Hc Ht Hne)).
  cbn [fst snd]. apply on_self_eq.
  apply (SV_apply_operations_value n);
    auto using shaped_local_product, shaped_CX_matrix_nat.
Qed.

Lemma SV_round_unfinished (G : Generator) (fuel n : nat) (g g' : gen G)
      (self : simulator) :
  self_n self = Z.of_nat n -> (2 <= n)%nat ->
  draw_control_target G fuel (Z.of_nat n) g = (Unfinished, g') ->
  SV_round G fuel (g, self) = (Unfinished, (g', self)).
Proof.
  intros Hn H2 Hd. unfold SV_round. apply bind_unfinished.
  now apply (SV_make_operations_unfinished G fuel n).
Qed.

Lemma shaped_I_H : shaped (2 ^ 1) (2 ^ 1) I_gate /\ shaped (2 ^ 1) (2 ^ 1) H_gate.
Proof. split; [apply shaped_I_gate|apply shaped_H_gate]. Qed.

(** One round of the state-vector engine on a single qubit: no
    controlled gate, no random draw. *)
Lemma SV_round_single (G : Generator) (fuel : nat) (g : gen G) (self : simulator)
      (v : list R) :
  self_n self = 1%Z -> self_state self = StMatrix (col v) -> length v = 2%nat ->
  SV_round G fuel (g, self)
  = (Ok tt, (g, set_state (StMatrix (col (mat_vec I_gate (mat_vec H_gate v)))) self)).
Proof.
  intros Hn Hst Hv. unfold SV_round.
  rewrite (bind_ok _ _ _ _ _ (SV_make_operations_single G fuel g self Hn)).
  cbn [fst snd]. apply on_self_eq.
  apply (SV_apply_operations_value 1); auto; apply shaped_I_H.
Qed.

Lemma nth_repeat_lt {A : Type} (a d : A) (m i : nat) :
  (i < m)%nat -> nth i (repeat a m) d = a.
Proof.
  revert i. induction m as [|m IH]; intros [|i] H; cbn; try lia; auto.
  apply IH. lia.
Qed.

Lemma map_seq_shift {A : Type} (f : nat -> A) (s m : nat) :
  map f (seq s m) = map (fun i => f (i + s)%nat) (seq 0 m).
Proof.
  revert s. induction m as [|m IH]; intros s; [reflexivity|].
  cbn [seq map]. f_equal. rewrite (IH (S s)), <- seq_shift, map_map.
  apply map_ext. intros i. f_equal. lia.
Qed.

Lemma map_const_seq {A : Type} (a : A) (s n : nat) :
  map (fun _ => a) (seq s n) = repeat a n.
Proof. revert s. induction n as [|n IH]; intros s; cbn; auto. now rewrite IH. Qed.

(** The gate that a round applies to qubit [p]. *)
Definition gate_at (n p : nat) : matrix R := nth p (local_gates n) I_gate.

Lemma gate_at_H (n p : nat) : (p < n / 2)%nat -> gate_at n p = H_gate.
Proof.
  intros H. unfold gate_at, local_gates.
  rewrite app_nth1 by (now rewrite repeat_length). now apply nth_repeat_lt.
Qed.

Lemma gate_at_X (n p : nat) :
  (n / 2 <= p < 2 * (n / 2))%nat -> gate_at n p = X_gate.
Proof.
  intros H. unfold gate_at, local_gates.
  rewrite app_nth2, repeat_length by (rewrite repeat_length; lia).
  rewrite app_nth1 by (rewrite repeat_length; lia).
  apply nth_repeat_lt. lia.
Qed.

Lemma gate_at_I (n p : nat) : (2 * (n / 2) <= p)%nat -> gate_at n p = I_gate.
Proof.
  intros H. unfold gate_at, local_gates.
  rewrite app_nth2, repeat_length by (rewrite repeat_length; lia).
  rewrite app_nth2, repeat_length by (rewrite repeat_length; lia).
  destruct (Nat.lt_ge_cases (p - n / 2 - n / 2) (n - 2 * (n / 2))).
  - now apply nth_repeat_lt.
  - apply nth_overflow. now rewrite repeat_length.
Qed.

Lemma Tensor_operations_list_nat (n : nat) :
  Tensor_operations_list (Z.of_nat n) (qubit_labels n)
  = map (fun p => local_step (gate_at n p) (qubit_labels n) p) (seq 0 (2 * (n / 2))).
Proof.
  unfold Tensor_operations_list. rewrite half_nat.
  replace (2 * (n / 2))%nat with (n / 2 + n / 2)%nat by lia.
  rewrite seq_app, map_app. f_equal.
  - apply map_ext_in. intros p Hp. apply in_seq in Hp.
    rewrite gate_at_H by lia. reflexivity.
  - cbn [Nat.add]. rewrite (map_seq_shift _ (n / 2)).
    apply map_ext_in. intros p Hp. apply in_seq in Hp.
    rewrite gate_at_X by lia. reflexivity.
Qed.

Lemma contracted_all (n : nat) :
  contracted n (gate_at n) (rev (seq 0 (2 * (n / 2))) ++ []) = local_gates n.
Proof.
  rewrite <- (map_nth_seq I_gate (local_gates n)), length_local_gates.
  unfold contracted. apply map_ext_in. intros j Hj. apply in_seq in Hj.
  fold (gate_at n j).
  destruct (mem j (rev (seq 0 (2 * (n / 2))) ++ [])) eqn:E; [reflexivity|].
  symmetry. apply gate_at_I.
  destruct (Nat.lt_ge_cases j (2 * (n / 2))) as [Hlt|Hge]; [|exact Hge].
  exfalso. assert (In j (rev (seq 0 (2 * (n / 2))) ++ [])).
  { rewrite app_nil_r. apply in_rev. rewrite rev_involutive. apply in_seq. lia. }
  apply mem_In in H. congruence.
Qed.

Lemma contracted_none (n : nat) : contracted n (gate_at n) [] = repeat I_gate n.
Proof. unfold contracted. cbn [mem existsb]. apply map_const_seq. Qed.

(** The loop of [apply_operations] over the reversed list of local steps
    contracts every local gate against its axis. *)
Lemma einsum_loop_round (n : nat) (u : tensor) (self : simulator) :
  (n <= 25)%nat -> perfect n u -> self_state self = StTensor u ->
  einsum_loop (rev (Tensor_operations_list (Z.of_nat n) (qubit_labels n)))
              (qubit_labels n) self
  = (Ok tt, set_state (StTensor (apply_all (local_gates n) u)) self).
Proof.
  intros Hn Hu Hst. rewrite Tensor_operations_list_nat, <- map_rev.
  rewrite (einsum_loop_positions n (gate_at n) u _ []); auto.
  - now rewrite contracted_all.
  - apply NoDup_rev, seq_NoDup.
  - intros p Hp. apply in_rev in Hp. apply in_seq in Hp.
    pose proof (Nat.div_mod_eq n 2). split; [lia|intros []].
  - now rewrite contracted_none, apply_all_identity.
Qed.

Lemma flatten_reshape_aux (n : nat) (w : list R) :
  length w = (2 ^ n)%nat ->
  flatten (reshape_aux n w) = w /\ perfect n (reshape_aux n w).
Proof.
  revert w. induction n as [|n IH]; intros w Hw.
  - destruct w as [|x [|y w]]; try discriminate. split; [reflexivity|constructor].
  - rewrite Nat.pow_succ_r' in Hw. cbn [reshape_aux flatten].
    destruct (IH (firstn (2 ^ n) w)) as [F1 P1]; [rewrite length_firstn; lia|].
    destruct (IH (skipn (2 ^ n) w)) as [F2 P2]; [rewrite length_skipn; lia|].
    rewrite F1, F2, firstn_skipn. split; [reflexivity|now constructor].
Qed.

(** The end of [apply_operations]: the product with [CX] on the
    flattened array, and the return to rank [n]. *)
Lemma Tensor_apply_operations_value (n : nat)
      (ops : list (matrix R * subscripts * subscripts)) (cx : matrix R)
      (qs : subscripts) (u u' : tensor) (self : simulator) :
  self_n self = Z.of_nat n -> shaped (2 ^ n) (2 ^ n) cx -> perfect n u' ->
  einsum_loop ops qs self = (Ok tt, set_state (StTensor u') self) ->
  Tensor_apply_operations ops cx qs self
  = (Ok tt, set_state (StTensor (reshape_aux n (mat_vec cx (flatten u')))) self).
Proof.
  intros Hn Hcx Hu' Hloop. unfold Tensor_apply_operations.
  rewrite (bind_ok _ _ _ _ _ Hloop), bind_get. cbn [self_state set_state self_n].
  unfold matmul_vec. destruct (pow2_pos n) as [k Hk].
  assert (Hc : cols cx = (2 ^ n)%nat) by (rewrite Hk in *; now apply (shaped_cols k)).
  rewrite Hc, (length_flatten n u' Hu'), Nat.eqb_refl, bind_lift_ok.
  unfold bind at 1, put_state at 1. cbn [self_state set_state self_n].
  unfold reshape. rewrite length_mat_vec, Hn, Nat2Z.id.
  destruct Hcx as [Hr _]. rewrite Hr, Nat.eqb_refl, bind_lift_ok.
  reflexivity.
Qed.

Lemma Tensor_make_operations_value (G : Generator) (fuel n : nat) (g g' : gen G)
      (self : simulator) (c t : Z) :
  self_n self = Z.of_nat n -> (2 <= n)%nat ->
  draw_control_target G fuel (Z.of_nat n) g = (Ok (c, t), g') ->
  (0 <= c < Z.of_nat n)%Z -> (0 <= t < Z.of_nat n)%Z -> c <> t ->
  Tensor_make_operations G fuel (g, self)
  = (Ok (rev (Tensor_operations_list (Z.of_nat n) (qubit_labels n)),
         CX_matrix n (Z.to_nat c) (Z.to_nat t), qubit_labels n),
     (g', self)).
Proof.
  intros Hn H2 Hd Hc Ht Hne. unfold Tensor_make_operations.
  rewrite (bind_ok _ _ _ _ _ (on_self_eq G get g self self (Ok self) eq_refl)).
  rewrite Hn, make_operations_not_small by exact H2.
  rewrite (bind_ok _ _ _ _ _ (on_rng_eq G _ g g' self _ Hd)).
  cbn [fst snd].
  rewrite (bind_ok _ _ _ _ _
             (on_self_eq G _ g' self self _ (CX_value_nat self n c t Hn Hc Ht Hne))).
  now rewrite make_qubits_ein_labels.
Qed.

Lemma Tensor_make_operations_unfinished (G : Generator) (fuel n : nat) (g g' : gen G)
      (self : simulator) :
  self_n self = Z.of_nat n -> (2 <= n)%nat ->
  draw_control_target G fuel (Z.of_nat n) g = (Unfinished, g') ->
  Tensor_make_operations G fuel (g, self) = (Unfinished, (g', self)).
Proof.
  intros Hn H2 Hd. unfold Tensor_make_operations.
  rewrite (bind_ok _ _ _ _ _ (on_self_eq G get g self self (Ok self) eq_refl)).
  rewrite Hn, make_operations_not_small by exact H2.
  apply bind_unfinished. now apply on_rng_eq.
Qed.

(** One round of the tensor engine on [2 <= n <= 25] qubits, for the
    control and target that the generator gives. *)
Lemma Tensor_round_value (G : Generator) (fuel n : nat) (g g' : gen G)
      (self : simulator) (u : tensor) (c t : Z) :
  self_n self = Z.of_nat n -> (2 <= n <= 25)%nat ->
  self_state self = StTensor u -> perfect n u ->
  draw_control_target G fuel (Z.of_nat n) g = (Ok (c, t), g') ->
  (0 <= c < Z.of_nat n)%Z -> (0 <= t < Z.of_nat n)%Z -> c <> t ->
  Tensor_round G fuel (g, self)
  = (Ok tt,
     (g', set_state
            (StTensor (reshape_aux n
               (mat_vec (CX_matrix n (Z.to_nat c) (Z.to_nat t))
                        (mat_vec (kronecker_product (local_gates n)) (flatten u)))))
            self)).
Proof.
  intros Hn H2 Hst Hu Hd Hc Ht Hne. unfold Tensor_round.
  rewrite (bind_ok _ _ _ _ _ (Tensor_make_operations_value G fuel n g g' self c t
                                Hn ltac:(lia) Hd Hc Ht Hne)).
  cbn [fst snd]. apply on_self_eq.
  rewrite (Tensor_apply_operations_value n _ _ _ u (apply_all (local_gates n) u));
    auto using shaped_CX_matrix_nat, perfect_apply_all.
  - rewrite flatten_apply_all; [reflexivity|apply shaped_local_gates|].
    now rewrite length_local_gates.
  - apply einsum_loop_round; auto. lia.
Qed.

Lemma Tensor_round_unfinished (G : Generator) (fuel n : nat) (g g' : gen G)
      (self : simulator) :
  self_n self = Z.of_nat n -> (2 <= n)%nat ->
  draw_control_target G fuel (Z.of_nat n) g = (Unfinished, g') ->
  Tensor_round G fuel (g, self) = (Unfinished, (g', self)).
Proof.
  intros Hn H2 Hd. unfold Tensor_round. apply bind_unfinished.
  now apply (Tensor_make_operations_unfinished G fuel n).
Qed.

Lemma apply_axis_single (g : matrix R) (u : tensor) :
  shaped 2 2 g -> perfect 1 u -> flatten (apply_axis 0 g u) = mat_vec g (flatten u).
Proof.
  intros Hg Hu.
  rewrite <- (apply_all_identity 1 u Hu) at 1.
  rewrite (apply_axis_apply_all 1) by (auto; reflexivity).
  cbn [repeat replace_nth].
  rewrite flatten_apply_all by (auto; repeat constructor; exact Hg).
  unfold kronecker_product. cbn [fold_left]. now rewrite kron_one_l.
Qed.

Lemma Tensor_make_operations_single (G : Generator) (fuel : nat) (g : gen G)
      (self : simulator) :
  self_n self = 1%Z ->
  Tensor_make_operations G fuel (g, self)
  = (Ok ([(H_gate, [chr_a; 98%nat], [chr_a])], I_gate, make_qubits_ein 1), (g, self)).
Proof.
  intros Hn. unfold Tensor_make_operations.
  rewrite (bind_ok _ _ _ _ _ (on_self_eq G get g self self (Ok self) eq_refl)).
  now rewrite Hn.
Qed.

(** One round of the tensor engine on a single qubit. *)
Lemma Tensor_round_single (G : Generator) (fuel : nat) (g : gen G) (self : simulator)
      (u : tensor) :
  self_n self = 1%Z -> self_state self = StTensor u -> perfect 1 u ->
  Tensor_round G fuel (g, self)
  = (Ok tt,
     (g, set_state
           (StTensor (reshape_aux 1 (mat_vec I_gate (mat_vec H_gate (flatten u)))))
           self)).
Proof.
  intros Hn Hst Hu. unfold Tensor_round.
  rewrite (bind_ok _ _ _ _ _ (Tensor_make_operations_single G fuel g self Hn)).
  cbn [fst snd]. apply on_self_eq.
  rewrite (Tensor_apply_operations_value 1 _ _ _ u (apply_axis 0 H_gate u));
    auto using perfect_apply_axis.
  - now rewrite apply_axis_single by (auto using shaped_H_gate).
  - apply shaped_I_H.
  - cbn [einsum_loop]. rewrite bind_get, Hst.
    change (make_qubits_ein 1) with (qubit_labels 1).
    change [chr_a; 98%nat] with [97%nat; (98 + 0)%nat].
    change [chr_a] with (out_labels 1 0).
    rewrite einsum_local_step by (auto; lia).
    now rewrite bind_lift_ok.
Qed.

(** ** The two engines, round by round *)

(** The state-vector simulator [sv] and the tensor simulator [tv] are on
    [n] qubits and hold the same amplitudes: the column of [sv] is the
    flattened array of [tv]. *)
Definition same_state (n : nat) (sv tv : simulator) : Prop :=
  self_n sv = Z.of_nat n /\ self_n tv = Z.of_nat n
  /\ exists u, self_state sv = StMatrix (col (flatten u))
               /\ self_state tv = StTensor u /\ perfect n u.

Lemma same_state_set (n : nat) (sv tv : simulator) (w : list R) :
  self_n sv = Z.of_nat n -> self_n tv = Z.of_nat n -> length w = (2 ^ n)%nat ->
  same_state n (set_state (StMatrix (col w)) sv)
               (set_state (StTensor (reshape_aux n w)) tv).
Proof.
  intros Hs Ht Hw. destruct (flatten_reshape_aux n w Hw) as [F P].
  repeat split; auto. exists (reshape_aux n w). cbn. now rewrite F.
Qed.

Lemma length_CX_local (n c t : nat) (v : list R) :
  length (mat_vec (CX_matrix n c t) (mat_vec (kronecker_product (local_gates n)) v))
  = (2 ^ n)%nat.
Proof. rewrite length_mat_vec. apply shaped_CX_matrix_nat. Qed.

(** Started from the same amplitudes and the same state of the generator,
    one round of each engine ends in the same amplitudes and the same state
    of the generator (or both are still drawing a target when the bound of
    the model is reached). *)
Lemma rounds_agree (G : Generator) (fuel n : nat) (g : gen G) (sv tv : simulator) :
  (1 <= n <= 25)%nat -> same_state n sv tv ->
  (exists g' sv' tv',
      SV_round G fuel (g, sv) = (Ok tt, (g', sv'))
      /\ Tensor_round G fuel (g, tv) = (Ok tt, (g', tv'))
      /\ same_state n sv' tv')
  \/ (exists g',
         SV_round G fuel (g, sv) = (Unfinished, (g', sv))
         /\ Tensor_round G fuel (g, tv) = (Unfinished, (g', tv))).
Proof.
  intros Hn (Hs & Ht & u & Hsv & Htv & Hu).
  pose proof (length_flatten n u Hu) as Hl.
  destruct (Nat.eq_dec n 1) as [->|Hn1].
  - left. exists g. eexists. eexists. split; [|split].
    + apply (SV_round_single G fuel g sv (flatten u)); auto.
    + apply (Tensor_round_single G fuel g tv u); auto.
    + apply same_state_set; auto.
  - destruct (draw_control_target_cases G fuel (Z.of_nat n) g ltac:(lia))
      as [(c & t & g' & E & Hc & Htg & Hne)|(g' & E)].
    + left. exists g'. eexists. eexists. split; [|split].
      * apply (SV_round_value G fuel n g g' sv (flatten u) c t); auto. lia.
      * apply (Tensor_round_value G fuel n g g' tv u c t); auto. lia.
      * apply same_state_set; auto. apply length_CX_local.
    + right. exists g'. split.
      * apply (SV_round_unfinished G fuel n); auto. lia.
      * apply (Tensor_round_unfinished G fuel n); auto. lia.
Qed.

(** ** Norms *)

(** The sum of the squares of the amplitudes. *)
Definition norm2 (v : list R) : R := dot v v.

Lemma norm2_app (u w : list R) : norm2 (u ++ w) = (norm2 u + norm2 w)%R.
Proof. unfold norm2. now rewrite dot_app. Qed.

Lemma lin2_cons (a b x y : R) (u w : list R) :
  lin2 a b (x :: u) (y :: w) = (a * x + b * y)%R :: lin2 a b u w.
Proof. reflexivity. Qed.



(** The four 2 x 2 blocks that [CX] is made of. *)
Section GateBlocks.
Variable n : nat.
Variable K : matrix R.
Variables v0 v1 : list R.
Hypothesis HK : shaped (2 ^ n) (2 ^ n) K.
Hypothesis H0 : length v0 = (2 ^ n)%nat.
Hypothesis H1 : length v1 = (2 ^ n)%nat.








End GateBlocks.

(** A 2 x 2 array with orthonormal columns. *)
Definition orthogonal2 (g : matrix R) : Prop :=
  exists a b c d : R,
    g = [[a; b]; [c; d]]
    /\ (a * a + c * c = 1)%R /\ (b * b + d * d = 1)%R /\ (a * b + c * d = 0)%R.

Lemma orthogonal2_shaped (g : matrix R) : orthogonal2 g -> shaped 2 2 g.
Proof.
  intros (a & b & c & d & -> & _). split; [reflexivity|repeat constructor].
Qed.

Lemma norm2_cons (x : R) (v : list R) : norm2 (x :: v) = (x * x + norm2 v)%R.
Proof. reflexivity. Qed.

Lemma norm2_lin2_pair (a b c d : R) (u w : list R) :
  length u = length w ->
  (a * a + c * c = 1)%R -> (b * b + d * d = 1)%R -> (a * b + c * d = 0)%R ->
  (norm2 (lin2 a b u w) + norm2 (lin2 c d u w) = norm2 u + norm2 w)%R.
Proof.
  intros Hl E1 E2 E3. revert w Hl.
  induction u as [|x u IH]; intros [|y w] Hl; try discriminate.
  - unfold norm2, dot. cbn. lra.
  - rewrite !lin2_cons, !norm2_cons.
    specialize (IH w ltac:(cbn in Hl; lia)).
    replace ((a * x + b * y) * (a * x + b * y) + norm2 (lin2 a b u w)
             + ((c * x + d * y) * (c * x + d * y) + norm2 (lin2 c d u w)))%R
      with ((a * a + c * c) * (x * x) + (b * b + d * d) * (y * y)
            + 2 * (a * b + c * d) * (x * y)
            + (norm2 (lin2 a b u w) + norm2 (lin2 c d u w)))%R by ring.
    rewrite E1, E2, E3, IH. ring.
Qed.

Lemma split_pow2 (n : nat) (v : list R) :
  length v = (2 ^ S n)%nat ->
  exists v0 v1, v = v0 ++ v1 /\ length v0 = (2 ^ n)%nat /\ length v1 = (2 ^ n)%nat.
Proof.
  intros H. rewrite Nat.pow_succ_r' in H.
  exists (firstn (2 ^ n) v), (skipn (2 ^ n) v). split; [|split].
  - now rewrite firstn_skipn.
  - rewrite length_firstn. lia.
  - rewrite length_skipn. lia.
Qed.

(** A tensor product of arrays with orthonormal columns keeps the norm. *)
Lemma norm2_orthogonal_product (gs : list (matrix R)) (v : list R) :
  Forall orthogonal2 gs -> length v = (2 ^ length gs)%nat ->
  norm2 (mat_vec (kronecker_product gs) v) = norm2 v.
Proof.
  intros Hgs. revert v. induction Hgs as [|g gs Hg Hgs IH]; intros v Hv.
  - destruct v as [|x [|y v]]; try discriminate.
    unfold norm2, dot. cbn. ring.
  - destruct (split_pow2 _ v Hv) as (v0 & v1 & -> & H0 & H1).
    destruct Hg as (a & b & c & d & -> & E1 & E2 & E3).
    assert (HK : shaped (2 ^ length gs) (2 ^ length gs) (kronecker_product gs)).
    { apply shaped_kronecker_product. eapply Forall_impl; [|exact Hgs].
      apply orthogonal2_shaped. }
    rewrite kronecker_product_cons, mat_vec_kron_block
      by (rewrite H0; apply HK).
    rewrite !norm2_app, norm2_lin2_pair by (now rewrite ?length_mat_vec).
    now rewrite !IH.
Qed.



Lemma inv_sqrt2_sq : (1 / sqrt 2 * (1 / sqrt 2) = 1 / 2)%R.
Proof.
  assert (H : (sqrt 2 * sqrt 2 = 2)%R) by (apply sqrt_sqrt; lra).
  assert (P : (0 < sqrt 2)%R) by (apply sqrt_lt_R0; lra).
  replace (1 / sqrt 2 * (1 / sqrt 2))%R with (1 / (sqrt 2 * sqrt 2))%R
    by (field; lra).
  now rewrite H.
Qed.

Lemma orthogonal2_H : orthogonal2 H_gate.
Proof.
  exists (1 / sqrt 2 * 1)%R, (1 / sqrt 2 * 1)%R, (1 / sqrt 2 * 1)%R, (1 / sqrt 2 * -1)%R.
  pose proof inv_sqrt2_sq as E. set (h := (1 / sqrt 2)%R) in *.
  repeat split.
  - replace (h * 1 * (h * 1) + h * 1 * (h * 1))%R with (2 * (h * h))%R by ring.
    rewrite E. lra.
  - replace (h * 1 * (h * 1) + h * -1 * (h * -1))%R with (2 * (h * h))%R by ring.
    rewrite E. lra.
  - ring.
Qed.














(** ** Initial states *)

Lemma basis_split_low (m d : nat) :
  (d < m)%nat -> basis (m + m) d = basis m d ++ repeat 0%R m.
Proof.
  intros H. unfold basis, identity_row. rewrite seq_app, map_app. f_equal.
  cbn [Nat.add]. rewrite <- (map_const_seq 0%R m m). apply map_ext_in.
  intros j Hj. apply in_seq in Hj.
  destruct (Nat.eqb_spec d j); [lia|reflexivity].
Qed.

Lemma basis_split_high (m d : nat) :
  basis (m + m) (m + d) = repeat 0%R m ++ basis m d.
Proof.
  unfold basis, identity_row. rewrite seq_app, map_app. f_equal.
  - rewrite <- (map_const_seq 0%R 0 m). apply map_ext_in.
    intros j Hj. apply in_seq in Hj.
    destruct (Nat.eqb_spec (m + d) j); [lia|reflexivity].
  - cbn [Nat.add]. rewrite (map_seq_shift _ m). apply map_ext. intros j.
    destruct (Nat.eqb_spec (m + d) (j + m)), (Nat.eqb_spec d j); try lia; reflexivity.
Qed.

Lemma norm2_zeros (m : nat) : norm2 (repeat 0%R m) = 0%R.
Proof.
  induction m as [|m IH]; [reflexivity|].
  cbn [repeat]. rewrite norm2_cons, IH. lra.
Qed.


Lemma fold_value_from (bs : list bool) (d : nat) :
  fold_left (fun d (b : bool) => 2 * d + (if b then 1 else 0))%nat bs d
  = (d * 2 ^ length bs
     + fold_left (fun d (b : bool) => 2 * d + (if b then 1 else 0)) bs 0)%nat.
Proof.
  revert d. induction bs as [|b bs IH]; intros d.
  - cbn. lia.
  - cbn [fold_left length]. rewrite IH.
    rewrite (IH (2 * 0 + (if b then 1 else 0))%nat), Nat.pow_succ_r'.
    destruct b; lia.
Qed.

Lemma bools_value_cons (b : bool) (bs : list bool) :
  bools_value (b :: bs) = ((if b then 2 ^ length bs else 0) + bools_value bs)%nat.
Proof.
  unfold bools_value. cbn [fold_left]. rewrite fold_value_from.
  destruct b; lia.
Qed.

Lemma bools_value_bound (bs : list bool) : (bools_value bs < 2 ^ length bs)%nat.
Proof.
  induction bs as [|b bs IH]; [cbn; lia|].
  rewrite bools_value_cons. cbn [length]. rewrite Nat.pow_succ_r'.
  destruct b; lia.
Qed.

(** A character of a bitstring as a bit. *)
Definition is_one (c : ascii) : bool := Ascii.eqb c "1".

Lemma bits_value_bools (chars : list ascii) :
  bits_value chars = bools_value (map is_one chars).
Proof.
  unfold bits_value, bools_value.
  enough (H : forall d,
    fold_left (fun d c => if Ascii.eqb c "1" then 2 * d + 1 else 2 * d)%nat chars d
    = fold_left (fun d (b : bool) => 2 * d + (if b then 1 else 0))%nat
                (map is_one chars) d) by apply H.
  induction chars as [|c chars IH]; intros d; [reflexivity|].
  cbn [map fold_left]. rewrite <- IH. unfold is_one.
  destruct (Ascii.eqb c "1"); f_equal; lia.
Qed.

Lemma bits_value_bound (chars : list ascii) :
  (bits_value chars < 2 ^ length chars)%nat.
Proof.
  rewrite bits_value_bools, <- (length_map is_one chars). apply bools_value_bound.
Qed.

(** The rank-[n] array of a list of bits: 1 at that multi-index, 0
    elsewhere. *)
Fixpoint one_hot (bs : list bool) : tensor :=
  match bs with
  | [] => Scalar 1
  | b :: bs' =>
      if b then Axis (tzeros (length bs')) (one_hot bs')
      else Axis (one_hot bs') (tzeros (length bs'))
  end.

Lemma perfect_tzeros (n : nat) : perfect n (tzeros n).
Proof. induction n; cbn; constructor; auto. Qed.

Lemma flatten_tzeros (n : nat) : flatten (tzeros n) = repeat 0%R (2 ^ n).
Proof.
  induction n as [|n IH]; [reflexivity|].
  cbn [tzeros flatten]. rewrite IH, <- repeat_app. f_equal.
  rewrite Nat.pow_succ_r'. lia.
Qed.

Lemma perfect_one_hot (bs : list bool) : perfect (length bs) (one_hot bs).
Proof.
  induction bs as [|b bs IH]; [constructor|].
  cbn [one_hot length]. destruct b; constructor; auto using perfect_tzeros.
Qed.

Lemma flatten_one_hot (bs : list bool) :
  flatten (one_hot bs) = basis (2 ^ length bs) (bools_value bs).
Proof.
  induction bs as [|b bs IH]; [reflexivity|].
  rewrite bools_value_cons. cbn [length]. rewrite Nat.pow_succ_r'.
  replace (2 * 2 ^ length bs)%nat with (2 ^ length bs + 2 ^ length bs)%nat by lia.
  pose proof (bools_value_bound bs) as B.
  destruct b; cbn [one_hot flatten]; rewrite IH, flatten_tzeros.
  - now rewrite basis_split_high.
  - now rewrite basis_split_low.
Qed.

Lemma fill_tzeros (n : nat) : fill 1 (tzeros n) = tzeros n -> False.
Proof.
  induction n as [|n IH]; cbn; intros H.
  - inversion H. lra.
  - inversion H. auto.
Qed.

(** [self.state[tuple(int(bit) for bit in bitstring)] = 1] on an array of
    zeros, for as many bits as axes. *)
Lemma tensor_set_one_hot (bs : list bool) :
  tensor_set (tzeros (length bs)) (map (fun b : bool => if b then 1 else 0)%Z bs) 1
  = Ok (one_hot bs).
Proof.
  induction bs as [|b bs IH]; [reflexivity|].
  cbn [length tzeros map tensor_set one_hot].
  destruct b; cbn [Z.eqb]; rewrite IH; reflexivity.
Qed.

Lemma ints_of_bits (chars : list ascii) :
  forallb is_bit_char chars = true ->
  ints_of_chars chars
  = Ok (map (fun b : bool => if b then 1 else 0)%Z (map is_one chars)).
Proof.
  induction chars as [|c chars IH]; intros H; [reflexivity|].
  cbn [forallb] in H. apply andb_true_iff in H. destruct H as [Hc H].
  cbn [ints_of_chars map]. rewrite (IH H). unfold is_bit_char in Hc.
  apply orb_true_iff in Hc. unfold is_one.
  destruct Hc as [Hc|Hc]; apply Ascii.eqb_eq in Hc; subst; reflexivity.
Qed.

(** ** The constructors on a valid bitstring *)

Lemma initialize_state_bits (s : string) (self : simulator) :
  forallb is_bit_char (list_ascii_of_string s) = true ->
  initialize_state (PyStr s) true self
  = (Ok (col (basis (2 ^ String.length s) (bits_value (list_ascii_of_string s)))),
     set_state (StMatrix (col (basis (2 ^ String.length s)
                                     (bits_value (list_ascii_of_string s))))) self).
Proof.
  intros H. unfold initialize_state, bind, lift, get, put_state, ret.
  rewrite check_bits_forallb, H.
  now rewrite kron_bits_col, bits_vec_basis, length_list_ascii.
Qed.

Lemma truthy_nonempty (s : string) :
  (1 <= String.length s)%nat -> truthy (PyStr s) = true.
Proof. destruct s; cbn; [lia|reflexivity]. Qed.

Section Constructors.
Variable G : Generator.

(** A seed that [seed if seed else ...] keeps and [np.random.seed]
    accepts. *)
Definition usable_seed (s : Z) : Prop := (s <> 0 /\ 0 <= s < 2 ^ 32)%Z.

Lemma GateSimulator_init_value (n s : Z) (g : gen G) :
  usable_seed s ->
  GateSimulator_init G (PyInt n) (PyInt s) g
  = (Ok {| self_n := n; self_seed := s; self_state := StNone |}, seed_gen G s).
Proof.
  intros [H0 [Hl Hh]]. unfold GateSimulator_init, bind, ret, np_random_seed.
  destruct (Z.eqb_spec s 0) as [E|_]; [contradiction|].
  apply Z.leb_le in Hl. apply Z.ltb_lt in Hh. now rewrite Hl, Hh.
Qed.

Lemma GateSVSimulator_init_value (n : nat) (str : string) (s : Z) (g : gen G) :
  (1 <= n)%nat -> String.length str = n ->
  forallb is_bit_char (list_ascii_of_string str) = true ->
  usable_seed s ->
  GateSVSimulator_init G (PyInt (Z.of_nat n)) (PyStr str) (PyInt s) g
  = (Ok {| self_n := Z.of_nat n; self_seed := s;
           self_state := StMatrix (col (basis (2 ^ n)
                                        (bits_value (list_ascii_of_string str)))) |},
     snd (choice_gen G ["0"; "1"]%string n (seed_gen G s))).
Proof.
  intros Hn Hlen Hbits Hs. unfold GateSVSimulator_init.
  rewrite (bind_ok _ _ _ _ _ (GateSimulator_init_value (Z.of_nat n) s g Hs)).
  cbn [self_n]. unfold bind at 1, np_random_choice.
  destruct (Z.ltb_spec (Z.of_nat n) 0) as [Hneg|_]; [lia|].
  rewrite Nat2Z.id.
  destruct (choice_gen G ["0"; "1"]%string n (seed_gen G s)) as [xs g'].
  cbn [snd]. unfold construct, bind at 1.
  rewrite truthy_nonempty by lia.
  rewrite (initialize_state_bits str _ Hbits), Hlen.
  reflexivity.
Qed.

Lemma GateTensorSimulator_init_value (n : nat) (str : string) (s : Z) (g : gen G) :
  (1 <= n)%nat -> String.length str = n ->
  forallb is_bit_char (list_ascii_of_string str) = true ->
  usable_seed s ->
  GateTensorSimulator_init G (PyInt (Z.of_nat n)) (PyStr str) (PyInt s) g
  = (Ok {| self_n := Z.of_nat n; self_seed := s;
           self_state := StTensor (one_hot (map is_one (list_ascii_of_string str))) |},
     seed_gen G s).
Proof.
  intros Hn Hlen Hbits Hs. unfold GateTensorSimulator_init.
  rewrite (bind_ok _ _ _ _ _ (GateSimulator_init_value (Z.of_nat n) s g Hs)).
  cbn [self_n]. rewrite truthy_nonempty by lia.
  unfold bind, ret, lift. rewrite (ints_of_bits _ Hbits), Nat2Z.id.
  replace n with (length (map is_one (list_ascii_of_string str)))
    by now rewrite length_map, length_list_ascii.
  rewrite tensor_set_one_hot. reflexivity.
Qed.

(** Whatever the seed, a simulator that the base constructor returns has
    the given qubit count and no state yet. *)
Lemma GateSimulator_init_ok (n : Z) (seed : pyval) (g g1 : gen G) (self : simulator) :
  GateSimulator_init G (PyInt n) seed g = (Ok self, g1) ->
  self_n self = n /\ self_state self = StNone.
Proof.
  unfold GateSimulator_init, bind, ret, raise, np_random_seed, np_random_randint.
  intros H.
  destruct seed as [s| | |]; try discriminate.
  - destruct (s =? 0)%Z.
    + cbn [Z.ltb Z.compare] in H.
      destruct (randint_gen G 0 1000000 g) as [x g'].
      destruct ((0 <=? x)%Z && (x <? 2 ^ 32)%Z); inversion H; auto.
    + destruct ((0 <=? s)%Z && (s <? 2 ^ 32)%Z); inversion H; auto.
  - cbn [Z.ltb Z.compare] in H.
    destruct (randint_gen G 0 1000000 g) as [x g'].
    destruct ((0 <=? x)%Z && (x <? 2 ^ 32)%Z); inversion H; auto.
Qed.

Lemma GateSVSimulator_init_ok (n : nat) (str : string) (seed : pyval)
      (g g1 : gen G) (sv : simulator) :
  (1 <= n)%nat -> String.length str = n ->
  forallb is_bit_char (list_ascii_of_string str) = true ->
  GateSVSimulator_init G (PyInt (Z.of_nat n)) (PyStr str) seed g = (Ok sv, g1) ->
  self_n sv = Z.of_nat n
  /\ self_state sv
     = StMatrix (col (basis (2 ^ n) (bits_value (list_ascii_of_string str)))).
Proof.
  intros Hn Hlen Hbits. unfold GateSVSimulator_init, bind at 1.
  destruct (GateSimulator_init G (PyInt (Z.of_nat n)) seed g) as [[self|e|] g0] eqn:E;
    try discriminate.
  destruct (GateSimulator_init_ok _ _ _ _ _ E) as [Hself _].
  unfold bind at 1, np_random_choice.
  destruct (self_n self <? 0)%Z; [discriminate|].
  destruct (choice_gen G ["0"; "1"]%string (Z.to_nat (self_n self)) g0) as [xs g'].
  unfold construct, bind at 1.
  rewrite truthy_nonempty by lia.
  rewrite (initialize_state_bits str _ Hbits), Hlen.
  unfold put_state. intros H. inversion H. now split.
Qed.

Lemma GateTensorSimulator_init_ok (n : nat) (str : string) (seed : pyval)
      (g g1 : gen G) (tv : simulator) :
  (1 <= n)%nat -> String.length str = n ->
  forallb is_bit_char (list_ascii_of_string str) = true ->
  GateTensorSimulator_init G (PyInt (Z.of_nat n)) (PyStr str) seed g = (Ok tv, g1) ->
  self_n tv = Z.of_nat n
  /\ self_state tv = StTensor (one_hot (map is_one (list_ascii_of_string str))).
Proof.
  intros Hn Hlen Hbits. unfold GateTensorSimulator_init, bind at 1.
  destruct (GateSimulator_init G (PyInt (Z.of_nat n)) seed g) as [[self|e|] g0] eqn:E;
    try discriminate.
  destruct (GateSimulator_init_ok _ _ _ _ _ E) as [Hself _].
  rewrite truthy_nonempty by lia.
  unfold bind, ret, lift. rewrite (ints_of_bits _ Hbits), Hself, Nat2Z.id.
  pose proof (tensor_set_one_hot (map is_one (list_ascii_of_string str))) as T.
  rewrite length_map, length_list_ascii, Hlen in T. rewrite T.
  intros H. inversion H. now split.
Qed.

End Constructors.

(** ** Normalisation *)

(** The sum of the squares of the amplitudes of [self.state]. *)
Definition squared_norm (self : simulator) : result R :=
  rbind (state_flat (self_state self)) (fun v => Ok (norm2 v)).

(** [k] rounds, one after the other. *)
Fixpoint rounds {W : Type} (round : M W unit) (k : nat) : M W unit :=
  match k with
  | O => ret tt
  | S k' => bind round (fun _ => rounds round k')
  end.



Lemma flatten2_col (v : list R) : flatten2 (col v) = v.
Proof.
  unfold flatten2, col. induction v as [|x v IH]; [reflexivity|].
  cbn [map concat app]. now rewrite IH.
Qed.









Section Iterated.
Variable G : Generator.
Variable round : M (world G) unit.
Variable good : simulator -> Prop.
Hypothesis round_good :
  forall g self, good self ->
    exists r g' self',
      round (g, self) = (r, (g', self'))
      /\ (r = Ok tt \/ r = Unfinished) /\ good self'.

End Iterated.

(** ** More than 25 qubits in the tensor engine *)











(** ** The two engines under the same seed *)

Lemma inv_sqrt2_bounds : (1 / 2 < 1 / sqrt 2 < 1)%R.
Proof.
  pose proof inv_sqrt2_sq as H.
  assert (P : (0 < 1 / sqrt 2)%R).
  { apply Rdiv_lt_0_compat; [lra|]. apply sqrt_lt_R0. lra. }
  split; nra.
Qed.

(** One round on two qubits from |00>: Hadamard on the first qubit and
    Pauli-X on the second, then [CX(0, 1)] or [CX(1, 0)]. *)
Lemma round_two_qubits_0_1 :
  mat_vec (CX_matrix 2 0 1) (mat_vec (kronecker_product (local_gates 2)) (basis 4 0))
  = [0; 1 / sqrt 2; 0; 1 / sqrt 2]%R.
Proof.
  change (local_gates 2) with [H_gate; X_gate]. unfold H_gate.
  generalize (1 / sqrt 2)%R. intros h.
  unfold CX_matrix, zero_args, one_args, P0_gate, P1_gate. cbn.
  repeat (f_equal; try ring).
Qed.

Lemma round_two_qubits_1_0 :
  mat_vec (CX_matrix 2 1 0) (mat_vec (kronecker_product (local_gates 2)) (basis 4 0))
  = [0; 1 / sqrt 2; 1 / sqrt 2; 0]%R.
Proof.
  change (local_gates 2) with [H_gate; X_gate]. unfold H_gate.
  generalize (1 / sqrt 2)%R. intros h.
  unfold CX_matrix, zero_args, one_args, P0_gate, P1_gate. cbn.
  repeat (f_equal; try ring).
Qed.

(** C1, failing input. With seed 1, two qubits and the bitstring "00",
    both constructors succeed and one round of each engine ends normally,
    but the final states differ: the dense engine ends in
    (|01> + |11>)/sqrt 2 and the tensor engine in (|01> + |10>)/sqrt 2, so
    the amplitude of |10> is 0 in one and 1/sqrt 2 in the other.
    [GateSVSimulator.__init__] draws a random bitstring even though a state
    is given, [GateTensorSimulator.__init__] draws one only when no state is
    given; after the same seed the generators are therefore at different
    positions when [make_operations] draws control and target: the dense
    engine draws (0, 1), the tensor engine (1, 0). *)
Theorem same_seed_rounds_differ :
  exists sv g1 tv g2 sv' g1' tv' g2' a b,
    GateSVSimulator_init numpy_prefix (PyInt 2) (PyStr "00") (PyInt 1) [] = (Ok sv, g1)
    /\ GateTensorSimulator_init numpy_prefix (PyInt 2) (PyStr "00") (PyInt 1) []
       = (Ok tv, g2)
    /\ SV_round numpy_prefix 5 (g1, sv) = (Ok tt, (g1', sv'))
    /\ Tensor_round numpy_prefix 5 (g2, tv) = (Ok tt, (g2', tv'))
    /\ fst (draw_control_target numpy_prefix 5 2 g1) = Ok (0, 1)%Z
    /\ fst (draw_control_target numpy_prefix 5 2 g2) = Ok (1, 0)%Z
    /\ state_flat (self_state sv') = Ok a
    /\ state_flat (self_state tv') = Ok b
    /\ a = [0; 1 / sqrt 2; 0; 1 / sqrt 2]%R
    /\ b = [0; 1 / sqrt 2; 1 / sqrt 2; 0]%R
    /\ (Rabs (nth 2 a 0 - nth 2 b 0) > 1e-9)%R.
Proof.
  assert (U : usable_seed 1) by (unfold usable_seed; lia).
  pose proof (GateSVSimulator_init_value numpy_prefix 2 "00" 1 []
                ltac:(lia) eq_refl eq_refl U) as Hsv.
  pose proof (GateTensorSimulator_init_value numpy_prefix 2 "00" 1 []
                ltac:(lia) eq_refl eq_refl U) as Htv.
  set (g1 := snd (choice_gen numpy_prefix ["0"; "1"]%string 2 (seed_gen numpy_prefix 1)))
    in *.
  set (g2 := seed_gen numpy_prefix 1) in *.
  assert (D1 : draw_control_target numpy_prefix 5 (Z.of_nat 2) g1
               = (Ok (0, 1)%Z, snd (draw_control_target numpy_prefix 5 2 g1)))
    by (vm_compute; reflexivity).
  assert (D2 : draw_control_target numpy_prefix 5 (Z.of_nat 2) g2
               = (Ok (1, 0)%Z, snd (draw_control_target numpy_prefix 5 2 g2)))
    by (vm_compute; reflexivity).
  do 10 eexists.
  split; [exact Hsv|]. split; [exact Htv|].
  split.
  { eapply (SV_round_value numpy_prefix 5 2 g1 _ _ _ 0 1);
      [reflexivity|lia|reflexivity|apply basis_length|exact D1|lia|lia|lia]. }
  split.
  { eapply (Tensor_round_value numpy_prefix 5 2 g2 _ _ _ 1 0);
      [reflexivity|lia|reflexivity|apply (perfect_one_hot [false; false])
      |exact D2|lia|lia|lia]. }
  split; [change 2%Z with (Z.of_nat 2); now rewrite D1|].
  split; [change 2%Z with (Z.of_nat 2); now rewrite D2|].
  cbn [self_state set_state state_flat].
  split; [reflexivity|]. split; [reflexivity|].
  rewrite flatten2_col.
  destruct (flatten_reshape_aux 2 _ (length_CX_local 2 (Z.to_nat 1) (Z.to_nat 0)
              (flatten (one_hot (map is_one (list_ascii_of_string "00"))))))
    as [-> _].
  change (flatten (one_hot (map is_one (list_ascii_of_string "00")))) with (basis 4 0).
  change (basis (2 ^ 2) (bits_value (list_ascii_of_string "00"))) with (basis 4 0).
  change (Z.to_nat 0) with O. change (Z.to_nat 1) with 1%nat.
  rewrite round_two_qubits_0_1, round_two_qubits_1_0.
  split; [reflexivity|]. split; [reflexivity|].
  cbn [nth]. pose proof inv_sqrt2_bounds as B.
  unfold Rminus. rewrite Rplus_0_l, Rabs_Ropp, Rabs_pos_eq; lra.
Qed.

(** In the scenario of the notebook (four qubits, "0000", seed 42) the
    two engines happen to draw the same control and target although their
    generators are four draws apart, so there the final states agree. *)
Lemma seed_42_draws_agree :
  fst (draw_control_target numpy_prefix 5 4
         (snd (choice_gen numpy_prefix ["0"; "1"]%string 4 (seed_gen numpy_prefix 42))))
  = Ok (2, 3)%Z
  /\ fst (draw_control_target numpy_prefix 5 4 (seed_gen numpy_prefix 42))
     = Ok (2, 3)%Z.
Proof. split; vm_compute; reflexivity. Qed.

(** ** [sample_probability] and the state *)

Lemma SV_state_to_braket_keeps (self : simulator) :
  snd (SV_state_to_braket self) = self.
Proof.
  unfold SV_state_to_braket, bind, get, lift, raise.
  now destruct (self_state self).
Qed.

Lemma Tensor_state_to_braket_keeps (self : simulator) :
  snd (Tensor_state_to_braket self) = self.
Proof.
  unfold Tensor_state_to_braket, bind, get, ret, raise.
  now destruct (self_state self).
Qed.

(** What follows the round in [sample_probability] only reads
    [self.state]. *)
Lemma sample_probability_after_round (G : Generator) (cls : simulator_class G)
      (fuel : nat) (w w1 : world G) :
  (forall self, snd (class_state_to_braket G cls self) = self) ->
  class_round G cls fuel w = (Ok tt, w1) ->
  snd (snd (sample_probability G cls fuel w)) = snd w1.
Proof.
  intros Hread Hround. unfold sample_probability.
  rewrite (bind_ok _ _ _ _ _ Hround). destruct w1 as [g self].
  unfold bind at 1, on_self. cbn [fst snd].
  specialize (Hread self).
  destruct (class_state_to_braket G cls self) as [[braket|e|] self'];
    cbn [snd] in *; subst self'; try reflexivity.
  unfold bind at 1, lift.
  destruct (parse_floats (findall_parens None (list_ascii_of_string braket)))
    as [amplitudes|e|]; try reflexivity.
  destruct (Rneqb _ 0); [|reflexivity].
  unfold bind, on_rng. cbn [fst snd].
  now destruct (np_random_choice_p G _ 1024 _ g) as [[states|e|] g'].
Qed.

Lemma sample_probability_round_fails (G : Generator) (cls : simulator_class G)
      (fuel : nat) (w w1 : world G) (r : result unit) :
  class_round G cls fuel w = (r, w1) -> r <> Ok tt ->
  snd (sample_probability G cls fuel w) = w1.
Proof.
  intros Hround Hr. unfold sample_probability, bind at 1. rewrite Hround.
  destruct r as [[]|e|]; [contradiction|reflexivity|reflexivity].
Qed.

(** C2 (as amended). [sample_probability] starts with one round
    ([make_operations] followed by [apply_operations]); what it does after
    that round, rendering the state and drawing the 1024 samples, only reads
    [self.state]. So the simulator after the call is the simulator one round
    leaves, in both engines and whether the call ends normally or not. *)
Theorem sample_probability_applies_one_round
        (G : Generator) (fuel : nat) (w : world G) :
  snd (snd (sample_probability G (GateSVSimulator G) fuel w))
  = snd (snd (SV_round G fuel w))
  /\ snd (snd (sample_probability G (GateTensorSimulator G) fuel w))
     = snd (snd (Tensor_round G fuel w)).
Proof.
  split.
  - destruct (SV_round G fuel w) as [r w1] eqn:E.
    assert (D : r = Ok tt \/ r <> Ok tt)
      by (destruct r as [[]|e|]; [now left|right; discriminate|right; discriminate]).
    destruct D as [->|D].
    + apply (sample_probability_after_round G (GateSVSimulator G) fuel w w1);
        [exact SV_state_to_braket_keeps|exact E].
    + now rewrite (sample_probability_round_fails G (GateSVSimulator G) fuel w w1 r E D).
  - destruct (Tensor_round G fuel w) as [r w1] eqn:E.
    assert (D : r = Ok tt \/ r <> Ok tt)
      by (destruct r as [[]|e|]; [now left|right; discriminate|right; discriminate]).
    destruct D as [->|D].
    + apply (sample_probability_after_round G (GateTensorSimulator G) fuel w w1);
        [exact Tensor_state_to_braket_keeps|exact E].
    + now rewrite (sample_probability_round_fails G (GateTensorSimulator G)
                     fuel w w1 r E D).
Qed.

Lemma round_one_qubit_zero :
  mat_vec I_gate (mat_vec H_gate [1; 0]%R) = [1 / sqrt 2; 1 / sqrt 2]%R.
Proof.
  unfold H_gate. generalize (1 / sqrt 2)%R. intros h. cbn.
  repeat (f_equal; try ring).
Qed.

(** C2, counterexample. A one-qubit dense simulator constructed on "0"
    holds the state [[1], [0]]; after one call of [sample_probability] it
    holds [[1/sqrt 2], [1/sqrt 2]]. *)
Lemma sample_probability_changes_state :
  exists sv g1,
    GateSVSimulator_init numpy_prefix (PyInt 1) (PyStr "0") (PyInt 1) [] = (Ok sv, g1)
    /\ self_state sv = StMatrix (col [1; 0]%R)
    /\ self_state (snd (snd (sample_probability numpy_prefix
                               (GateSVSimulator numpy_prefix) 5 (g1, sv))))
       = StMatrix (col [1 / sqrt 2; 1 / sqrt 2]%R)
    /\ self_state (snd (snd (sample_probability numpy_prefix
                               (GateSVSimulator numpy_prefix) 5 (g1, sv))))
       <> self_state sv.
Proof.
  assert (U : usable_seed 1) by (unfold usable_seed; lia).
  pose proof (GateSVSimulator_init_value numpy_prefix 1 "0" 1 []
                ltac:(lia) eq_refl eq_refl U) as Hsv.
  do 2 eexists. split; [exact Hsv|]. split; [reflexivity|].
  match goal with
  | |- context [sample_probability _ _ _ (?g, ?self)] =>
      pose proof (SV_round_single numpy_prefix 5 g self [1; 0]%R
                    eq_refl eq_refl eq_refl) as Hround
  end.
  rewrite (sample_probability_after_round numpy_prefix (GateSVSimulator numpy_prefix)
             5 _ _ SV_state_to_braket_keeps Hround).
  cbn [snd self_state set_state]. rewrite round_one_qubit_zero.
  split; [reflexivity|].
  intros H. injection H as H1 _. pose proof inv_sqrt2_bounds. lra.
Qed.

(** ** The qubit count at construction *)

(** C9 (as amended). The only check on the qubit count is
    [isinstance(n, int)]: when [n] is not an integer, each of the three
    constructors raises [TypeError("n must be an integer")] before anything
    else happens, so no simulator is returned, nothing is drawn and the
    generator is not reseeded. Integers that are not positive are not
    rejected by this check. *)
Theorem constructors_reject_non_integers
        (G : Generator) (n state seed : pyval) (g : gen G) :
  (forall z, n <> PyInt z) ->
  GateSimulator_init G n seed g = (Raise (TypeError "n must be an integer"), g)
  /\ GateSVSimulator_init G n state seed g
     = (Raise (TypeError "n must be an integer"), g)
  /\ GateTensorSimulator_init G n state seed g
     = (Raise (TypeError "n must be an integer"), g).
Proof.
  intros Hn.
  assert (B : GateSimulator_init G n seed g
              = (Raise (TypeError "n must be an integer"), g)).
  { unfold GateSimulator_init, raise.
    destruct n as [z| | |]; [now destruct (Hn z)|reflexivity|reflexivity|reflexivity]. }
  split; [exact B|]. split.
  - unfold GateSVSimulator_init, bind at 1. now rewrite B.
  - unfold GateTensorSimulator_init, bind at 1. now rewrite B.
Qed.

(** C9 at [n = 2.5]. *)
Lemma constructors_reject_non_integers_witness :
  GateSimulator_init numpy_prefix (PyFloat 2.5) (PyInt 42) []
  = (Raise (TypeError "n must be an integer"), [])
  /\ GateSVSimulator_init numpy_prefix (PyFloat 2.5) (PyStr "00") (PyInt 42) []
     = (Raise (TypeError "n must be an integer"), [])
  /\ GateTensorSimulator_init numpy_prefix (PyFloat 2.5) (PyStr "00") (PyInt 42) []
     = (Raise (TypeError "n must be an integer"), []).
Proof.
  apply (constructors_reject_non_integers numpy_prefix (PyFloat 2.5)).
  intros z. discriminate.
Defined.

(** C9, counterexample. With [n = 0] both engines construct a simulator:
    the dense one holds the 1 x 1 state [[1]], the tensor one the rank-0
    array 1. With [n = -3] the base constructor succeeds as well. *)
Lemma zero_qubits_are_accepted :
  (exists sv g1,
      GateSVSimulator_init numpy_prefix (PyInt 0) PyNone (PyInt 1) [] = (Ok sv, g1)
      /\ self_state sv = StMatrix [[1%R]])
  /\ (exists tv g2,
         GateTensorSimulator_init numpy_prefix (PyInt 0) PyNone (PyInt 1) []
         = (Ok tv, g2)
         /\ self_state tv = StTensor (Scalar 1%R))
  /\ (exists self g3,
         GateSimulator_init numpy_prefix (PyInt (-3)) (PyInt 1) [] = (Ok self, g3)
         /\ self_n self = (-3)%Z).
Proof.
  split; [|split]; do 2 eexists; (split; [reflexivity|reflexivity]).
Qed.

(** ** Seeds and the process-wide generator *)

(** Construct a simulator, then run [prog] on it, with nothing else
    touching the generator in between. *)
Definition session {G : Generator} {A : Type}
           (init : M (gen G) simulator) (prog : M (world G) A)
  : M (gen G) (A * simulator) :=
  fun g =>
    match init g with
    | (Ok self, g1) =>
        match prog (g1, self) with
        | (Ok a, (g2, self')) => (Ok (a, self'), g2)
        | (Raise e, (g2, _)) => (Raise e, g2)
        | (Unfinished, (g2, _)) => (Unfinished, g2)
        end
    | (Raise e, g1) => (Raise e, g1)
    | (Unfinished, g1) => (Unfinished, g1)
    end.

(** C7 (as amended). For an integer [n] and a seed [s] with [s <> 0] and
    [0 <= s < 2^32], each constructor reseeds the process-wide generator
    before it draws anything: the simulator it returns and the generator it
    leaves do not depend on the generator it found. Hence construction
    followed by any operations, with nothing else using the generator in
    between, gives the same results and the same final state from any two
    starting points. The generator is shared by all instances and by all
    other users of [np.random], and the seed 0 is replaced by a drawn one,
    so this does not extend to instances used in turn or to seed 0. *)
Theorem construction_reseeds
        (G : Generator) (A : Type) (n : Z) (state : pyval) (s : Z)
        (prog prog' : M (world G) A) (g g' : gen G) :
  usable_seed s ->
  (GateSimulator_init G (PyInt n) (PyInt s) g
   = GateSimulator_init G (PyInt n) (PyInt s) g'
   /\ GateSVSimulator_init G (PyInt n) state (PyInt s) g
      = GateSVSimulator_init G (PyInt n) state (PyInt s) g'
   /\ GateTensorSimulator_init G (PyInt n) state (PyInt s) g
      = GateTensorSimulator_init G (PyInt n) state (PyInt s) g')
  /\ session (GateSVSimulator_init G (PyInt n) state (PyInt s)) prog g
     = session (GateSVSimulator_init G (PyInt n) state (PyInt s)) prog g'
  /\ session (GateTensorSimulator_init G (PyInt n) state (PyInt s)) prog' g
     = session (GateTensorSimulator_init G (PyInt n) state (PyInt s)) prog' g'.
Proof.
  intros Hs.
  assert (B : GateSimulator_init G (PyInt n) (PyInt s) g
              = GateSimulator_init G (PyInt n) (PyInt s) g')
    by now rewrite !GateSimulator_init_value.
  assert (SV : GateSVSimulator_init G (PyInt n) state (PyInt s) g
               = GateSVSimulator_init G (PyInt n) state (PyInt s) g')
    by (unfold GateSVSimulator_init, bind at 1 3; now rewrite B).
  assert (TV : GateTensorSimulator_init G (PyInt n) state (PyInt s) g
               = GateTensorSimulator_init G (PyInt n) state (PyInt s) g')
    by (unfold GateTensorSimulator_init, bind at 1 7; now rewrite B).
  split; [now repeat split|].
  unfold session. now rewrite SV, TV.
Qed.

(** C7 at seed 42, two qubits, bitstring "00", one round, from an empty
    generator and from the generator seeded with 1. *)
Lemma construction_reseeds_witness :
  (GateSimulator_init numpy_prefix (PyInt 2) (PyInt 42) []
   = GateSimulator_init numpy_prefix (PyInt 2) (PyInt 42) (words_after_seed 1)
   /\ GateSVSimulator_init numpy_prefix (PyInt 2) (PyStr "00") (PyInt 42) []
      = GateSVSimulator_init numpy_prefix (PyInt 2) (PyStr "00") (PyInt 42)
                             (words_after_seed 1)
   /\ GateTensorSimulator_init numpy_prefix (PyInt 2) (PyStr "00") (PyInt 42) []
      = GateTensorSimulator_init numpy_prefix (PyInt 2) (PyStr "00") (PyInt 42)
                                 (words_after_seed 1))
  /\ session (GateSVSimulator_init numpy_prefix (PyInt 2) (PyStr "00") (PyInt 42))
             (SV_round numpy_prefix 5) []
     = session (GateSVSimulator_init numpy_prefix (PyInt 2) (PyStr "00") (PyInt 42))
               (SV_round numpy_prefix 5) (words_after_seed 1)
  /\ session (GateTensorSimulator_init numpy_prefix (PyInt 2) (PyStr "00") (PyInt 42))
             (Tensor_round numpy_prefix 5) []
     = session (GateTensorSimulator_init numpy_prefix (PyInt 2) (PyStr "00") (PyInt 42))
               (Tensor_round numpy_prefix 5) (words_after_seed 1).
Proof.
  apply (construction_reseeds numpy_prefix unit 2 (PyStr "00") 42
           (SV_round numpy_prefix 5) (Tensor_round numpy_prefix 5)
           [] (words_after_seed 1)).
  unfold usable_seed. lia.
Defined.

(** C7, counterexample. Two tensor simulators are constructed one after
    the other with the same parameters (two qubits, "00", seed 1), and are
    equal. Then each runs one round, the first before the second. The
    first draws control 1 and target 0, the second continues the same
    stream and draws control 0 and target 1: the final states differ. *)
Lemma instances_share_the_generator :
  exists a g0 b g1 a' g2 b' g3,
    GateTensorSimulator_init numpy_prefix (PyInt 2) (PyStr "00") (PyInt 1) []
    = (Ok a, g0)
    /\ GateTensorSimulator_init numpy_prefix (PyInt 2) (PyStr "00") (PyInt 1) g0
       = (Ok b, g1)
    /\ a = b
    /\ Tensor_round numpy_prefix 5 (g1, a) = (Ok tt, (g2, a'))
    /\ Tensor_round numpy_prefix 5 (g2, b) = (Ok tt, (g3, b'))
    /\ fst (draw_control_target numpy_prefix 5 2 g1) = Ok (1, 0)%Z
    /\ fst (draw_control_target numpy_prefix 5 2 g2) = Ok (0, 1)%Z
    /\ self_state a' <> self_state b'.
Proof.
  assert (U : usable_seed 1) by (unfold usable_seed; lia).
  pose proof (fun g => GateTensorSimulator_init_value numpy_prefix 2 "00" 1 g
                ltac:(lia) eq_refl eq_refl U) as Hinit.
  set (g1 := seed_gen numpy_prefix 1) in *.
  set (g2 := snd (draw_control_target numpy_prefix 5 2 g1)).
  assert (D1 : draw_control_target numpy_prefix 5 (Z.of_nat 2) g1 = (Ok (1, 0)%Z, g2))
    by (vm_compute; reflexivity).
  assert (D2 : draw_control_target numpy_prefix 5 (Z.of_nat 2) g2
               = (Ok (0, 1)%Z, snd (draw_control_target numpy_prefix 5 2 g2)))
    by (vm_compute; reflexivity).
  do 8 eexists.
  split; [apply Hinit|]. split; [apply Hinit|]. split; [reflexivity|].
  split.
  { eapply (Tensor_round_value numpy_prefix 5 2 g1 _ _ _ 1 0);
      [reflexivity|lia|reflexivity|apply (perfect_one_hot [false; false])
      |exact D1|lia|lia|lia]. }
  split.
  { eapply (Tensor_round_value numpy_prefix 5 2 g2 _ _ _ 0 1);
      [reflexivity|lia|reflexivity|apply (perfect_one_hot [false; false])
      |exact D2|lia|lia|lia]. }
  split; [change 2%Z with (Z.of_nat 2); now rewrite D1|].
  split; [change 2%Z with (Z.of_nat 2); now rewrite D2|].
  cbn [self_state set_state].
  change (flatten (one_hot (map is_one (list_ascii_of_string "00")))) with (basis 4 0).
  change (Z.to_nat 0) with O. change (Z.to_nat 1) with 1%nat.
  rewrite round_two_qubits_0_1, round_two_qubits_1_0.
  cbn [reshape_aux]. intros H. injection H as H. pose proof inv_sqrt2_bounds. lra.
Qed.

(** ** Rendering *)

Lemma Rneqb_same (x : R) : Rneqb x x = false.
Proof. unfold Rneqb. now destruct (Req_dec_T x x). Qed.

Lemma Rneqb_diff (x y : R) : x <> y -> Rneqb x y = true.
Proof. intros H. unfold Rneqb. now destruct (Req_dec_T x y). Qed.

Lemma Rgtb_true (x y : R) : (x > y)%R -> Rgtb x y = true.
Proof. intros H. unfold Rgtb. destruct (Rgt_dec x y); [reflexivity|contradiction]. Qed.

Lemma Rgtb_false (x y : R) : (x <= y)%R -> Rgtb x y = false.
Proof. intros H. unfold Rgtb. destruct (Rgt_dec x y); [lra|reflexivity]. Qed.

Lemma round_half_even_near (x : R) (k : Z) :
  (IZR k <= x < IZR k + 1 / 2)%R -> round_half_even x = k.
Proof.
  intros [Hl Hh]. unfold round_half_even.
  assert (E : Int_part x = k) by (symmetry; apply Int_part_spec; lra).
  rewrite E. destruct (Rlt_dec (x - IZR k) (1 / 2)); [reflexivity|lra].
Qed.

Lemma fmt3_one : fmt3 (Rabs 1) = "1.000"%string.
Proof.
  unfold fmt3. rewrite Rabs_R1, (round_half_even_near _ 1000) by lra.
  reflexivity.
Qed.

Lemma fmt3_inv_sqrt2 : fmt3 (Rabs (1 / sqrt 2)) = "0.707"%string.
Proof.
  pose proof inv_sqrt2_sq as S. pose proof inv_sqrt2_bounds as B.
  unfold fmt3. rewrite Rabs_pos_eq by lra.
  rewrite (round_half_even_near _ 707) by nra.
  reflexivity.
Qed.


Lemma threshold_pos : (0 < threshold < 1 / 2)%R.
Proof. unfold threshold. lra. Qed.

Lemma round_one_qubit_one :
  mat_vec I_gate (mat_vec H_gate [0; 1]%R) = [1 / sqrt 2; - (1 / sqrt 2)]%R.
Proof.
  unfold H_gate. generalize (1 / sqrt 2)%R. intros h. cbn.
  repeat (f_equal; try ring).
Qed.

Lemma SV_braket_initial (self : simulator) :
  self_n self = 4%Z ->
  self_state self
  = StMatrix (col (basis (2 ^ 4) (bits_value (list_ascii_of_string "0000")))) ->
  SV_state_to_braket self = (Ok "(1.000)|0000⟩"%string, self).
Proof.
  intros Hn Hs. pose proof threshold_pos as T.
  unfold SV_state_to_braket, bind, get, lift. rewrite Hs, Hn. f_equal.
  change (col (basis (2 ^ 4) (bits_value (list_ascii_of_string "0000"))))
    with (col (1 :: repeat 0 15)%R).
  unfold where_nonzero_rows. cbn [col repeat map length seq combine filter fst snd].
  rewrite Rneqb_same, (Rneqb_diff 1 0) by lra.
  cbn [map concat app SV_braket_loop nth item rbind].
  rewrite (Rgtb_true 1 threshold), (Rneqb_diff 1 0) by lra.
  unfold braket_append. cbn [String.eqb negb]. rewrite fmt3_one. reflexivity.
Qed.

Lemma positive_skip (q : list bool) (x : R) (l : list (list bool * R)) :
  (x <= 0)%R ->
  filter (fun qx => Rgtb (snd qx) 0) ((q, x) :: l)
  = filter (fun qx => Rgtb (snd qx) 0) l.
Proof. intros H. cbn [filter snd]. now rewrite Rgtb_false. Qed.

Lemma positive_keep (q : list bool) (x : R) (l : list (list bool * R)) :
  (x > 0)%R ->
  filter (fun qx => Rgtb (snd qx) 0) ((q, x) :: l)
  = (q, x) :: filter (fun qx => Rgtb (snd qx) 0) l.
Proof. intros H. cbn [filter snd]. now rewrite Rgtb_true. Qed.

Lemma Tensor_braket_initial (self : simulator) :
  self_state self = StTensor (one_hot (map is_one (list_ascii_of_string "0000"))) ->
  Tensor_state_to_braket self = (Ok "(1.000)|0000⟩"%string, self).
Proof.
  intros Hs. pose proof threshold_pos as T.
  unfold Tensor_state_to_braket, bind, get, ret. rewrite Hs. f_equal. f_equal.
  cbn [list_ascii_of_string map is_one Ascii.eqb one_hot length tzeros indexed
       app fst snd Bool.eqb].
  rewrite positive_keep by lra. rewrite !positive_skip by lra.
  cbn [filter Tensor_braket_loop]. rewrite Rgtb_true by lra.
  unfold braket_append. cbn [String.eqb negb]. rewrite fmt3_one. reflexivity.
Qed.

Lemma SV_braket_minus (self : simulator) :
  self_n self = 1%Z ->
  self_state self = StMatrix (col [1 / sqrt 2; - (1 / sqrt 2)]%R) ->
  SV_state_to_braket self = (Ok "(0.707)|0⟩"%string, self).
Proof.
  intros Hn Hs. pose proof threshold_pos as T. pose proof inv_sqrt2_bounds as B.
  unfold SV_state_to_braket, bind, get, lift. rewrite Hs, Hn. f_equal.
  unfold where_nonzero_rows. cbn [col repeat map length seq combine filter fst snd].
  rewrite !Rneqb_diff by lra.
  cbn [map concat app SV_braket_loop nth item rbind].
  rewrite Rgtb_true, Rgtb_false by lra.
  rewrite Rneqb_diff, Rneqb_same by lra.
  unfold braket_append. cbn [String.eqb negb]. rewrite fmt3_inv_sqrt2. reflexivity.
Qed.

Lemma Tensor_braket_minus (self : simulator) :
  self_state self
  = StTensor (Axis (Scalar (1 / sqrt 2)%R) (Scalar (- (1 / sqrt 2))%R)) ->
  Tensor_state_to_braket self = (Ok "(0.707)|0⟩"%string, self).
Proof.
  intros Hs. pose proof threshold_pos as T. pose proof inv_sqrt2_bounds as B.
  unfold Tensor_state_to_braket, bind, get, ret. rewrite Hs. f_equal. f_equal.
  cbn [indexed map app fst snd].
  rewrite positive_keep, positive_skip by lra.
  cbn [filter Tensor_braket_loop]. rewrite Rgtb_true by lra.
  unfold braket_append. cbn [String.eqb negb]. rewrite fmt3_inv_sqrt2. reflexivity.
Qed.

(** C5, failing input. The initial rendering of four qubits on "0000"
    is "(1.000)|0000⟩" in both engines. But a position with a negative
    amplitude is never rendered: one qubit constructed on "1" is, after
    one round, in the state (|0> - |1>)/sqrt 2, and both engines render it
    as "(0.707)|0⟩", without the term of |1>. The dense engine keeps an
    amplitude only if [amplitude > 1e-10], the tensor engine only looks at
    [np.where(self.state > 0)]; neither takes the magnitude, so the branch
    that writes '-' is never reached. *)
Theorem negative_amplitudes_are_omitted :
  (exists sv g tv g',
      GateSVSimulator_init numpy_prefix (PyInt 4) (PyStr "0000") (PyInt 42) []
      = (Ok sv, g)
      /\ GateTensorSimulator_init numpy_prefix (PyInt 4) (PyStr "0000") (PyInt 42) []
         = (Ok tv, g')
      /\ SV_state_to_braket sv = (Ok "(1.000)|0000⟩"%string, sv)
      /\ Tensor_state_to_braket tv = (Ok "(1.000)|0000⟩"%string, tv))
  /\ (exists sv g sv' g1 tv g' tv' g2,
      GateSVSimulator_init numpy_prefix (PyInt 1) (PyStr "1") (PyInt 42) []
      = (Ok sv, g)
      /\ SV_round numpy_prefix 5 (g, sv) = (Ok tt, (g1, sv'))
      /\ self_state sv' = StMatrix (col [1 / sqrt 2; - (1 / sqrt 2)]%R)
      /\ SV_state_to_braket sv' = (Ok "(0.707)|0⟩"%string, sv')
      /\ GateTensorSimulator_init numpy_prefix (PyInt 1) (PyStr "1") (PyInt 42) []
         = (Ok tv, g')
      /\ Tensor_round numpy_prefix 5 (g', tv) = (Ok tt, (g2, tv'))
      /\ self_state tv'
         = StTensor (Axis (Scalar (1 / sqrt 2)%R) (Scalar (- (1 / sqrt 2))%R))
      /\ Tensor_state_to_braket tv' = (Ok "(0.707)|0⟩"%string, tv')).
Proof.
  assert (U : usable_seed 42) by (unfold usable_seed; lia).
  split.
  - do 4 eexists.
    split; [exact (GateSVSimulator_init_value numpy_prefix 4 "0000" 42 []
                     ltac:(lia) eq_refl eq_refl U)|].
    split; [exact (GateTensorSimulator_init_value numpy_prefix 4 "0000" 42 []
                     ltac:(lia) eq_refl eq_refl U)|].
    split; [now apply SV_braket_initial|now apply Tensor_braket_initial].
  - assert (Sv : mat_vec I_gate
                   (mat_vec H_gate (basis (2 ^ 1) (bits_value (list_ascii_of_string "1"))))
                 = [1 / sqrt 2; - (1 / sqrt 2)]%R) by exact round_one_qubit_one.
    assert (Tv : reshape_aux 1
                   (mat_vec I_gate
                      (mat_vec H_gate
                         (flatten (one_hot (map is_one (list_ascii_of_string "1"))))))
                 = Axis (Scalar (1 / sqrt 2)%R) (Scalar (- (1 / sqrt 2))%R)).
    { change (flatten (one_hot (map is_one (list_ascii_of_string "1"))))
        with [0; 1]%R.
      now rewrite round_one_qubit_one. }
    do 8 eexists.
    split; [exact (GateSVSimulator_init_value numpy_prefix 1 "1" 42 []
                     ltac:(lia) eq_refl eq_refl U)|].
    split; [eapply SV_round_single; [reflexivity|reflexivity|reflexivity]|].
    split; [cbn [self_state set_state]; now rewrite Sv|].
    split; [apply SV_braket_minus; [reflexivity|cbn [self_state set_state];
                                                 now rewrite Sv]|].
    split; [exact (GateTensorSimulator_init_value numpy_prefix 1 "1" 42 []
                     ltac:(lia) eq_refl eq_refl U)|].
    split; [eapply Tensor_round_single;
            [reflexivity|reflexivity|apply (perfect_one_hot [true])]|].
    split; [cbn [self_state set_state]; now rewrite Tv|].
    apply Tensor_braket_minus. cbn [self_state set_state]. now rewrite Tv.
Qed.

(** ** Expectation values *)

Section Expectation.
Context {A : Type} {N : Num A} {L : NumLaws A}.

Add Ring num_ring_expectation : (num_ring (A:=A)).

Lemma shaped_power (G : matrix A) (n : nat) :
  shaped 2 2 G -> shaped (2 ^ n) (2 ^ n) (kronecker_product (repeat G n)).
Proof.
  intros HG. induction n as [|n IH].
  - cbn. split; [reflexivity|]. repeat constructor.
  - cbn [repeat]. rewrite kronecker_product_cons, Nat.pow_succ_r'.
    now apply shaped_kron.
Qed.

(** [state.T] for the one-row [state]. *)
Lemma transpose_row (v : list A) : transpose [v] = col v.
Proof.
  unfold transpose, cols. cbn [hd].
  induction v as [|x v IH]; [reflexivity|].
  cbn [length transpose_aux map hd tl col]. f_equal. exact IH.
Qed.

(** [state @ Gate_n @ state.T] is the 1 x 1 array of the bilinear form. *)
Lemma expectation_value (of_real : R -> A) (real : A -> R) (G : matrix A)
      (n : nat) (flat : list R) :
  shaped 2 2 G -> length flat = (2 ^ n)%nat ->
  expectation of_real real G (Z.of_nat n) flat
  = Ok (real (dot (map of_real flat)
                  (mat_vec (kronecker_product (repeat G n)) (map of_real flat)))).
Proof.
  intros HG Hflat. unfold expectation. rewrite Nat2Z.id.
  pose proof (shaped_power G n HG) as HS.
  set (Gn := kronecker_product (repeat G n)) in *.
  set (v := map of_real flat).
  assert (Hv : length v = (2 ^ n)%nat) by (unfold v; now rewrite length_map).
  destruct (pow2_pos n) as [k Hk]. rewrite Hk in *.
  unfold matmul at 1. unfold cols at 1, rows at 1. cbn [hd].
  rewrite Hv, (proj1 HS), Nat.eqb_refl. cbn [rbind].
  unfold mmul at 1. cbn [map].
  unfold matmul, cols, rows. cbn [hd].
  rewrite length_map, transpose_row.
  unfold transpose at 1. rewrite length_transpose_aux, (shaped_cols _ _ _ HS).
  unfold col at 1. rewrite length_map, Hv, Nat.eqb_refl. cbn [rbind].
  unfold mmul. cbn [map].
  destruct v as [|x v]; [discriminate|].
  rewrite transpose_col. cbn [map flatten2 concat app item rbind].
  f_equal. f_equal. unfold transpose. rewrite (shaped_cols _ _ _ HS).
  apply dot_transpose; [exact (proj2 HS)|exact Hv].
Qed.

End Expectation.

Lemma norm2_nonneg (v : list R) : (0 <= norm2 v)%R.
Proof.
  induction v as [|x v IH]; [unfold norm2, dot; cbn; lra|].
  rewrite norm2_cons. nra.
Qed.

(** Twice a dot product is at most the sum of the squared norms. *)
Lemma dot_bound (u v : list R) :
  (- (norm2 u + norm2 v) <= 2 * dot u v <= norm2 u + norm2 v)%R.
Proof.
  revert v. induction u as [|x u IH]; intros v.
  - pose proof (norm2_nonneg v).
    change (norm2 []) with 0%R. change (dot [] v) with 0%R. lra.
  - destruct v as [|y v].
    + pose proof (norm2_nonneg (x :: u)). rewrite dot_nil_r.
      change (norm2 []) with 0%R. cbn [zero Num_R]. lra.
    + rewrite dot_cons, !norm2_cons. specialize (IH v). cbn [add mul Num_R].
      pose proof (Rle_0_sqr (x - y)) as S1. pose proof (Rle_0_sqr (x + y)) as S2.
      unfold Rsqr in S1, S2. lra.
Qed.

Lemma orthogonal2_Z : orthogonal2 Z_gate.
Proof. exists 1%R, 0%R, 0%R, (-1)%R. repeat split; lra. Qed.

Lemma orthogonal2_repeat (g : matrix R) (n : nat) :
  orthogonal2 g -> Forall orthogonal2 (repeat g n).
Proof. intros H. induction n; cbn; constructor; auto. Qed.



(** *** The Pauli-Y gate: [Y = i W] for the real rotation [W] *)

Definition W_gate : matrix R := [[0; -1]; [1; 0]]%R.

(** [c * x] for a complex [c] and a real [x]. *)
Definition Cscale (c : C) (x : R) : C := Cmul c (RtoC x).

Fixpoint Cpow (c : C) (n : nat) : C :=
  match n with
  | O => RtoC 1
  | S n' => Cmul c (Cpow c n')
  end.

Ltac complex_ring :=
  unfold Cscale, Cmul, Cadd, RtoC, Ci; cbn [fst snd]; f_equal; ring.

Lemma orthogonal2_W : orthogonal2 W_gate.
Proof. exists 0%R, (-1)%R, 1%R, 0%R. repeat split; lra. Qed.

Lemma Cscale_i (x : R) : Cscale Ci x = (0, x)%R.
Proof. unfold Cscale, Cmul, RtoC, Ci. cbn [fst snd]. f_equal; ring. Qed.

Lemma Y_gate_scaled : Y_gate = map (map (Cscale Ci)) W_gate.
Proof.
  unfold Y_gate, W_gate. cbn [map]. now rewrite !Cscale_i.
Qed.

Lemma Cscale_mul (c d : C) (a b : R) :
  Cmul (Cscale c a) (Cscale d b) = Cscale (Cmul c d) (a * b).
Proof. destruct c, d. complex_ring. Qed.

Lemma Cscale_add (c : C) (a b : R) :
  Cadd (Cscale c a) (Cscale c b) = Cscale c (a + b).
Proof. destruct c. complex_ring. Qed.

Lemma kron_row_scaled (c d : C) (ra rb : list R) :
  kron_row (map (Cscale c) ra) (map (Cscale d) rb)
  = map (Cscale (Cmul c d)) (kron_row ra rb).
Proof.
  unfold kron_row. induction ra as [|a ra IH]; [reflexivity|].
  cbn [map flat_map]. rewrite map_app, IH. f_equal.
  rewrite !map_map. apply map_ext. intros b. apply Cscale_mul.
Qed.

Lemma kron_scaled (c d : C) (M P : matrix R) :
  kron (map (map (Cscale c)) M) (map (map (Cscale d)) P)
  = map (map (Cscale (Cmul c d))) (kron M P).
Proof.
  unfold kron. induction M as [|ra M IH]; [reflexivity|].
  cbn [map flat_map]. rewrite map_app, IH. f_equal.
  rewrite !map_map. apply map_ext. intros rb. apply kron_row_scaled.
Qed.

Lemma power_Y (n : nat) :
  kronecker_product (repeat Y_gate n)
  = map (map (Cscale (Cpow Ci n))) (kronecker_product (repeat W_gate n)).
Proof.
  induction n as [|n IH].
  - cbn. repeat f_equal. complex_ring.
  - cbn [repeat Cpow]. rewrite !kronecker_product_cons, IH, Y_gate_scaled.
    apply kron_scaled.
Qed.

Lemma dot_scaled_l (c : C) (row v : list R) :
  dot (map (Cscale c) row) (map RtoC v) = Cscale c (dot row v).
Proof.
  revert v. induction row as [|a row IH]; intros v.
  - cbn. destruct c. complex_ring.
  - destruct v as [|b v].
    + cbn [map]. rewrite !dot_nil_r. destruct c. cbn. complex_ring.
    + cbn [map]. rewrite !dot_cons, IH. cbn [add mul Num_C Num_R].
      rewrite <- Cscale_add. f_equal. destruct c. complex_ring.
Qed.

Lemma dot_scaled_r (c : C) (u w : list R) :
  dot (map RtoC u) (map (Cscale c) w) = Cscale c (dot u w).
Proof.
  revert w. induction u as [|a u IH]; intros w.
  - cbn. destruct c. complex_ring.
  - destruct w as [|b w].
    + cbn [map]. rewrite !dot_nil_r. destruct c. cbn. complex_ring.
    + cbn [map]. rewrite !dot_cons, IH. cbn [add mul Num_C Num_R].
      rewrite <- Cscale_add. f_equal. destruct c. complex_ring.
Qed.

Lemma mat_vec_scaled (c : C) (M : matrix R) (v : list R) :
  mat_vec (map (map (Cscale c)) M) (map RtoC v) = map (Cscale c) (mat_vec M v).
Proof.
  unfold mat_vec. rewrite !map_map. apply map_ext. intros row. apply dot_scaled_l.
Qed.


(** The form of [Y] on a real state is the form of [W] times [i^n]. *)
Lemma power_form_Y (n : nat) (v : list R) :
  Re (dot (map RtoC v) (mat_vec (kronecker_product (repeat Y_gate n)) (map RtoC v)))
  = (Re (Cpow Ci n) * dot v (mat_vec (kronecker_product (repeat W_gate n)) v))%R.
Proof.
  rewrite power_Y, mat_vec_scaled, dot_scaled_r.
  unfold Re, Cscale, Cmul, RtoC. cbn [fst snd]. ring.
Qed.


(** The two-qubit dense simulator in the state |00>. *)
Definition two_qubits_00 : simulator :=
  {| self_n := 2; self_seed := 42;
     self_state := StMatrix (col [1; 0; 0; 0]%R) |}.


(** * Further properties of the code *)

(** ** [to_bin] and the integer of a bitstring *)

Lemma list_ascii_app (a b : string) :
  list_ascii_of_string (a ++ b) = list_ascii_of_string a ++ list_ascii_of_string b.
Proof. induction a as [|c a IH]; cbn; [reflexivity|now rewrite IH]. Qed.

Lemma string_length_app (a b : string) :
  String.length (a ++ b) = (String.length a + String.length b)%nat.
Proof. induction a as [|c a IH]; cbn; [reflexivity|now rewrite IH]. Qed.

Lemma length_zeros (k : nat) : String.length (zeros k) = k.
Proof. induction k as [|k IH]; cbn; [reflexivity|now rewrite IH]. Qed.

Lemma list_ascii_zeros (k : nat) :
  list_ascii_of_string (zeros k) = repeat "0"%char k.
Proof. induction k as [|k IH]; cbn; [reflexivity|now rewrite IH]. Qed.

Lemma bools_value_app (l1 l2 : list bool) :
  bools_value (l1 ++ l2) = (bools_value l1 * 2 ^ length l2 + bools_value l2)%nat.
Proof.
  unfold bools_value. rewrite fold_left_app. apply fold_value_from.
Qed.

Lemma bits_value_app (l1 l2 : list ascii) :
  bits_value (l1 ++ l2) = (bits_value l1 * 2 ^ length l2 + bits_value l2)%nat.
Proof.
  rewrite !bits_value_bools, map_app, bools_value_app. now rewrite length_map.
Qed.

Lemma bits_value_zeros (k : nat) : bits_value (repeat "0"%char k) = O.
Proof.
  induction k as [|k IH]; [reflexivity|].
  change (repeat "0"%char (S k)) with (["0"%char] ++ repeat "0"%char k).
  rewrite bits_value_app, IH. reflexivity.
Qed.

Lemma forallb_bits_zeros (k : nat) : forallb is_bit_char (repeat "0"%char k) = true.
Proof. induction k as [|k IH]; cbn; auto. Qed.

(** [bin(p)[2:]] is the binary numeral of [p]. *)
Lemma bin_pos_bits (p : positive) :
  forallb is_bit_char (list_ascii_of_string (bin_pos p)) = true
  /\ bits_value (list_ascii_of_string (bin_pos p)) = Pos.to_nat p.
Proof.
  induction p as [p [IH1 IH2]|p [IH1 IH2]|]; cbn [bin_pos].
  - rewrite list_ascii_app, forallb_app, bits_value_app, IH1, IH2.
    split; [reflexivity|]. rewrite Pos2Nat.inj_xI. cbn. lia.
  - rewrite list_ascii_app, forallb_app, bits_value_app, IH1, IH2.
    split; [reflexivity|]. rewrite Pos2Nat.inj_xO. cbn. lia.
  - split; reflexivity.
Qed.

Lemma bin_pos_length (p : positive) (n : nat) :
  (Pos.to_nat p < 2 ^ n)%nat -> (String.length (bin_pos p) <= n)%nat.
Proof.
  revert n. induction p as [p IH|p IH|]; intros n H; cbn [bin_pos].
  - destruct n as [|n]; [cbn in H; lia|].
    rewrite Pos2Nat.inj_xI, Nat.pow_succ_r' in H.
    rewrite string_length_app. specialize (IH n). cbn. lia.
  - destruct n as [|n]; [cbn in H; lia|].
    rewrite Pos2Nat.inj_xO, Nat.pow_succ_r' in H.
    rewrite string_length_app. specialize (IH n). cbn. lia.
  - destruct n as [|n]; [cbn in H; lia|]. cbn. lia.
Qed.

Lemma bin_tail_bits (d : Z) :
  (0 <= d)%Z ->
  forallb is_bit_char (list_ascii_of_string (bin_tail d)) = true
  /\ bits_value (list_ascii_of_string (bin_tail d)) = Z.to_nat d.
Proof.
  intros H. destruct d as [|p|p]; [split; reflexivity| |lia].
  cbn [bin_tail]. rewrite Z2Nat.inj_pos. apply bin_pos_bits.
Qed.

Lemma bin_tail_length (d : Z) (n : nat) :
  (0 <= d < 2 ^ Z.of_nat n)%Z -> (1 <= n)%nat ->
  (String.length (bin_tail d) <= n)%nat.
Proof.
  intros [H0 H1] Hn. destruct d as [|p|p]; [cbn; lia| |lia].
  cbn [bin_tail]. apply bin_pos_length.
  apply Nat2Z.inj_lt. rewrite positive_nat_Z, Nat2Z.inj_pow. exact H1.
Qed.

Lemma zfill_bits (d : Z) (width : Z) :
  (0 <= d)%Z ->
  forallb is_bit_char (list_ascii_of_string (zfill (bin_tail d) width)) = true
  /\ bits_value (list_ascii_of_string (zfill (bin_tail d) width)) = Z.to_nat d.
Proof.
  intros H. destruct (bin_tail_bits d H) as [B V]. unfold zfill.
  rewrite list_ascii_app, list_ascii_zeros, forallb_app, bits_value_app.
  rewrite forallb_bits_zeros, bits_value_zeros, B, V. split; [reflexivity|lia].
Qed.

(** X1. For an integer [dec >= 0], [to_bin] returns a string of '0's and
    '1's that denotes [dec] in binary, most significant bit first, and
    leaves the simulator as it is. The string has at least [self.n]
    characters, and exactly [self.n] when [dec < 2^n] for [n >= 1]: larger
    values are not truncated. *)
Theorem to_bin_denotes (self : simulator) (dec : Z) :
  (0 <= dec)%Z ->
  exists s,
    to_bin dec self = (Ok s, self)
    /\ forallb is_bit_char (list_ascii_of_string s) = true
    /\ bits_value (list_ascii_of_string s) = Z.to_nat dec
    /\ (Z.to_nat (self_n self) <= String.length s)%nat
    /\ ((1 <= self_n self)%Z -> (dec < 2 ^ self_n self)%Z ->
        String.length s = Z.to_nat (self_n self)).
Proof.
  intros H. exists (zfill (bin_tail dec) (self_n self)).
  destruct (zfill_bits dec (self_n self) H) as [B V].
  split; [reflexivity|]. split; [exact B|]. split; [exact V|].
  unfold zfill. rewrite string_length_app, length_zeros. split; [lia|].
  intros Hn Hd.
  pose proof (bin_tail_length dec (Z.to_nat (self_n self))) as L.
  rewrite Z2Nat.id in L by lia. specialize (L (conj H Hd)). lia.
Qed.

(** X1 at [dec = 5] on four qubits: "0101". *)
Lemma to_bin_denotes_witness :
  exists s,
    to_bin 5 {| self_n := 4; self_seed := 42; self_state := StNone |}
    = (Ok s, {| self_n := 4; self_seed := 42; self_state := StNone |})
    /\ forallb is_bit_char (list_ascii_of_string s) = true
    /\ bits_value (list_ascii_of_string s) = Z.to_nat 5
    /\ (Z.to_nat 4 <= String.length s)%nat
    /\ ((1 <= 4)%Z -> (5 < 2 ^ 4)%Z -> String.length s = Z.to_nat 4).
Proof.
  apply (to_bin_denotes {| self_n := 4; self_seed := 42; self_state := StNone |} 5).
  lia.
Defined.

Lemma bools_value_inj (l1 l2 : list bool) :
  length l1 = length l2 -> bools_value l1 = bools_value l2 -> l1 = l2.
Proof.
  intros Hlen Hval. apply (nth_ext l1 l2 false false Hlen). intros k Hk.
  pose proof (testbit_bools_value l1 (length l1 - 1 - k)) as T1.
  pose proof (testbit_bools_value l2 (length l1 - 1 - k)) as T2.
  rewrite Hval in T1. rewrite T1 in T2. rewrite <- Hlen in T2.
  destruct (Nat.ltb_spec (length l1 - 1 - k) (length l1)) as [_|]; [|lia].
  replace (length l1 - 1 - (length l1 - 1 - k))%nat with k in T2 by lia.
  exact T2.
Qed.

Lemma bit_chars_by_is_one (l1 l2 : list ascii) :
  forallb is_bit_char l1 = true -> forallb is_bit_char l2 = true ->
  map is_one l1 = map is_one l2 -> l1 = l2.
Proof.
  revert l2. induction l1 as [|c1 l1 IH]; intros [|c2 l2] H1 H2 E;
    try discriminate; [reflexivity|].
  cbn in H1, H2, E. apply andb_true_iff in H1, H2.
  destruct H1 as [C1 H1], H2 as [C2 H2]. injection E as Ec E.
  f_equal; [|now apply IH].
  unfold is_bit_char, is_one in *. apply orb_true_iff in C1, C2.
  destruct C1 as [C1|C1], C2 as [C2|C2];
    apply Ascii.eqb_eq in C1, C2; subst; try reflexivity; discriminate.
Qed.

(** The padded binary numeral of the integer of a bitstring is the
    bitstring. *)
Lemma zfill_of_bitstring (chars : list ascii) :
  forallb is_bit_char chars = true -> (1 <= length chars)%nat ->
  zfill (bin_tail (Z.of_nat (bits_value chars))) (Z.of_nat (length chars))
  = string_of_list_ascii chars.
Proof.
  intros Hbits Hlen.
  pose proof (bits_value_bound chars) as Hbound.
  assert (H0 : (0 <= Z.of_nat (bits_value chars))%Z) by lia.
  destruct (zfill_bits _ (Z.of_nat (length chars)) H0) as [B V].
  rewrite Nat2Z.id in V.
  assert (L : String.length (zfill (bin_tail (Z.of_nat (bits_value chars)))
                                   (Z.of_nat (length chars)))
              = length chars).
  { pose proof (bin_tail_length (Z.of_nat (bits_value chars)) (length chars)) as L.
    apply Nat2Z.inj_lt in Hbound. rewrite Nat2Z.inj_pow in Hbound.
    specialize (L (conj H0 Hbound) Hlen).
    unfold zfill. rewrite string_length_app, length_zeros, Nat2Z.id. lia. }
  rewrite <- (string_of_list_ascii_of_string (zfill _ _)). f_equal.
  apply bit_chars_by_is_one; [exact B|exact Hbits|].
  apply bools_value_inj.
  - now rewrite !length_map, length_list_ascii.
  - now rewrite <- !bits_value_bools.
Qed.

(** X2. On a simulator of [n >= 1] qubits, [to_bin] gives back every
    bitstring of [n] characters '0' and '1' from the integer it denotes. *)
Theorem to_bin_of_bitstring (self : simulator) (chars : list ascii) :
  forallb is_bit_char chars = true ->
  (1 <= length chars)%nat -> self_n self = Z.of_nat (length chars) ->
  to_bin (Z.of_nat (bits_value chars)) self = (Ok (string_of_list_ascii chars), self).
Proof.
  intros Hbits Hlen Hn. unfold to_bin, bind, get, ret.
  rewrite Hn. f_equal. f_equal. now apply zfill_of_bitstring.
Qed.

(** X2 at "0110" on four qubits. *)
Lemma to_bin_of_bitstring_witness :
  to_bin (Z.of_nat (bits_value (list_ascii_of_string "0110")))
         {| self_n := 4; self_seed := 42; self_state := StNone |}
  = (Ok (string_of_list_ascii (list_ascii_of_string "0110")),
     {| self_n := 4; self_seed := 42; self_state := StNone |}).
Proof.
  apply (to_bin_of_bitstring {| self_n := 4; self_seed := 42; self_state := StNone |}
           (list_ascii_of_string "0110")).
  - reflexivity.
  - simpl. lia.
  - reflexivity.
Defined.

(** ** [kronecker_product] *)

Section KroneckerProducts.
Context {A : Type} {N : Num A} {L : NumLaws A}.

Add Ring num_ring_kronecker : (num_ring (A:=A)).

(** X3. [kronecker_product] of the arguments [args1] followed by
    [args2] is [np.kron] of the two partial products; of no argument it is
    the 1 x 1 array [[1]] and of one argument the argument itself. *)
Theorem kronecker_product_app (args1 args2 : list (matrix A)) (M : matrix A) :
  kronecker_product (args1 ++ args2)
  = kron (kronecker_product args1) (kronecker_product args2)
  /\ kronecker_product (A:=A) [] = [[one]]
  /\ kronecker_product [M] = M.
Proof.
  split; [|split].
  - unfold kronecker_product at 1. rewrite fold_left_app.
    rewrite (fold_left_kron args2). reflexivity.
  - reflexivity.
  - unfold kronecker_product. cbn [fold_left]. apply kron_one_l.
Qed.

(** X4. When every argument is a rectangular array, the result of
    [kronecker_product] has as many rows as the product of the arguments'
    row counts and as many columns as the product of their column counts. *)
Theorem kronecker_product_shape (args : list (matrix A)) :
  Forall (fun M => shaped (rows M) (cols M) M) args ->
  shaped (fold_right Nat.mul 1%nat (map rows args))
         (fold_right Nat.mul 1%nat (map cols args))
         (kronecker_product args).
Proof.
  induction 1 as [|M args HM _ IH].
  - cbn. split; [reflexivity|]. repeat constructor.
  - rewrite kronecker_product_cons. cbn [map fold_right].
    now apply shaped_kron.
Qed.

End KroneckerProducts.

(** X3 over the reals, at the Hadamard gate followed by the X and Z
    gates. *)
Lemma kronecker_product_app_witness :
  kronecker_product ([H_gate] ++ [X_gate; Z_gate])
  = kron (kronecker_product [H_gate]) (kronecker_product [X_gate; Z_gate])
  /\ kronecker_product (A:=R) [] = [[one]]
  /\ kronecker_product [H_gate] = H_gate.
Proof.
  apply (kronecker_product_app [H_gate] [X_gate; Z_gate] H_gate).
Defined.

(** X4 at the Hadamard gate followed by a 2 x 1 column. *)
Lemma kronecker_product_shape_witness :
  shaped (fold_right Nat.mul 1%nat (map rows [H_gate; col [1; 0]%R]))
         (fold_right Nat.mul 1%nat (map cols [H_gate; col [1; 0]%R]))
         (kronecker_product [H_gate; col [1; 0]%R]).
Proof.
  apply (kronecker_product_shape [H_gate; col [1; 0]%R]).
  repeat constructor.
Defined.

(** X5. [kronecker_product] acts factor by factor on a tensor product of
    vectors: when each array has as many columns as its vector has entries,
    the product applied to [v1 x ... x vk] is [(M1 v1) x ... x (Mk vk)]. *)
Theorem kronecker_product_on_product (args : list (matrix R)) (vs : list (list R)) :
  Forall2 (fun M v => Forall (fun row => length row = length v) M) args vs ->
  mat_vec (kronecker_product args) (kron_vecs vs)
  = kron_vecs (zip_with mat_vec args vs).
Proof.
  intros H. unfold kronecker_product, kron_vecs.
  rewrite (mat_vec_fold_kron args vs [[1%R]] [1%R] H).
  f_equal. unfold mat_vec, dot. cbn. f_equal. ring.
Qed.

(** X5 at [H x X] on [|0> x |1>]. *)
Lemma kronecker_product_on_product_witness :
  mat_vec (kronecker_product [H_gate; X_gate]) (kron_vecs [ket false; ket true])
  = kron_vecs (zip_with mat_vec [H_gate; X_gate] [ket false; ket true]).
Proof.
  apply (kronecker_product_on_product [H_gate; X_gate] [ket false; ket true]).
  repeat constructor.
Defined.

(** ** [CX]: bounds and negative indices *)

(** The list position that [args[-1 - q]] denotes in a list of [len]
    arguments: [len - 1 - q] for [q >= 0], and, Python indices counting from
    the end when negative, [-1 - q] for [q < 0]. *)
Definition position (len : nat) (q : Z) : nat :=
  if (q <? 0)%Z then Z.to_nat (-1 - q) else (len - 1 - Z.to_nat q)%nat.

Lemma list_set_position {A : Type} (l : list A) (q : Z) (v : A) :
  (- Z.of_nat (length l) <= q < Z.of_nat (length l))%Z ->
  list_set l (-1 - q) v = Ok (replace_nth (position (length l) q) v l).
Proof.
  intros H. unfold position. destruct (Z.ltb_spec q 0) as [Hq|Hq].
  - unfold list_set, py_index.
    replace (0 <=? -1 - q)%Z with true by (symmetry; apply Z.leb_le; lia).
    replace (-1 - q <? Z.of_nat (length l))%Z with true
      by (symmetry; apply Z.ltb_lt; lia).
    reflexivity.
  - apply list_set_back. lia.
Qed.

Lemma list_set_outside {A : Type} (l : list A) (q : Z) (v : A) :
  (q < - Z.of_nat (length l))%Z ->
  list_set l (-1 - q) v = Raise (IndexError "list assignment index out of range").
Proof.
  intros H. unfold list_set, py_index.
  replace (-1 - q <? Z.of_nat (length l))%Z with false
    by (symmetry; apply Z.ltb_ge; lia).
  replace (-1 - q <? 0)%Z with false by (symmetry; apply Z.ltb_ge; lia).
  now rewrite !andb_false_r.
Qed.

Lemma CX_checks_passed (self : simulator) (control target : Z) :
  (control < self_n self)%Z -> (target < self_n self)%Z ->
  ((control >=? self_n self)%Z || (target >=? self_n self)%Z) = false.
Proof.
  intros Hc Ht.
  replace (control >=? self_n self)%Z with false
    by (symmetry; rewrite Z.geb_leb; apply Z.leb_gt; lia).
  replace (target >=? self_n self)%Z with false
    by (symmetry; rewrite Z.geb_leb; apply Z.leb_gt; lia).
  reflexivity.
Qed.

(** The value of [CX] for indices that the list assignments accept. *)
Lemma CX_value_position (self : simulator) (control target : Z) :
  (- self_n self <= control < self_n self)%Z ->
  (- self_n self <= target < self_n self)%Z ->
  control <> target ->
  CX control target self
  = (Ok (madd (kronecker_product
                 (zero_args (Z.to_nat (self_n self))
                            (position (Z.to_nat (self_n self)) control)))
              (kronecker_product
                 (one_args (Z.to_nat (self_n self))
                           (position (Z.to_nat (self_n self)) control)
                           (position (Z.to_nat (self_n self)) target)))),
     self).
Proof.
  intros Hc Ht Hne. unfold CX. rewrite bind_get.
  rewrite CX_checks_passed by lia.
  replace (control =? target)%Z with false by (symmetry; apply Z.eqb_neq; lia).
  rewrite !bind_initialize_state by reflexivity. cbn [list_ascii_of_string].
  rewrite matmul_P0, bind_lift_ok.
  rewrite list_set_position, repeat_length, bind_lift_ok by (rewrite repeat_length; lia).
  rewrite !bind_initialize_state by reflexivity. cbn [list_ascii_of_string].
  rewrite matmul_P1, bind_lift_ok.
  rewrite list_set_position, repeat_length, bind_lift_ok by (rewrite repeat_length; lia).
  rewrite list_set_position, length_replace_nth, repeat_length, bind_lift_ok
    by (rewrite length_replace_nth, repeat_length; lia).
  reflexivity.
Qed.

(** X6. The outcomes of [CX(control, target)] on [n = self.n] qubits,
    none of which changes the simulator. It raises the out-of-bounds
    [Exception] exactly when [control >= n] or [target >= n]. Below that,
    equal indices give the tensor product of [n] identities, also when they
    are negative. Different indices below [n] raise [IndexError] (from the
    list assignment) when one of them is less than [-n], and otherwise give
    a [2^n] x [2^n] array: indices from [-n] to [-1] are accepted. *)
Theorem CX_outcomes (self : simulator) (control target : Z) :
  ((self_n self <= control)%Z \/ (self_n self <= target)%Z ->
   CX control target self
   = (Raise (Exception_ ("Control or target is out of bounds for "
                         ++ str_int (self_n self) ++ " qubits")), self))
  /\ ((control < self_n self)%Z -> (target < self_n self)%Z -> control = target ->
      CX control target self
      = (Ok (kronecker_product (repeat I_gate (Z.to_nat (self_n self)))), self))
  /\ ((control < self_n self)%Z -> (target < self_n self)%Z -> control <> target ->
      (control < - self_n self)%Z \/ (target < - self_n self)%Z ->
      CX control target self
      = (Raise (IndexError "list assignment index out of range"), self))
  /\ ((- self_n self <= control < self_n self)%Z ->
      (- self_n self <= target < self_n self)%Z -> control <> target ->
      exists cx,
        CX control target self = (Ok cx, self)
        /\ shaped (2 ^ Z.to_nat (self_n self)) (2 ^ Z.to_nat (self_n self)) cx).
Proof.
  split; [|split; [|split]].
  - intros H. unfold CX. rewrite bind_get.
    assert (E : ((control >=? self_n self)%Z || (target >=? self_n self)%Z) = true).
    { apply orb_true_iff. rewrite !Z.geb_leb.
      destruct H as [H|H]; [left|right]; apply Z.leb_le; exact H. }
    now rewrite E.
  - intros Hc Ht ->. unfold CX. rewrite bind_get.
    rewrite CX_checks_passed by assumption. now rewrite Z.eqb_refl.
  - intros Hc Ht Hne Hlow. unfold CX. rewrite bind_get.
    rewrite CX_checks_passed by assumption.
    replace (control =? target)%Z with false by (symmetry; apply Z.eqb_neq; lia).
    rewrite !bind_initialize_state by reflexivity. cbn [list_ascii_of_string].
    rewrite matmul_P0, bind_lift_ok.
    destruct (Z.lt_ge_cases control (- self_n self)) as [Hlo|Hhi].
    + rewrite list_set_outside by (rewrite repeat_length; lia). reflexivity.
    + assert (Hn : (0 < self_n self)%Z) by lia.
      rewrite list_set_position, repeat_length, bind_lift_ok
        by (rewrite repeat_length; lia).
      rewrite !bind_initialize_state by reflexivity. cbn [list_ascii_of_string].
      rewrite matmul_P1, bind_lift_ok.
      rewrite list_set_position, repeat_length, bind_lift_ok
        by (rewrite repeat_length; lia).
      rewrite list_set_outside by (rewrite length_replace_nth, repeat_length; lia).
      reflexivity.
  - intros Hc Ht Hne. eexists. split; [now apply CX_value_position|].
    apply shaped_CX_matrix.
Qed.

Lemma position_mod (n : nat) (q : Z) :
  (- Z.of_nat n <= q < Z.of_nat n)%Z ->
  position n (q mod Z.of_nat n) = position n q.
Proof.
  intros H. unfold position.
  destruct (Z.ltb_spec q 0) as [Hq|Hq].
  - replace (q mod Z.of_nat n)%Z with (q + Z.of_nat n)%Z.
    + destruct (Z.ltb_spec (q + Z.of_nat n) 0); lia.
    + apply Z.mod_unique with (q := (-1)%Z); lia.
  - rewrite Z.mod_small by lia.
    destruct (Z.ltb_spec q 0); [lia|reflexivity].
Qed.

(** X7. [CX] takes a negative index as Python lists do: for [control]
    and [target] from [-n] to [n - 1] that denote different qubits,
    [CX(control, target)] is [CX(control mod n, target mod n)], so [-1] is
    the last qubit [n - 1]. *)
Theorem CX_negative_indices (self : simulator) (control target : Z) :
  (- self_n self <= control < self_n self)%Z ->
  (- self_n self <= target < self_n self)%Z ->
  (control mod self_n self <> target mod self_n self)%Z ->
  CX control target self
  = CX (control mod self_n self) (target mod self_n self) self.
Proof.
  intros Hc Ht Hne.
  assert (Hn : (0 < self_n self)%Z) by lia.
  pose proof (Z.mod_pos_bound control (self_n self) Hn) as Bc.
  pose proof (Z.mod_pos_bound target (self_n self) Hn) as Bt.
  rewrite (CX_value_position self control target Hc Ht) by congruence.
  rewrite (CX_value_position self (control mod self_n self) (target mod self_n self))
    by lia.
  pose proof (position_mod (Z.to_nat (self_n self)) control) as Pc.
  pose proof (position_mod (Z.to_nat (self_n self)) target) as Pt.
  rewrite Z2Nat.id in Pc, Pt by lia.
  now rewrite Pc, Pt by lia.
Qed.

(** X7 on two qubits: [CX(-1, 0)] is [CX(1, 0)]. *)
Lemma CX_negative_indices_witness :
  CX (-1) 0 {| self_n := 2; self_seed := 42; self_state := StNone |}
  = CX ((-1) mod 2) (0 mod 2) {| self_n := 2; self_seed := 42; self_state := StNone |}.
Proof.
  apply (CX_negative_indices {| self_n := 2; self_seed := 42; self_state := StNone |}
           (-1) 0).
  - simpl. lia.
  - simpl. lia.
  - vm_compute. discriminate.
Defined.

(** ** Expectation values in a basis state *)

Lemma dot_fold_kron_row (us vs : list (list R)) (w1 w2 : list R) :
  Forall2 (fun u v => length u = length v) us vs ->
  dot (fold_left kron_row us w1) (fold_left kron_row vs w2)
  = (dot w1 w2 * fold_right Rmult 1 (zip_with dot us vs))%R.
Proof.
  intros H. revert w1 w2. induction H as [|u v us vs Huv _ IH]; intros w1 w2.
  - cbn [fold_left zip_with fold_right]. ring.
  - cbn [fold_left zip_with fold_right]. rewrite IH, dot_kron_row by exact Huv.
    cbn [mul Num_R]. ring.
Qed.

(** The inner product of two tensor products of vectors is the product of
    the inner products of the factors. *)
Lemma dot_kron_vecs (us vs : list (list R)) :
  Forall2 (fun u v => length u = length v) us vs ->
  dot (kron_vecs us) (kron_vecs vs) = fold_right Rmult 1%R (zip_with dot us vs).
Proof.
  intros H. unfold kron_vecs. rewrite (dot_fold_kron_row us vs [1%R] [1%R] H).
  unfold dot at 1. cbn. ring.
Qed.

Lemma zip_with_maps {X Y Z W : Type} (f : Y -> Z -> W) (g : X -> Y) (h : X -> Z)
      (l : list X) :
  zip_with f (map g l) (map h l) = map (fun x => f (g x) (h x)) l.
Proof. induction l as [|x l IH]; cbn; [reflexivity|now rewrite IH]. Qed.

Lemma ket_form (g : matrix R) (b : bool) :
  shaped 2 2 g -> dot (ket b) (mat_vec g (ket b)) = entry g b b.
Proof.
  intros H. destruct (shaped_2_2_eta g H) as (a & b' & c & d & ->).
  destruct b; unfold entry, dot, mat_vec; cbn; ring.
Qed.

(** The form of a tensor power in a basis state is the product of the
    diagonal entries that the bits select. *)
Lemma power_form_basis (g : matrix R) (bs : list bool) :
  shaped 2 2 g ->
  dot (basis (2 ^ length bs) (bools_value bs))
      (mat_vec (kronecker_product (repeat g (length bs)))
               (basis (2 ^ length bs) (bools_value bs)))
  = fold_right Rmult 1%R (map (fun b => entry g b b) bs).
Proof.
  intros Hg. rewrite <- kron_kets. unfold kronecker_product, kron_vecs at 2.
  rewrite mat_vec_fold_kron.
  - change (mat_vec [[one]] [1%R]) with (mat_vec [[1%R]] [1%R]). rewrite one_by_one.
    rewrite <- (length_map ket bs) at 1. rewrite zip_with_repeat, map_map.
    change (fold_left kron_row (map (fun x => mat_vec g (ket x)) bs) [1%R])
      with (kron_vecs (map (fun x => mat_vec g (ket x)) bs)).
    rewrite dot_kron_vecs.
    + rewrite zip_with_maps. f_equal. apply map_ext. intros b. now apply ket_form.
    + destruct Hg as [Hg _].
      induction bs as [|b bs IH]; cbn [map]; constructor; [|exact IH].
      rewrite length_mat_vec. now destruct b.
  - apply Forall2_rows_kets; [|now rewrite repeat_length].
    apply Forall_forall. intros M HM. apply repeat_spec in HM. now subst.
Qed.

Section ExpectationValues.
Variable n : nat.
Variable self : simulator.
Variable v : list R.
Hypothesis self_qubits : self_n self = Z.of_nat n.
Hypothesis self_flat : state_flat (self_state self) = Ok v.
Hypothesis flat_length : length v = (2 ^ n)%nat.

Lemma expectation_X :
  calculate_expectation_value (PyStr "X") self
  = (Ok (dot v (mat_vec (kronecker_product (repeat X_gate n)) v)), self).
Proof.
  unfold calculate_expectation_value, bind, get, lift.
  cbn [String.eqb Ascii.eqb Bool.eqb]. rewrite self_flat, self_qubits.
  rewrite (expectation_value _ _ X_gate n v shaped_X_gate flat_length).
  now rewrite map_id.
Qed.

Lemma expectation_H :
  calculate_expectation_value (PyStr "H") self
  = (Ok (dot v (mat_vec (kronecker_product (repeat H_gate n)) v)), self).
Proof.
  unfold calculate_expectation_value, bind, get, lift.
  cbn [String.eqb Ascii.eqb Bool.eqb]. rewrite self_flat, self_qubits.
  rewrite (expectation_value _ _ H_gate n v shaped_H_gate flat_length).
  now rewrite map_id.
Qed.

Lemma expectation_Z :
  calculate_expectation_value (PyStr "Z") self
  = (Ok (dot v (mat_vec (kronecker_product (repeat Z_gate n)) v)), self).
Proof.
  unfold calculate_expectation_value, bind, get, lift.
  cbn [String.eqb Ascii.eqb Bool.eqb]. rewrite self_flat, self_qubits.
  rewrite (expectation_value _ _ Z_gate n v
             (orthogonal2_shaped _ orthogonal2_Z) flat_length).
  now rewrite map_id.
Qed.

Lemma expectation_Y :
  calculate_expectation_value (PyStr "Y") self
  = (Ok (Re (Cpow Ci n) * dot v (mat_vec (kronecker_product (repeat W_gate n)) v))%R,
     self).
Proof.
  unfold calculate_expectation_value, bind, get, lift.
  cbn [String.eqb Ascii.eqb Bool.eqb]. rewrite self_flat, self_qubits.
  rewrite (expectation_value RtoC Re Y_gate n v);
    [|split; [reflexivity|repeat constructor]|exact flat_length].
  now rewrite power_form_Y.
Qed.

End ExpectationValues.

(** The number of '1' bits. *)
Definition ones (bs : list bool) : nat := length (filter (fun b : bool => b) bs).

Lemma diagonal_Z (bs : list bool) :
  fold_right Rmult 1%R (map (fun b => entry Z_gate b b) bs) = ((-1) ^ ones bs)%R.
Proof.
  unfold ones. induction bs as [|b bs IH]; [reflexivity|].
  cbn [map fold_right filter]. rewrite IH.
  destruct b; unfold entry, Z_gate; cbn [nth length pow]; ring.
Qed.

Lemma diagonal_zero (g : matrix R) (bs : list bool) :
  (forall b, entry g b b = 0%R) -> bs <> [] ->
  fold_right Rmult 1%R (map (fun b => entry g b b) bs) = 0%R.
Proof.
  intros Hg Hbs. destruct bs as [|b bs]; [contradiction|].
  cbn [map fold_right]. rewrite Hg. ring.
Qed.

(** X8. In a computational basis state of [n >= 1] qubits, given by
    its bits, [calculate_expectation_value] returns 0 for 'X' and for 'Y',
    and for 'Z' it returns 1 when the number of '1' bits is even and -1
    when it is odd. *)
Theorem expectation_in_basis_state (self : simulator) (bs : list bool) :
  (1 <= length bs)%nat ->
  self_n self = Z.of_nat (length bs) ->
  state_flat (self_state self) = Ok (basis (2 ^ length bs) (bools_value bs)) ->
  calculate_expectation_value (PyStr "X") self = (Ok 0%R, self)
  /\ calculate_expectation_value (PyStr "Y") self = (Ok 0%R, self)
  /\ calculate_expectation_value (PyStr "Z") self = (Ok ((-1) ^ ones bs)%R, self).
Proof.
  intros Hlen Hn Hs.
  assert (Hbs : bs <> []) by (destruct bs; [cbn in Hlen; lia|discriminate]).
  pose proof (basis_length (2 ^ length bs) (bools_value bs)) as Hv.
  split; [|split].
  - rewrite (expectation_X (length bs) self _ Hn Hs Hv).
    rewrite (power_form_basis X_gate bs shaped_X_gate).
    rewrite diagonal_zero; [reflexivity| |exact Hbs]. now intros [|].
  - rewrite (expectation_Y (length bs) self _ Hn Hs Hv).
    rewrite (power_form_basis W_gate bs (orthogonal2_shaped _ orthogonal2_W)).
    rewrite diagonal_zero; [|now intros [|]|exact Hbs].
    do 2 f_equal. ring.
  - rewrite (expectation_Z (length bs) self _ Hn Hs Hv).
    rewrite (power_form_basis Z_gate bs (orthogonal2_shaped _ orthogonal2_Z)).
    now rewrite diagonal_Z.
Qed.

(** The two-qubit dense simulator in the state |01>. *)
Definition two_qubits_01 : simulator :=
  {| self_n := 2; self_seed := 42;
     self_state := StMatrix (col [0; 1; 0; 0]%R) |}.

(** X8 in the state |01>. *)
Lemma expectation_in_basis_state_witness :
  calculate_expectation_value (PyStr "X") two_qubits_01 = (Ok 0%R, two_qubits_01)
  /\ calculate_expectation_value (PyStr "Y") two_qubits_01 = (Ok 0%R, two_qubits_01)
  /\ calculate_expectation_value (PyStr "Z") two_qubits_01
     = (Ok ((-1) ^ ones [false; true])%R, two_qubits_01).
Proof.
  apply (expectation_in_basis_state two_qubits_01 [false; true]).
  - simpl. lia.
  - reflexivity.
  - reflexivity.
Defined.

(** X9. For a simulator of [n] qubits whose flattened state has [2^n]
    real amplitudes with squared norm 1, [calculate_expectation_value('H')]
    returns the form of the [n]-fold tensor power of the Hadamard gate in
    the state, a value in [-1, 1], and leaves the simulator as it is. *)
Theorem expectation_of_H_is_bounded (n : nat) (self : simulator) (v : list R) :
  self_n self = Z.of_nat n ->
  state_flat (self_state self) = Ok v ->
  length v = (2 ^ n)%nat -> norm2 v = 1%R ->
  exists h,
    calculate_expectation_value (PyStr "H") self = (Ok h, self)
    /\ h = dot v (mat_vec (kronecker_product (repeat H_gate n)) v)
    /\ (-1 <= h <= 1)%R.
Proof.
  intros Hn Hs Hv Hnorm. eexists. split; [|split; [reflexivity|]].
  - exact (expectation_H n self v Hn Hs Hv).
  - pose proof (norm2_orthogonal_product (repeat H_gate n) v
                  (orthogonal2_repeat H_gate n orthogonal2_H)) as P.
    rewrite repeat_length in P. specialize (P Hv).
    pose proof (dot_bound v (mat_vec (kronecker_product (repeat H_gate n)) v)) as B.
    rewrite P, Hnorm in B. lra.
Qed.

(** X9 at two qubits in the state |00>. *)
Lemma expectation_of_H_is_bounded_witness :
  exists h,
    calculate_expectation_value (PyStr "H") two_qubits_00 = (Ok h, two_qubits_00)
    /\ h = dot [1; 0; 0; 0]%R
               (mat_vec (kronecker_product (repeat H_gate 2)) [1; 0; 0; 0]%R)
    /\ (-1 <= h <= 1)%R.
Proof.
  apply (expectation_of_H_is_bounded 2 two_qubits_00 [1; 0; 0; 0]%R).
  - reflexivity.
  - reflexivity.
  - reflexivity.
  - unfold norm2, dot. simpl. lra.
Defined.

(** The names [calculate_expectation_value] accepts. *)
Definition gate_names : list string := ["X"; "H"; "I"; "Y"; "Z"]%string.

(** X10. [calculate_expectation_value] never changes the simulator. It
    raises [TypeError] for a gate that is not a string and
    [Exception("gate not found")] for a string other than 'X', 'H', 'I',
    'Y' and 'Z', in both cases whatever the state is; for one of the five
    names it raises [AttributeError] when the simulator has no state yet
    ([self.state] is [None], as after the base constructor). *)
Theorem expectation_value_failures (self : simulator) :
  (forall gate, (forall s, gate <> PyStr s) ->
     calculate_expectation_value gate self
     = (Raise (TypeError "gate must be a string (str)"), self))
  /\ (forall name, ~ In name gate_names ->
        calculate_expectation_value (PyStr name) self
        = (Raise (Exception_ "gate not found"), self))
  /\ (forall name, In name gate_names -> self_state self = StNone ->
        calculate_expectation_value (PyStr name) self
        = (Raise (AttributeError "'NoneType' object has no attribute 'flatten'"),
           self))
  /\ (forall gate, snd (calculate_expectation_value gate self) = self).
Proof.
  split; [|split; [|split]].
  - intros gate Hg. destruct gate as [z|x|s|]; try reflexivity.
    now destruct (Hg s).
  - intros name Hname. unfold calculate_expectation_value, bind, get.
    unfold gate_names in Hname. cbn [In] in Hname.
    destruct (String.eqb_spec name "X") as [->|_]; [tauto|].
    destruct (String.eqb_spec name "H") as [->|_]; [tauto|].
    destruct (String.eqb_spec name "Y") as [->|_]; [tauto|].
    destruct (String.eqb_spec name "Z") as [->|_]; [tauto|].
    destruct (String.eqb_spec name "I") as [->|_]; [tauto|].
    reflexivity.
  - intros name Hname Hs. unfold gate_names in Hname. cbn [In] in Hname.
    unfold calculate_expectation_value, bind, get, lift. rewrite Hs.
    destruct Hname as [<-|[<-|[<-|[<-|[<-|[]]]]]]; reflexivity.
  - intros gate. unfold calculate_expectation_value, bind, get, lift, raise.
    destruct gate as [z|x|name|]; try reflexivity.
    repeat match goal with
           | |- context [String.eqb ?a ?b] => destruct (String.eqb a b)
           end;
      try reflexivity;
      destruct (state_flat (self_state self)) as [flat|e|]; try reflexivity;
      match goal with
      | |- context [expectation ?f ?r ?g ?k ?fl] => destruct (expectation f r g k fl)
      end; reflexivity.
Qed.

(** ** The two engines from the same generator state *)

(** X11. Take a dense and a tensor simulator of [n] qubits,
    [1 <= n <= 25], that hold the same amplitudes (the dense state is the
    flattened tensor state), and let each run [k] rounds from the same state
    of the random generator. Then both runs end in the same way: either both
    complete, or both stop in the redraw loop of the target. In either case
    they leave the generator in the same state and the two simulators still
    hold the same amplitudes. *)
Theorem engines_agree_round_by_round
        (G : Generator) (fuel n k : nat) (g : gen G) (sv tv : simulator) :
  (1 <= n <= 25)%nat -> same_state n sv tv ->
  exists r g' sv' tv',
    rounds (SV_round G fuel) k (g, sv) = (r, (g', sv'))
    /\ rounds (Tensor_round G fuel) k (g, tv) = (r, (g', tv'))
    /\ (r = Ok tt \/ r = Unfinished)
    /\ same_state n sv' tv'.
Proof.
  intros Hn. revert g sv tv. induction k as [|k IH]; intros g sv tv Hsame.
  - exists (Ok tt), g, sv, tv.
    split; [reflexivity|]. split; [reflexivity|]. split; [now left|exact Hsame].
  - cbn [rounds].
    destruct (rounds_agree G fuel n g sv tv Hn Hsame)
      as [(g1 & sv1 & tv1 & Hs & Ht & Hsame1)|(g1 & Hs & Ht)].
    + destruct (IH g1 sv1 tv1 Hsame1) as (r & g' & sv' & tv' & Rs & Rt & Hr & Hsame').
      exists r, g', sv', tv'.
      rewrite (bind_ok _ _ _ _ _ Hs), (bind_ok _ _ _ _ _ Ht). auto.
    + exists Unfinished, g1, sv, tv.
      rewrite (bind_unfinished _ _ _ _ Hs), (bind_unfinished _ _ _ _ Ht). auto.
Qed.

(** The two-qubit tensor simulator in the state |00>. *)
Definition two_qubits_00_tensor : simulator :=
  {| self_n := 2; self_seed := 42;
     self_state := StTensor (one_hot [false; false]) |}.

(** X11 for three rounds on two qubits in the state |00>. *)
Lemma engines_agree_round_by_round_witness :
  exists r g' sv' tv',
    rounds (SV_round numpy_prefix 5) 3 (words_after_seed 42, two_qubits_00)
    = (r, (g', sv'))
    /\ rounds (Tensor_round numpy_prefix 5) 3 (words_after_seed 42, two_qubits_00_tensor)
       = (r, (g', tv'))
    /\ (r = Ok tt \/ r = Unfinished)
    /\ same_state 2 sv' tv'.
Proof.
  apply (engines_agree_round_by_round numpy_prefix 5 2 3 (words_after_seed 42)
           two_qubits_00 two_qubits_00_tensor).
  - lia.
  - split; [reflexivity|]. split; [reflexivity|].
    exists (one_hot [false; false]).
    split; [reflexivity|]. split; [reflexivity|].
    apply (perfect_one_hot [false; false]).
Defined.

(** ** Construction without a bitstring *)

(** The character of a drawn string "0" or "1". *)
Definition drawn_char (x : string) : ascii :=
  if String.eqb x "1" then "1"%char else "0"%char.

Lemma join_drawn (xs : list string) :
  Forall (fun x => In x ["0"; "1"]%string) xs ->
  list_ascii_of_string (join xs) = map drawn_char xs.
Proof.
  induction 1 as [|x xs Hx _ IH]; [reflexivity|].
  cbn [join fold_right map]. fold (join xs).
  rewrite list_ascii_app, IH.
  destruct Hx as [<-|[<-|[]]]; reflexivity.
Qed.

Lemma drawn_chars_are_bits (xs : list string) :
  forallb is_bit_char (map drawn_char xs) = true.
Proof.
  induction xs as [|x xs IH]; [reflexivity|].
  cbn [map forallb]. rewrite IH. unfold drawn_char.
  now destruct (String.eqb x "1").
Qed.

Lemma choice_of_bits (G : Generator) (k : nat) (g : gen G) :
  Forall (fun x => In x ["0"; "1"]%string) (fst (choice_gen G ["0"; "1"]%string k g)).
Proof.
  apply Forall_forall. intros x Hx.
  apply (choice_in G ["0"; "1"]%string k g x); [discriminate|exact Hx].
Qed.

Lemma truthy_none_or_empty (state : pyval) :
  state = PyNone \/ state = PyStr "" -> truthy state = false.
Proof. now intros [->| ->]. Qed.

(** X12. When no bitstring is given ([None], or the empty string), the
    two constructors called with the same integer [n >= 0] and the same seed
    [s], [1 <= s < 2^32], draw the same [n] characters: both succeed, the
    dense simulator holds the basis column of that bitstring and the tensor
    simulator the rank-[n] array with 1 at its multi-index, which are the
    same amplitudes, and both leave the generator in the same state. *)
Theorem constructors_draw_the_same_state
        (G : Generator) (n : nat) (state : pyval) (s : Z) (g : gen G) :
  state = PyNone \/ state = PyStr "" -> usable_seed s ->
  exists chars sv tv g1,
    length chars = n
    /\ forallb is_bit_char chars = true
    /\ GateSVSimulator_init G (PyInt (Z.of_nat n)) state (PyInt s) g = (Ok sv, g1)
    /\ GateTensorSimulator_init G (PyInt (Z.of_nat n)) state (PyInt s) g = (Ok tv, g1)
    /\ self_state sv = StMatrix (col (basis (2 ^ n) (bits_value chars)))
    /\ self_state tv = StTensor (one_hot (map is_one chars))
    /\ same_state n sv tv.
Proof.
  intros Hstate Hs.
  pose proof (choice_of_bits G n (seed_gen G s)) as Hbits.
  pose proof (choice_length G ["0"; "1"]%string n (seed_gen G s)) as Hlen.
  destruct (choice_gen G ["0"; "1"]%string n (seed_gen G s)) as [xs g1] eqn:E.
  cbn [fst] in Hbits, Hlen.
  pose proof (join_drawn xs Hbits) as Hjoin.
  pose proof (drawn_chars_are_bits xs) as Hvalid.
  assert (Hchars : length (map drawn_char xs) = n) by now rewrite length_map.
  assert (Hchoice : np_random_choice G ["0"; "1"]%string (Z.of_nat n) (seed_gen G s)
                    = (Ok xs, g1)).
  { unfold np_random_choice. destruct (Z.ltb_spec (Z.of_nat n) 0); [lia|].
    now rewrite Nat2Z.id, E. }
  exists (map drawn_char xs).
  exists {| self_n := Z.of_nat n; self_seed := s;
            self_state := StMatrix (col (basis (2 ^ n) (bits_value (map drawn_char xs)))) |}.
  exists {| self_n := Z.of_nat n; self_seed := s;
            self_state := StTensor (one_hot (map is_one (map drawn_char xs))) |}.
  exists g1.
  split; [exact Hchars|]. split; [exact Hvalid|]. split; [|split].
  - unfold GateSVSimulator_init.
    rewrite (bind_ok _ _ _ _ _ (GateSimulator_init_value G (Z.of_nat n) s g Hs)).
    cbn [self_n].
    assert (K : forall k : list string -> M (gen G) simulator,
               bind (np_random_choice G ["0"; "1"]%string (Z.of_nat n)) k (seed_gen G s)
               = k xs g1) by (intros k; now apply bind_ok).
    destruct Hstate as [->| ->]; rewrite K; unfold construct, bind;
      cbn [truthy String.eqb negb];
      rewrite initialize_state_bits by (now rewrite Hjoin);
      rewrite <- length_list_ascii, Hjoin, Hchars; reflexivity.
  - unfold GateTensorSimulator_init.
    rewrite (bind_ok _ _ _ _ _ (GateSimulator_init_value G (Z.of_nat n) s g Hs)).
    cbn [self_n]. rewrite (truthy_none_or_empty state Hstate).
    assert (K : forall k : string -> M (gen G) simulator,
               bind (chars <- np_random_choice G ["0"; "1"]%string (Z.of_nat n) ;;
                     ret (join chars)) k (seed_gen G s)
               = k (join xs) g1).
    { intros k. unfold bind at 1. unfold bind at 1. now rewrite Hchoice. }
    assert (T : tensor_set (tzeros n)
                  (map (fun b : bool => if b then 1 else 0)%Z
                       (map is_one (map drawn_char xs))) 1
                = Ok (one_hot (map is_one (map drawn_char xs)))).
    { pose proof (tensor_set_one_hot (map is_one (map drawn_char xs))) as T.
      now rewrite length_map, Hchars in T. }
    destruct Hstate as [->| ->]; rewrite K; unfold bind, lift, ret;
      rewrite Hjoin, (ints_of_bits _ Hvalid), Nat2Z.id, T; reflexivity.
  - cbn [self_state self_n]. split; [reflexivity|]. split; [reflexivity|].
    split; [reflexivity|]. split; [reflexivity|].
    exists (one_hot (map is_one (map drawn_char xs))).
    split; [|split; [reflexivity|]].
    + rewrite flatten_one_hot, length_map, Hchars, <- bits_value_bools. reflexivity.
    + rewrite <- Hchars at 1. rewrite <- (length_map is_one). apply perfect_one_hot.
Qed.

(** X12 at four qubits and seed 42. *)
Lemma constructors_draw_the_same_state_witness :
  exists chars sv tv g1,
    length chars = 4%nat
    /\ forallb is_bit_char chars = true
    /\ GateSVSimulator_init numpy_prefix (PyInt (Z.of_nat 4)) PyNone (PyInt 42) []
       = (Ok sv, g1)
    /\ GateTensorSimulator_init numpy_prefix (PyInt (Z.of_nat 4)) PyNone (PyInt 42) []
       = (Ok tv, g1)
    /\ self_state sv = StMatrix (col (basis (2 ^ 4) (bits_value chars)))
    /\ self_state tv = StTensor (one_hot (map is_one chars))
    /\ same_state 4 sv tv.
Proof.
  apply (constructors_draw_the_same_state numpy_prefix 4 PyNone 42 []).
  - now left.
  - unfold usable_seed. lia.
Defined.

(** ** Bitstrings of the wrong length *)

(** The rank-[length bs + m] array that is 1 on the sub-array selected by
    the leading indices [bs] and 0 elsewhere. *)
Fixpoint hot_block (bs : list bool) (m : nat) : tensor :=
  match bs with
  | [] => fill 1 (tzeros m)
  | b :: bs' =>
      if b then Axis (tzeros (length bs' + m)) (hot_block bs' m)
      else Axis (hot_block bs' m) (tzeros (length bs' + m))
  end.

Lemma tensor_set_nil (t : tensor) (x : R) : tensor_set t [] x = Ok (fill x t).
Proof. now destruct t. Qed.

Lemma tensor_set_hot_block (bs : list bool) (m : nat) :
  tensor_set (tzeros (length bs + m)) (map (fun b : bool => if b then 1 else 0)%Z bs) 1
  = Ok (hot_block bs m).
Proof.
  induction bs as [|b bs IH]; [apply tensor_set_nil|].
  cbn [length Nat.add tzeros map tensor_set hot_block].
  destruct b; cbn [Z.eqb]; rewrite IH; reflexivity.
Qed.

Lemma tensor_set_too_many (n : nat) (bs : list bool) (x : R) :
  (n < length bs)%nat ->
  tensor_set (tzeros n) (map (fun b : bool => if b then 1 else 0)%Z bs) x
  = Raise (IndexError "too many indices for array").
Proof.
  revert bs. induction n as [|n IH]; intros [|b bs] H; cbn in H; try lia.
  - reflexivity.
  - cbn [tzeros map tensor_set].
    destruct b; cbn [Z.eqb]; rewrite IH by lia; reflexivity.
Qed.

Lemma norm2_ones (m : nat) : norm2 (flatten (fill 1 (tzeros m))) = (2 ^ m)%R.
Proof.
  induction m as [|m IH]; [unfold norm2, dot; cbn; ring|].
  cbn [tzeros fill flatten]. rewrite norm2_app, IH. cbn [pow]. ring.
Qed.

Lemma norm2_hot_block (bs : list bool) (m : nat) :
  norm2 (flatten (hot_block bs m)) = (2 ^ m)%R.
Proof.
  induction bs as [|b bs IH]; [apply norm2_ones|].
  cbn [hot_block]. destruct b; cbn [flatten];
    rewrite norm2_app, IH, flatten_tzeros, norm2_zeros; ring.
Qed.

(** X13. [GateTensorSimulator.__init__] does not compare the length of
    the bitstring with [n]. For a bitstring of [k >= 1] characters '0' and
    '1' and a seed [s], [1 <= s < 2^32]: when [k <= n] construction succeeds
    and the assignment sets the whole sub-array under the [k] leading
    indices to 1, so the squared amplitudes sum to [2^(n - k)], which is 1
    only for [k = n]; when [k > n] construction raises [IndexError]. *)
Theorem tensor_constructor_bitstring_length
        (G : Generator) (n : nat) (str : string) (s : Z) (g : gen G) :
  (1 <= String.length str)%nat ->
  forallb is_bit_char (list_ascii_of_string str) = true ->
  usable_seed s ->
  ((String.length str <= n)%nat ->
   exists tv,
     GateTensorSimulator_init G (PyInt (Z.of_nat n)) (PyStr str) (PyInt s) g
     = (Ok tv, seed_gen G s)
     /\ self_state tv
        = StTensor (hot_block (map is_one (list_ascii_of_string str))
                              (n - String.length str))
     /\ squared_norm tv = Ok (2 ^ (n - String.length str))%R)
  /\ ((n < String.length str)%nat ->
      exists msg,
        GateTensorSimulator_init G (PyInt (Z.of_nat n)) (PyStr str) (PyInt s) g
        = (Raise (IndexError msg), seed_gen G s)).
Proof.
  intros Hk Hbits Hs.
  assert (Hlen : length (map is_one (list_ascii_of_string str)) = String.length str)
    by now rewrite length_map, length_list_ascii.
  assert (Start : GateTensorSimulator_init G (PyInt (Z.of_nat n)) (PyStr str) (PyInt s) g
                  = (st <- lift (tensor_set (tzeros n)
                                   (map (fun b : bool => if b then 1 else 0)%Z
                                        (map is_one (list_ascii_of_string str))) 1) ;;
                     ret (set_state (StTensor st)
                            {| self_n := Z.of_nat n; self_seed := s;
                               self_state := StNone |}))
                      (seed_gen G s)).
  { unfold GateTensorSimulator_init.
    rewrite (bind_ok _ _ _ _ _ (GateSimulator_init_value G (Z.of_nat n) s g Hs)).
    cbn [self_n]. rewrite truthy_nonempty by exact Hk.
    unfold bind at 1, ret at 1. unfold bind at 1, lift at 1.
    now rewrite (ints_of_bits _ Hbits), Nat2Z.id. }
  split.
  - intros Hle. eexists. split; [|split].
    + rewrite Start.
      replace n with (length (map is_one (list_ascii_of_string str))
                      + (n - String.length str))%nat at 1 by lia.
      rewrite tensor_set_hot_block. reflexivity.
    + reflexivity.
    + unfold squared_norm. cbn [self_state set_state state_flat rbind].
      now rewrite norm2_hot_block.
  - intros Hgt. eexists. rewrite Start, tensor_set_too_many by lia. reflexivity.
Qed.

(** X13 at [n = 2], the bitstring "0" and seed 42. *)
Lemma tensor_constructor_bitstring_length_witness :
  ((String.length "0" <= 2)%nat ->
   exists tv,
     GateTensorSimulator_init numpy_prefix (PyInt (Z.of_nat 2)) (PyStr "0") (PyInt 42) []
     = (Ok tv, seed_gen numpy_prefix 42)
     /\ self_state tv
        = StTensor (hot_block (map is_one (list_ascii_of_string "0"))
                              (2 - String.length "0"))
     /\ squared_norm tv = Ok (2 ^ (2 - String.length "0"))%R)
  /\ ((2 < String.length "0")%nat ->
      exists msg,
        GateTensorSimulator_init numpy_prefix (PyInt (Z.of_nat 2)) (PyStr "0")
                                 (PyInt 42) []
        = (Raise (IndexError msg), seed_gen numpy_prefix 42)).
Proof.
  apply (tensor_constructor_bitstring_length numpy_prefix 2 "0" 42 []).
  - simpl. lia.
  - reflexivity.
  - unfold usable_seed. lia.
Defined.

Lemma SV_apply_operations_mismatch (n : nat) (ops cx : matrix R) (v : list R)
      (self : simulator) :
  shaped (2 ^ n) (2 ^ n) ops -> shaped (2 ^ n) (2 ^ n) cx ->
  self_state self = StMatrix (col v) -> length v <> (2 ^ n)%nat ->
  SV_apply_operations ops cx self
  = (Raise (ValueError "matmul: mismatch in its core dimension"), self).
Proof.
  intros Hops Hcx Hst Hv. unfold SV_apply_operations.
  rewrite bind_get, Hst, (matmul_square n) by assumption.
  rewrite bind_lift_ok.
  destruct (pow2_pos n) as [k Hk].
  assert (Hco : shaped (S k) (2 ^ n) (mmul cx ops)).
  { rewrite Hk in *. eapply shaped_mmul; [apply Hcx|exact Hops]. }
  unfold matmul. rewrite (shaped_cols _ _ _ Hco). unfold rows, col.
  rewrite length_map.
  destruct (Nat.eqb_spec (2 ^ n) (length v)) as [E|_]; [now destruct Hv|].
  reflexivity.
Qed.

(** X14. [GateSVSimulator.__init__] accepts a bitstring whose length
    [k >= 1] is not [n]: for [n >= 1] and a seed [s], [1 <= s < 2^32],
    construction succeeds with a state of [2^k] rows. But no round can be
    applied to it: [apply_operations] raises [ValueError] in the matrix
    product (or the round stops before, in the redraw loop of the target),
    and the simulator is left as constructed. *)
Theorem dense_constructor_bitstring_length
        (G : Generator) (n : nat) (str : string) (s : Z) (g : gen G) :
  (1 <= n)%nat -> (1 <= String.length str)%nat -> String.length str <> n ->
  forallb is_bit_char (list_ascii_of_string str) = true ->
  usable_seed s ->
  exists sv g1,
    GateSVSimulator_init G (PyInt (Z.of_nat n)) (PyStr str) (PyInt s) g = (Ok sv, g1)
    /\ self_state sv
       = StMatrix (col (basis (2 ^ String.length str)
                              (bits_value (list_ascii_of_string str))))
    /\ forall fuel, exists r g',
         SV_round G fuel (g1, sv) = (r, (g', sv))
         /\ ((exists msg, r = Raise (ValueError msg)) \/ r = Unfinished).
Proof.
  intros Hn Hk Hne Hbits Hs.
  assert (Hpow : (2 ^ String.length str)%nat <> (2 ^ n)%nat).
  { intros E. apply Nat.pow_inj_r in E; [contradiction|lia]. }
  assert (Init : GateSVSimulator_init G (PyInt (Z.of_nat n)) (PyStr str) (PyInt s) g
                 = (Ok {| self_n := Z.of_nat n; self_seed := s;
                          self_state :=
                            StMatrix (col (basis (2 ^ String.length str)
                                             (bits_value (list_ascii_of_string str)))) |},
                    snd (choice_gen G ["0"; "1"]%string n (seed_gen G s)))).
  { unfold GateSVSimulator_init.
    rewrite (bind_ok _ _ _ _ _ (GateSimulator_init_value G (Z.of_nat n) s g Hs)).
    cbn [self_n]. unfold bind at 1, np_random_choice.
    destruct (Z.ltb_spec (Z.of_nat n) 0) as [Hneg|_]; [lia|].
    rewrite Nat2Z.id.
    destruct (choice_gen G ["0"; "1"]%string n (seed_gen G s)) as [xs g'].
    cbn [snd]. unfold construct, bind at 1.
    rewrite truthy_nonempty by exact Hk.
    now rewrite (initialize_state_bits str _ Hbits). }
  do 2 eexists. split; [exact Init|]. split; [reflexivity|].
  intros fuel.
  set (g1 := snd (choice_gen G ["0"; "1"]%string n (seed_gen G s))).
  set (sv := {| self_n := Z.of_nat n; self_seed := s;
                self_state :=
                  StMatrix (col (basis (2 ^ String.length str)
                                   (bits_value (list_ascii_of_string str)))) |}).
  assert (Hv : length (basis (2 ^ String.length str)
                             (bits_value (list_ascii_of_string str))) <> (2 ^ n)%nat)
    by now rewrite basis_length.
  destruct (Nat.eq_dec n 1) as [->|Hn1].
  - exists (Raise (ValueError "matmul: mismatch in its core dimension")), g1.
    split; [|left; now eexists].
    unfold SV_round.
    rewrite (bind_ok _ _ _ _ _ (SV_make_operations_single G fuel g1 sv eq_refl)).
    cbn [fst snd]. apply on_self_eq.
    apply (SV_apply_operations_mismatch 1 H_gate I_gate _ sv
             (proj2 shaped_I_H) (proj1 shaped_I_H) eq_refl Hv).
  - destruct (draw_control_target_cases G fuel (Z.of_nat n) g1 ltac:(lia))
      as [(c & t & g' & Hd & Hc & Ht & Hct)|[g' Hd]].
    + exists (Raise (ValueError "matmul: mismatch in its core dimension")), g'.
      split; [|left; now eexists].
      unfold SV_round.
      rewrite (bind_ok _ _ _ _ _
                 (SV_make_operations_value G fuel n g1 g' sv c t eq_refl
                    ltac:(lia) Hd Hc Ht Hct)).
      cbn [fst snd]. apply on_self_eq.
      apply (SV_apply_operations_mismatch n _ _ _ sv
               (shaped_local_product n) (shaped_CX_matrix_nat n _ _) eq_refl Hv).
    + exists Unfinished, g'. split; [|now right].
      apply (SV_round_unfinished G fuel n g1 g' sv eq_refl ltac:(lia) Hd).
Qed.

(** X14 at [n = 2], the bitstring "0" and seed 42. *)
Lemma dense_constructor_bitstring_length_witness :
  exists sv g1,
    GateSVSimulator_init numpy_prefix (PyInt (Z.of_nat 2)) (PyStr "0") (PyInt 42) []
    = (Ok sv, g1)
    /\ self_state sv
       = StMatrix (col (basis (2 ^ String.length "0")
                              (bits_value (list_ascii_of_string "0"))))
    /\ forall fuel, exists r g',
         SV_round numpy_prefix fuel (g1, sv) = (r, (g', sv))
         /\ ((exists msg, r = Raise (ValueError msg)) \/ r = Unfinished).
Proof.
  apply (dense_constructor_bitstring_length numpy_prefix 2 "0" 42 []).
  - lia.
  - simpl. lia.
  - simpl. lia.
  - reflexivity.
  - unfold usable_seed. lia.
Defined.

(** ** Arguments that the constructors reject *)

(** X15. Type errors of the constructors and what they leave behind,
    for an integer [n]. A seed that is neither an integer nor [None] makes
    all three constructors raise [TypeError("seed must be an integer")]
    before the generator is touched. A state that is neither a string nor
    [None] makes both engines raise
    [TypeError("state must be a string (str)")], but only after the base
    constructor has run: with a seed [s], [1 <= s < 2^32], the process-wide
    generator has then been reseeded with [s]. *)
Theorem constructor_type_errors
        (G : Generator) (n : Z) (state seed : pyval) (s : Z) (g : gen G) :
  ((forall z, seed <> PyInt z) -> seed <> PyNone ->
   GateSimulator_init G (PyInt n) seed g
   = (Raise (TypeError "seed must be an integer"), g)
   /\ GateSVSimulator_init G (PyInt n) state seed g
      = (Raise (TypeError "seed must be an integer"), g)
   /\ GateTensorSimulator_init G (PyInt n) state seed g
      = (Raise (TypeError "seed must be an integer"), g))
  /\ ((forall str, state <> PyStr str) -> state <> PyNone -> usable_seed s ->
      GateSVSimulator_init G (PyInt n) state (PyInt s) g
      = (Raise (TypeError "state must be a string (str)"), seed_gen G s)
      /\ GateTensorSimulator_init G (PyInt n) state (PyInt s) g
         = (Raise (TypeError "state must be a string (str)"), seed_gen G s)).
Proof.
  split.
  - intros Hint Hnone.
    assert (B : GateSimulator_init G (PyInt n) seed g
                = (Raise (TypeError "seed must be an integer"), g)).
    { destruct seed as [z| | |]; [now destruct (Hint z)|reflexivity|reflexivity|].
      now destruct Hnone. }
    split; [exact B|]. split.
    + unfold GateSVSimulator_init, bind at 1. now rewrite B.
    + unfold GateTensorSimulator_init, bind at 1. now rewrite B.
  - intros Hstr Hnone Hs. split.
    + unfold GateSVSimulator_init.
      rewrite (bind_ok _ _ _ _ _ (GateSimulator_init_value G n s g Hs)).
      destruct state as [z|x|str|]; [reflexivity|reflexivity| |].
      * now destruct (Hstr str).
      * now destruct Hnone.
    + unfold GateTensorSimulator_init.
      rewrite (bind_ok _ _ _ _ _ (GateSimulator_init_value G n s g Hs)).
      destruct state as [z|x|str|]; [reflexivity|reflexivity| |].
      * now destruct (Hstr str).
      * now destruct Hnone.
Qed.







(** ** What [state_to_braket] writes *)

(** One term of a rendering. *)
Definition term (label : string) (amplitude : R) : string :=
  ("(" ++ fmt3 amplitude ++ ")|" ++ label ++ "⟩")%string.

(** The rendering of a list of labelled amplitudes: the terms of the
    amplitudes greater than the threshold, joined by " + ". *)
Definition rendering (entries : list (string * R)) : string :=
  String.concat " + "
    (map (fun lx => term (fst lx) (snd lx))
         (filter (fun lx => Rgtb (snd lx) threshold) entries)).

(** One turn of either loop on an amplitude that passes the threshold. *)
Definition add_term (braket t : string) : string :=
  if String.eqb braket "" then t else (braket ++ " + " ++ t)%string.

Lemma string_app_assoc (a b c : string) : ((a ++ b) ++ c = a ++ (b ++ c))%string.
Proof. induction a as [|x a IH]; cbn; [reflexivity|now rewrite IH]. Qed.

Lemma braket_append_term (braket label : string) (a : R) :
  (a > threshold)%R -> braket_append braket a label = add_term braket (term label a).
Proof.
  intros H. pose proof threshold_pos as T.
  unfold braket_append, add_term, term.
  rewrite Rgtb_true, Rabs_pos_eq by lra.
  destruct (String.eqb braket ""); reflexivity.
Qed.

Lemma concat_snoc (sep t : string) (l : list string) :
  String.concat sep (l ++ [t])
  = match l with
    | [] => t
    | _ :: _ => (String.concat sep l ++ sep ++ t)%string
    end.
Proof.
  induction l as [|x l IH]; [reflexivity|].
  destruct l as [|y l]; [reflexivity|].
  change (String.concat sep ((x :: y :: l) ++ [t]))
    with (x ++ sep ++ String.concat sep ((y :: l) ++ [t]))%string.
  rewrite IH.
  change (String.concat sep (x :: y :: l))
    with (x ++ sep ++ String.concat sep (y :: l))%string.
  now rewrite !string_app_assoc.
Qed.

Lemma concat_terms_empty (sep : string) (l : list string) :
  Forall (fun t => t <> ""%string) l ->
  String.eqb (String.concat sep l) "" = match l with [] => true | _ => false end.
Proof.
  intros H. destruct H as [|x l Hx _]; [reflexivity|].
  destruct x as [|c x]; [contradiction|].
  destruct l; reflexivity.
Qed.

Lemma add_terms_concat (ts done : list string) :
  Forall (fun t => t <> EmptyString) done -> Forall (fun t => t <> EmptyString) ts ->
  fold_left add_term ts (String.concat " + " done)
  = String.concat " + " (done ++ ts).
Proof.
  revert done. induction ts as [|t ts IH]; intros done Hdone Hts.
  - now rewrite app_nil_r.
  - inversion Hts as [|? ? Ht Hts']; subst.
    cbn [fold_left]. unfold add_term at 2.
    rewrite (concat_terms_empty _ done Hdone).
    replace (done ++ t :: ts) with ((done ++ [t]) ++ ts)
      by now rewrite <- app_assoc.
    rewrite <- IH; [|apply Forall_app; split; [exact Hdone|now constructor]|exact Hts'].
    rewrite concat_snoc. now destruct done.
Qed.

Lemma term_not_empty (label : string) (a : R) : term label a <> EmptyString.
Proof. discriminate. Qed.

(** The loop of the tensor engine on any list of entries. *)
Lemma Tensor_braket_loop_terms (entries : list (list bool * R)) (braket : string) :
  Tensor_braket_loop entries braket
  = fold_left add_term
      (map (fun qx => term (bits_string (fst qx)) (snd qx))
           (filter (fun qx => Rgtb (snd qx) threshold) entries))
      braket.
Proof.
  revert braket. induction entries as [|[q x] entries IH]; intros braket;
    [reflexivity|].
  cbn [Tensor_braket_loop filter fst snd].
  destruct (Rgtb x threshold) eqn:E.
  - cbn [map fold_left fst snd]. rewrite IH. f_equal.
    apply braket_append_term. unfold Rgtb in E.
    now destruct (Rgt_dec x threshold).
  - apply IH.
Qed.

Lemma filter_filter_threshold {X : Type} (amp : X -> R) (l : list X) :
  filter (fun e => Rgtb (amp e) threshold) (filter (fun e => Rgtb (amp e) 0) l)
  = filter (fun e => Rgtb (amp e) threshold) l.
Proof.
  pose proof threshold_pos as T.
  induction l as [|e l IH]; [reflexivity|].
  cbn [filter]. destruct (Rgtb (amp e) 0) eqn:E0.
  - cbn [filter]. now rewrite IH.
  - rewrite IH. rewrite Rgtb_false; [reflexivity|].
    unfold Rgtb in E0. destruct (Rgt_dec (amp e) 0); [discriminate|lra].
Qed.

Lemma rendering_fold {X : Type} (label : X -> string) (amp : X -> R) (l : list X) :
  fold_left add_term
    (map (fun e => term (label e) (amp e))
         (filter (fun e => Rgtb (amp e) threshold) l)) EmptyString
  = rendering (map (fun e => (label e, amp e)) l).
Proof.
  unfold rendering.
  change EmptyString with (String.concat " + " []) at 1.
  rewrite add_terms_concat;
    [|constructor|apply Forall_forall; intros t Ht; apply in_map_iff in Ht;
                  destruct Ht as (e & <- & _); apply term_not_empty].
  cbn [app]. f_equal. induction l as [|e l IH]; [reflexivity|].
  cbn [map filter fst snd]. destruct (Rgtb (amp e) threshold); cbn [map fst snd];
    now rewrite IH.
Qed.



Lemma filter_nonzero_threshold {X : Type} (amp : X -> R) (l : list X) :
  filter (fun e => Rgtb (amp e) threshold) (filter (fun e => Rneqb (amp e) 0) l)
  = filter (fun e => Rgtb (amp e) threshold) l.
Proof.
  pose proof threshold_pos as T.
  induction l as [|e l IH]; [reflexivity|].
  cbn [filter]. destruct (Rneqb (amp e) 0) eqn:E0.
  - cbn [filter]. now rewrite IH.
  - rewrite IH. rewrite Rgtb_false; [reflexivity|].
    unfold Rneqb in E0. destruct (Req_dec_T (amp e) 0); [lra|discriminate].
Qed.

(** The rows of a column that [np.where(self.state != 0)[0]] lists. *)
Lemma where_nonzero_rows_from (k : nat) (v : list R) :
  concat (map (fun dr : nat * list R =>
                 map (fun _ => fst dr) (filter (fun x => Rneqb x 0) (snd dr)))
              (combine (seq k (length v)) (col v)))
  = map fst (filter (fun dx : nat * R => Rneqb (snd dx) 0)
                    (combine (seq k (length v)) v)).
Proof.
  revert k. induction v as [|x v IH]; intros k; [reflexivity|].
  cbn [length seq col map combine concat filter fst snd].
  fold (col v). rewrite IH.
  destruct (Rneqb x 0); reflexivity.
Qed.

Lemma where_nonzero_rows_col (v : list R) :
  where_nonzero_rows (col v)
  = map fst (filter (fun dx : nat * R => Rneqb (snd dx) 0)
                    (combine (seq 0 (length v)) v)).
Proof.
  unfold where_nonzero_rows. replace (length (col v)) with (length v)
    by (unfold col; now rewrite length_map).
  apply where_nonzero_rows_from.
Qed.

Lemma row_of_entry (k : nat) (v : list R) (d : nat) (x : R) :
  In (d, x) (combine (seq k (length v)) v) ->
  (k <= d)%nat /\ nth (d - k) (col v) [] = [x].
Proof.
  revert k. induction v as [|y v IH]; intros k H; [destruct H|].
  cbn [length seq combine] in H. destruct H as [H|H].
  - injection H as <- <-. split; [lia|]. now rewrite Nat.sub_diag.
  - destruct (IH (S k) H) as [Hk Hn]. split; [lia|].
    replace (d - k)%nat with (S (d - S k)) by lia. exact Hn.
Qed.

(** The loop of the dense engine on rows that hold the given entries. *)
Lemma SV_braket_loop_terms (n : Z) (st : matrix R) (l : list (nat * R))
      (braket : string) :
  (forall d x, In (d, x) l -> nth d st [] = [x]) ->
  SV_braket_loop n st (map fst l) braket
  = Ok (fold_left add_term
          (map (fun dx => term (zfill (bin_tail (Z.of_nat (fst dx))) n) (snd dx))
               (filter (fun dx => Rgtb (snd dx) threshold) l))
          braket).
Proof.
  revert braket. induction l as [|[d x] l IH]; intros braket Hrows; [reflexivity|].
  cbn [map fst SV_braket_loop filter snd].
  rewrite (Hrows d x (or_introl eq_refl)). cbn [item rbind].
  assert (Hl : forall d' x', In (d', x') l -> nth d' st [] = [x'])
    by (intros d' x' H; apply Hrows; now right).
  destruct (Rgtb x threshold) eqn:E.
  - assert (Hx : (x > threshold)%R)
      by (unfold Rgtb in E; now destruct (Rgt_dec x threshold)).
    pose proof threshold_pos as T.
    rewrite Rneqb_diff by lra. cbn [map fold_left fst snd].
    rewrite IH by exact Hl. now rewrite braket_append_term.
  - rewrite Rneqb_same. now apply IH.
Qed.

(** X18. [GateSVSimulator.state_to_braket] on a column state writes one
    term "(amplitude)|bits⟩", the amplitude with three decimals and the row
    index in binary padded to [self.n] digits, for each row whose entry is
    greater than 1e-10, in increasing order of the rows, and joins the terms
    with " + ". It never writes " - ": a row whose entry is negative or at
    most 1e-10 has no term. The simulator is left as it is. *)
Theorem dense_rendering (self : simulator) (v : list R) :
  self_state self = StMatrix (col v) ->
  SV_state_to_braket self
  = (Ok (rendering
           (map (fun dx => (zfill (bin_tail (Z.of_nat (fst dx))) (self_n self), snd dx))
                (combine (seq 0 (length v)) v))),
     self).
Proof.
  intros Hs. unfold SV_state_to_braket, bind, get, lift. rewrite Hs.
  f_equal. rewrite where_nonzero_rows_col.
  rewrite SV_braket_loop_terms.
  - f_equal. rewrite (filter_nonzero_threshold snd).
    apply (rendering_fold
             (fun dx : nat * R => zfill (bin_tail (Z.of_nat (fst dx))) (self_n self))
             snd).
  - intros d x H. apply filter_In in H. destruct H as [H _].
    destruct (row_of_entry 0 v d x H) as [_ Hrow].
    now rewrite Nat.sub_0_r in Hrow.
Qed.

(** X18 on two qubits in the state |00>. *)
Lemma dense_rendering_witness :
  SV_state_to_braket two_qubits_00
  = (Ok (rendering
           (map (fun dx => (zfill (bin_tail (Z.of_nat (fst dx))) (self_n two_qubits_00),
                            snd dx))
                (combine (seq 0 (length [1; 0; 0; 0]%R)) [1; 0; 0; 0]%R))),
     two_qubits_00).
Proof.
  apply (dense_rendering two_qubits_00 [1; 0; 0; 0]%R).
  reflexivity.
Defined.

(** ** The two renderings side by side *)

(** The character [str(b)] of a bit. *)
Definition bit_char (b : bool) : ascii := if b then "1"%char else "0"%char.

Lemma bits_string_chars (q : list bool) :
  bits_string q = string_of_list_ascii (map bit_char q).
Proof. induction q as [|b q IH]; cbn; [reflexivity|now rewrite IH]. Qed.

Lemma bit_chars_valid (q : list bool) : forallb is_bit_char (map bit_char q) = true.
Proof. induction q as [|[|] q IH]; cbn; auto. Qed.

Lemma is_one_bit_char (q : list bool) : map is_one (map bit_char q) = q.
Proof. induction q as [|[|] q IH]; cbn; [reflexivity| |]; now rewrite IH. Qed.

(** The padded binary numeral of a row index is the multi-index of that
    row, written digit by digit. *)
Lemma zfill_of_bools (q : list bool) :
  (1 <= length q)%nat ->
  zfill (bin_tail (Z.of_nat (bools_value q))) (Z.of_nat (length q)) = bits_string q.
Proof.
  intros H. pose proof (zfill_of_bitstring (map bit_char q) (bit_chars_valid q)) as Z.
  rewrite bits_value_bools, is_one_bit_char, length_map in Z.
  rewrite bits_string_chars. now apply Z.
Qed.

(** The entries of a rank-[n] array in row-major order: their values are
    the flattened array and their multi-indices count from 0 to [2^n - 1]. *)
Lemma indexed_entries (n : nat) (t : tensor) :
  perfect n t ->
  map snd (indexed t) = flatten t
  /\ map (fun qx => bools_value (fst qx)) (indexed t) = seq 0 (2 ^ n)
  /\ Forall (fun qx => length (fst qx) = n) (indexed t).
Proof.
  induction 1 as [x|n t0 t1 _ (S0 & V0 & L0) _ (S1 & V1 & L1)].
  - repeat split. repeat constructor.
  - cbn [indexed flatten]. rewrite !map_app, !map_map. cbn [fst snd].
    split; [|split].
    + now rewrite <- S0, <- S1.
    + rewrite Nat.pow_succ_r'.
      replace (2 * 2 ^ n)%nat with (2 ^ n + 2 ^ n)%nat by lia.
      rewrite seq_app. f_equal.
      * rewrite <- V0. apply map_ext. intros qx. now rewrite bools_value_cons.
      * cbn [Nat.add]. rewrite <- (map_id (seq (2 ^ n) (2 ^ n))).
        rewrite (map_seq_shift (fun i => i) (2 ^ n) (2 ^ n)), <- V1, map_map.
        apply map_ext_in. intros qx Hqx. rewrite bools_value_cons.
        rewrite Forall_forall in L1. rewrite (L1 qx Hqx). lia.
    + apply Forall_app. split; apply Forall_map;
        [revert L0|revert L1]; apply Forall_impl; intros qx Hqx; cbn; now rewrite Hqx.
Qed.

Lemma combine_maps {X Y Z : Type} (f : X -> Y) (g : X -> Z) (l : list X) :
  combine (map f l) (map g l) = map (fun x => (f x, g x)) l.
Proof. induction l as [|x l IH]; cbn; [reflexivity|now rewrite IH]. Qed.

(** Row by row, the labelled amplitudes of the dense rendering are those
    of the tensor rendering. *)
Lemma entries_agree (n : nat) (t : tensor) :
  (1 <= n)%nat -> perfect n t ->
  map (fun dx => (zfill (bin_tail (Z.of_nat (fst dx))) (Z.of_nat n), snd dx))
      (combine (seq 0 (length (flatten t))) (flatten t))
  = map (fun qx => (bits_string (fst qx), snd qx)) (indexed t).
Proof.
  intros Hn Ht. destruct (indexed_entries n t Ht) as (S & V & L).
  rewrite (length_flatten n t Ht), <- V, <- S, combine_maps, map_map.
  apply map_ext_in. intros qx Hqx. cbn [fst snd]. f_equal.
  rewrite Forall_forall in L. rewrite <- (L qx Hqx).
  apply zfill_of_bools. rewrite (L qx Hqx). exact Hn.
Qed.

(** What each engine writes for the state it holds. *)
Lemma Tensor_braket_text (self : simulator) (t : tensor) :
  self_state self = StTensor t ->
  Tensor_state_to_braket self
  = (Ok (rendering (map (fun qx => (bits_string (fst qx), snd qx)) (indexed t))), self).
Proof.
  intros Hs. unfold Tensor_state_to_braket, bind, get, ret. rewrite Hs.
  rewrite Tensor_braket_loop_terms, (filter_filter_threshold snd).
  now rewrite (rendering_fold (fun qx => bits_string (fst qx)) snd).
Qed.

Lemma SV_braket_text (self : simulator) (v : list R) :
  self_state self = StMatrix (col v) ->
  SV_state_to_braket self
  = (Ok (rendering
           (map (fun dx => (zfill (bin_tail (Z.of_nat (fst dx))) (self_n self), snd dx))
                (combine (seq 0 (length v)) v))),
     self).
Proof.
  intros Hs. unfold SV_state_to_braket, bind, get, lift.
  rewrite Hs, where_nonzero_rows_col, SV_braket_loop_terms.
  - rewrite (filter_nonzero_threshold snd).
    now rewrite (rendering_fold
                   (fun dx : nat * R => zfill (bin_tail (Z.of_nat (fst dx))) (self_n self))
                   snd).
  - intros d x H. apply filter_In in H. destruct H as [H _].
    destruct (row_of_entry 0 v d x H) as [_ Hrow].
    now rewrite Nat.sub_0_r in Hrow.
Qed.



(** ** From a bitstring to its rendering *)

Lemma filter_indexed_axis (b : bool) (l : list (list bool * R)) :
  filter (fun qx => Rgtb (snd qx) threshold) (map (fun qx => (b :: fst qx, snd qx)) l)
  = map (fun qx => (b :: fst qx, snd qx)) (filter (fun qx => Rgtb (snd qx) threshold) l).
Proof.
  induction l as [|[q x] l IH]; [reflexivity|].
  cbn [map filter fst snd]. destruct (Rgtb x threshold); cbn [map fst snd];
    now rewrite IH.
Qed.

Lemma filter_indexed_zeros (n : nat) :
  filter (fun qx => Rgtb (snd qx) threshold) (indexed (tzeros n)) = [].
Proof.
  pose proof threshold_pos as T.
  induction n as [|n IH].
  - cbn [tzeros indexed filter snd]. now rewrite Rgtb_false by lra.
  - cbn [tzeros indexed]. now rewrite filter_app, !filter_indexed_axis, IH.
Qed.

(** The one entry of a basis state that passes the threshold. *)
Lemma filter_indexed_one_hot (bs : list bool) :
  filter (fun qx => Rgtb (snd qx) threshold) (indexed (one_hot bs)) = [(bs, 1%R)].
Proof.
  pose proof threshold_pos as T.
  induction bs as [|b bs IH].
  - cbn [one_hot indexed filter snd]. now rewrite Rgtb_true by lra.
  - destruct b; cbn [one_hot indexed];
      now rewrite filter_app, !filter_indexed_axis, IH, filter_indexed_zeros.
Qed.

Lemma filter_labelled {X : Type} (label : X -> string) (l : list (X * R)) :
  filter (fun lx => Rgtb (snd lx) threshold) (map (fun e => (label (fst e), snd e)) l)
  = map (fun e => (label (fst e), snd e)) (filter (fun e => Rgtb (snd e) threshold) l).
Proof.
  induction l as [|[q x] l IH]; [reflexivity|].
  cbn [map filter fst snd]. destruct (Rgtb x threshold); cbn [map fst snd];
    now rewrite IH.
Qed.

Lemma rendering_one_hot (bs : list bool) :
  rendering (map (fun qx => (bits_string (fst qx), snd qx)) (indexed (one_hot bs)))
  = ("(1.000)|" ++ bits_string bs ++ "⟩")%string.
Proof.
  unfold rendering. rewrite (filter_labelled bits_string), filter_indexed_one_hot.
  cbn [map fst snd String.concat]. unfold term.
  rewrite <- Rabs_R1 at 1. now rewrite fmt3_one.
Qed.

Lemma bits_string_of_chars (chars : list ascii) :
  forallb is_bit_char chars = true ->
  bits_string (map is_one chars) = string_of_list_ascii chars.
Proof.
  induction chars as [|c chars IH]; [reflexivity|].
  cbn [forallb map bits_string string_of_list_ascii]. intros H.
  apply andb_true_iff in H. destruct H as [Hc H]. rewrite (IH H). f_equal.
  unfold is_bit_char, is_one in *. apply orb_true_iff in Hc.
  destruct Hc as [Hc|Hc]; apply Ascii.eqb_eq in Hc; now subst.
Qed.

(** X20. A simulator constructed on [n >= 1] qubits from a bitstring of
    [n] characters '0' and '1' renders as that bitstring with amplitude 1:
    [state_to_braket] returns "(1.000)|bitstring⟩", in both engines and
    whatever the seed. *)
Theorem bitstring_round_trip (G : Generator) (n : nat) (str : string) (seed : pyval)
        (g g1 g2 : gen G) (sv tv : simulator) :
  (1 <= n)%nat -> String.length str = n ->
  forallb is_bit_char (list_ascii_of_string str) = true ->
  GateSVSimulator_init G (PyInt (Z.of_nat n)) (PyStr str) seed g = (Ok sv, g1) ->
  GateTensorSimulator_init G (PyInt (Z.of_nat n)) (PyStr str) seed g = (Ok tv, g2) ->
  SV_state_to_braket sv = (Ok ("(1.000)|" ++ str ++ "⟩")%string, sv)
  /\ Tensor_state_to_braket tv = (Ok ("(1.000)|" ++ str ++ "⟩")%string, tv).
Proof.
  intros Hn Hlen Hbits Hsv Htv.
  destruct (GateSVSimulator_init_ok G n str seed g g1 sv Hn Hlen Hbits Hsv) as [Nsv Ssv].
  destruct (GateTensorSimulator_init_ok G n str seed g g2 tv Hn Hlen Hbits Htv)
    as [_ Stv].
  set (bs := map is_one (list_ascii_of_string str)) in *.
  assert (Lbs : length bs = n)
    by (unfold bs; now rewrite length_map, length_list_ascii).
  assert (Text : bits_string bs = str).
  { unfold bs. rewrite (bits_string_of_chars _ Hbits).
    apply string_of_list_ascii_of_string. }
  split.
  - rewrite bits_value_bools in Ssv. fold bs in Ssv.
    rewrite <- Lbs, <- flatten_one_hot in Ssv.
    rewrite (SV_braket_text sv _ Ssv), Nsv.
    rewrite (entries_agree n (one_hot bs) Hn)
      by (rewrite <- Lbs; apply perfect_one_hot).
    now rewrite rendering_one_hot, Text.
  - rewrite (Tensor_braket_text tv _ Stv).
    now rewrite rendering_one_hot, Text.
Qed.

(** X20 for the bitstring "01" and the seed 42. *)
Lemma bitstring_round_trip_witness :
  SV_state_to_braket
    {| self_n := 2; self_seed := 42;
       self_state := StMatrix (col (basis (2 ^ 2)
                                          (bits_value (list_ascii_of_string "01")))) |}
  = (Ok ("(1.000)|" ++ "01" ++ "⟩")%string,
     {| self_n := 2; self_seed := 42;
        self_state := StMatrix (col (basis (2 ^ 2)
                                           (bits_value (list_ascii_of_string "01")))) |})
  /\ Tensor_state_to_braket
       {| self_n := 2; self_seed := 42;
          self_state := StTensor (one_hot (map is_one (list_ascii_of_string "01"))) |}
     = (Ok ("(1.000)|" ++ "01" ++ "⟩")%string,
        {| self_n := 2; self_seed := 42;
           self_state := StTensor (one_hot (map is_one (list_ascii_of_string "01"))) |}).
Proof.
  apply (bitstring_round_trip numpy_prefix 2 "01" (PyInt 42) []
           (snd (choice_gen numpy_prefix ["0"; "1"]%string 2 (seed_gen numpy_prefix 42)))
           (seed_gen numpy_prefix 42)).
  - lia.
  - reflexivity.
  - reflexivity.
  - apply (GateSVSimulator_init_value numpy_prefix 2 "01" 42 []);
      [lia|reflexivity|reflexivity|unfold usable_seed; lia].
  - apply (GateTensorSimulator_init_value numpy_prefix 2 "01" 42 []);
      [lia|reflexivity|reflexivity|unfold usable_seed; lia].
Defined.

(** ** [CX] on two indices of one qubit *)

Lemma replace_nth_twice {A : Type} (k : nat) (a b : A) (l : list A) :
  replace_nth k a (replace_nth k b l) = replace_nth k a l.
Proof.
  revert k. induction l as [|x l IH]; intros [|k]; cbn; [reflexivity..|].
  now rewrite IH.
Qed.

(** A qubit and the same qubit counted from the end take one list
    position. *)
Lemma position_alias (n : nat) (q : Z) :
  (0 <= q < Z.of_nat n)%Z ->
  position n (q - Z.of_nat n) = (n - 1 - Z.to_nat q)%nat
  /\ position n q = (n - 1 - Z.to_nat q)%nat.
Proof.
  intros H. unfold position.
  destruct (Z.ltb_spec (q - Z.of_nat n) 0), (Z.ltb_spec q 0); lia.
Qed.

(** The second product of [CX] when the target's assignment overwrites the
    control's: X on the one position, the identity elsewhere. *)
Lemma aliased_branch (n p : nat) (bs : list bool) :
  length bs = n -> (p < n)%nat ->
  mat_vec (kronecker_product (one_args n p p)) (kron_vecs (map ket bs))
  = kron_vecs (map ket (replace_nth p (negb (nth p bs false)) bs)).
Proof.
  intros Hl Hp. unfold kronecker_product, kron_vecs.
  rewrite mat_vec_fold_kron
    by (apply Forall2_rows_kets; [apply shaped_one_args|now rewrite length_one_args]).
  change (mat_vec [[one]] [1%R]) with (mat_vec [[1%R]] [1%R]). rewrite one_by_one.
  unfold one_args. rewrite replace_nth_twice.
  rewrite (zip_with_replace_nth _ _ _ _ _ (ket false)).
  rewrite <- Hl at 1. rewrite <- (length_map ket bs) at 1.
  rewrite zip_with_repeat, map_map, nth_map_ket, X_gate_ket.
  rewrite (map_ext _ ket) by apply I_gate_ket.
  now rewrite map_replace_nth.
Qed.

Lemma aliased_matrix_basis (n c d : nat) :
  (c < n)%nat -> (d < 2 ^ n)%nat ->
  mat_vec (madd (kronecker_product (zero_args n (n - 1 - c)))
                (kronecker_product (one_args n (n - 1 - c) (n - 1 - c))))
          (basis (2 ^ n) d)
  = vadd (if Nat.testbit d c then repeat 0%R (2 ^ n) else basis (2 ^ n) d)
         (basis (2 ^ n) (Nat.lxor d (2 ^ c))).
Proof.
  intros Hc Hd.
  pose proof (shaped_kronecker_product _ (shaped_zero_args n (n - 1 - c))) as S0.
  pose proof (shaped_kronecker_product _ (shaped_one_args n (n - 1 - c) (n - 1 - c)))
    as S1.
  rewrite length_zero_args in S0. rewrite length_one_args in S1.
  destruct (shaped_madd _ _ _ _ S0 S1) as [_ F2].
  pose proof (kron_kets (to_bits n d)) as K.
  rewrite length_to_bits, bools_value_to_bits in K by exact Hd.
  rewrite <- K at 1. rewrite mat_vec_madd by exact F2.
  rewrite zero_branch, aliased_branch by (rewrite ?length_to_bits; lia).
  rewrite !kron_kets, length_replace_nth, length_to_bits.
  rewrite bools_value_flip, bools_value_to_bits by assumption.
  rewrite nth_to_bits by lia.
  now replace (n - 1 - (n - 1 - c))%nat with c by lia.
Qed.

(** X21. [CX] compares its two indices as integers, so the two indices
    [q] and [q - n] of one qubit pass as different: the target's assignment
    then overwrites the control's, and the value is neither the identity nor
    a controlled X. It sends the basis state [d] to the sum of [d], when bit
    [q] of [d] is 0, and of the state that differs from [d] in bit [q]; the
    simulator is left as it is. *)
Theorem CX_aliased_indices (self : simulator) (q : Z) :
  (0 <= q < self_n self)%Z ->
  let n := Z.to_nat (self_n self) in
  exists cx : matrix R,
    CX (q - self_n self) q self = (Ok cx, self)
    /\ CX q (q - self_n self) self = (Ok cx, self)
    /\ shaped (2 ^ n) (2 ^ n) cx
    /\ forall d : nat, (d < 2 ^ n)%nat ->
         matmul cx (col (basis (2 ^ n) d))
         = Ok (col (vadd (if Nat.testbit d (Z.to_nat q)
                          then repeat 0%R (2 ^ n) else basis (2 ^ n) d)
                         (basis (2 ^ n) (Nat.lxor d (2 ^ Z.to_nat q))))).
Proof.
  intros Hq n.
  pose proof (position_alias n q) as P. unfold n in P.
  rewrite Z2Nat.id in P by lia. destruct (P Hq) as [P1 P2]. fold n in P1, P2.
  set (p := (n - 1 - Z.to_nat q)%nat) in *.
  exists (madd (kronecker_product (zero_args n p)) (kronecker_product (one_args n p p))).
  split; [|split; [|split]].
  - rewrite CX_value_position by lia. fold n. now rewrite P1, P2.
  - rewrite CX_value_position by lia. fold n. now rewrite P1, P2.
  - apply shaped_CX_matrix.
  - intros d Hd.
    rewrite (matmul_col n) by (try apply shaped_CX_matrix; apply basis_length).
    do 2 f_equal. apply aliased_matrix_basis; [lia|exact Hd].
Qed.

(** X21 on one qubit: [CX(-1, 0)]. *)
Lemma CX_aliased_indices_witness :
  let n := Z.to_nat 1 in
  exists cx : matrix R,
    CX (0 - 1) 0 {| self_n := 1; self_seed := 42; self_state := StNone |}
    = (Ok cx, {| self_n := 1; self_seed := 42; self_state := StNone |})
    /\ CX 0 (0 - 1) {| self_n := 1; self_seed := 42; self_state := StNone |}
       = (Ok cx, {| self_n := 1; self_seed := 42; self_state := StNone |})
    /\ shaped (2 ^ n) (2 ^ n) cx
    /\ forall d : nat, (d < 2 ^ n)%nat ->
         matmul cx (col (basis (2 ^ n) d))
         = Ok (col (vadd (if Nat.testbit d (Z.to_nat 0)
                          then repeat 0%R (2 ^ n) else basis (2 ^ n) d)
                         (basis (2 ^ n) (Nat.lxor d (2 ^ Z.to_nat 0))))).
Proof.
  apply (CX_aliased_indices {| self_n := 1; self_seed := 42; self_state := StNone |} 0).
  simpl. lia.
Defined.

(** ** From an index to its basis state *)

Lemma initialize_state_value (s : string) (change : bool) (self : simulator) :
  forallb is_bit_char (list_ascii_of_string s) = true ->
  initialize_state (PyStr s) change self
  = (Ok (col (basis (2 ^ String.length s) (bits_value (list_ascii_of_string s)))),
     if change
     then set_state (StMatrix (col (basis (2 ^ String.length s)
                                          (bits_value (list_ascii_of_string s))))) self
     else self).
Proof.
  intros H. unfold initialize_state, bind, lift, get, put_state, ret.
  rewrite check_bits_forallb, H, kron_bits_col, bits_vec_basis, length_list_ascii.
  destruct change; [reflexivity|]. now rewrite set_state_same.
Qed.

Lemma bind_to_bin {B : Type} (dec : Z) (k : string -> M simulator B)
      (self : simulator) :
  bind (to_bin dec) k self = k (zfill (bin_tail dec) (self_n self)) self.
Proof. reflexivity. Qed.

(** X22. On [n >= 1] qubits, [initialize_state(to_bin(dec), change)] is
    the basis column of index [dec] among [2^n] when [0 <= dec < 2^n], and
    [self.state] becomes that column only when [change] is set. For a
    negative [dec] the text of [to_bin] holds the 'b' of Python's numeral
    and [initialize_state] raises its Exception, the simulator unchanged. *)
Theorem initialize_state_of_to_bin (self : simulator) (dec : Z) (change : bool) :
  (1 <= self_n self)%Z ->
  let n := Z.to_nat (self_n self) in
  ((0 <= dec < 2 ^ self_n self)%Z ->
   bind (to_bin dec) (fun s => initialize_state (PyStr s) change) self
   = (Ok (col (basis (2 ^ n) (Z.to_nat dec))),
      if change then set_state (StMatrix (col (basis (2 ^ n) (Z.to_nat dec)))) self
      else self))
  /\ ((dec < 0)%Z ->
      bind (to_bin dec) (fun s => initialize_state (PyStr s) change) self
      = (Raise (Exception_
                  "bitstring must not contain characters other than '0' and '1'"),
         self)).
Proof.
  intros Hn n. split.
  - intros [H0 Hd]. rewrite bind_to_bin.
    destruct (zfill_bits dec (self_n self) H0) as [B V].
    rewrite (initialize_state_value _ change self B), V.
    assert (L : String.length (zfill (bin_tail dec) (self_n self)) = n).
    { pose proof (bin_tail_length dec n) as L. unfold n in L.
      rewrite Z2Nat.id in L by lia. specialize (L (conj H0 Hd)).
      unfold zfill. rewrite string_length_app, length_zeros. fold n. lia. }
    now rewrite L.
  - intros Hneg. rewrite bind_to_bin.
    unfold initialize_state, bind, lift. rewrite check_bits_forallb.
    destruct dec as [|p|p]; try lia.
    unfold zfill. cbn [bin_tail].
    rewrite list_ascii_app, list_ascii_zeros, forallb_app, forallb_bits_zeros.
    reflexivity.
Qed.

(** X22 at [dec = 2] on two qubits, with [change] set. *)
Lemma initialize_state_of_to_bin_witness :
  let n := Z.to_nat 2 in
  ((0 <= 2 < 2 ^ 2)%Z ->
   bind (to_bin 2) (fun s => initialize_state (PyStr s) true)
        {| self_n := 2; self_seed := 42; self_state := StNone |}
   = (Ok (col (basis (2 ^ n) (Z.to_nat 2))),
      set_state (StMatrix (col (basis (2 ^ n) (Z.to_nat 2))))
                {| self_n := 2; self_seed := 42; self_state := StNone |}))
  /\ ((2 < 0)%Z ->
      bind (to_bin 2) (fun s => initialize_state (PyStr s) true)
           {| self_n := 2; self_seed := 42; self_state := StNone |}
      = (Raise (Exception_
                  "bitstring must not contain characters other than '0' and '1'"),
         {| self_n := 2; self_seed := 42; self_state := StNone |})).
Proof.
  apply (initialize_state_of_to_bin
           {| self_n := 2; self_seed := 42; self_state := StNone |} 2 true).
  simpl. lia.
Defined.

(** ** What [sample_probability] reads back from the text *)

(** *** Decimal numerals *)

Definition is_digit (c : ascii) : bool :=
  Nat.leb 48 (nat_of_ascii c) && Nat.leb (nat_of_ascii c) 57.

(** The value of a numeral read from the left, [acc] being the value of
    the digits read so far. *)
Fixpoint uint_value (acc : Z) (d : Decimal.uint) : Z :=
  match d with
  | Decimal.Nil => acc
  | Decimal.D0 d' => uint_value (10 * acc + 0) d'
  | Decimal.D1 d' => uint_value (10 * acc + 1) d'
  | Decimal.D2 d' => uint_value (10 * acc + 2) d'
  | Decimal.D3 d' => uint_value (10 * acc + 3) d'
  | Decimal.D4 d' => uint_value (10 * acc + 4) d'
  | Decimal.D5 d' => uint_value (10 * acc + 5) d'
  | Decimal.D6 d' => uint_value (10 * acc + 6) d'
  | Decimal.D7 d' => uint_value (10 * acc + 7) d'
  | Decimal.D8 d' => uint_value (10 * acc + 8) d'
  | Decimal.D9 d' => uint_value (10 * acc + 9) d'
  end.

Lemma digits_value_uint (d : Decimal.uint) (acc : Z) :
  digits_value acc (list_ascii_of_string (NilEmpty.string_of_uint d))
  = Some (uint_value acc d).
Proof.
  revert acc. induction d; intros acc; [reflexivity|..];
    cbn [NilEmpty.string_of_uint list_ascii_of_string uint_value];
    rewrite <- IHd; reflexivity.
Qed.

Lemma uint_value_pos (d : Decimal.uint) (acc : positive) :
  uint_value (Z.pos acc) d = Z.pos (Pos.of_uint_acc d acc).
Proof.
  revert acc. induction d; intros acc; [reflexivity|..];
    cbn [uint_value Pos.of_uint_acc]; rewrite <- IHd; f_equal; lia.
Qed.

Lemma uint_value_zero (d : Decimal.uint) : uint_value 0 d = Z.of_N (Pos.of_uint d).
Proof.
  induction d; [reflexivity|exact IHd|..];
    cbn [uint_value Pos.of_uint Z.mul Z.add Z.of_N]; apply uint_value_pos.
Qed.

Lemma to_uint_not_nil (n : N) : N.to_uint n <> Decimal.Nil.
Proof.
  destruct n as [|p]; [discriminate|]. apply DecimalPos.Unsigned.to_uint_nonnil.
Qed.

Lemma decimal_string (k : Z) :
  decimal k = NilEmpty.string_of_uint (N.to_uint (Z.to_N k)).
Proof.
  unfold decimal, NilZero.string_of_uint. pose proof (to_uint_not_nil (Z.to_N k)) as H.
  now destruct (N.to_uint (Z.to_N k)).
Qed.

(** Reading the decimal numeral of [k] gives [k] back. *)
Lemma digits_value_decimal (k : Z) :
  (0 <= k)%Z -> digits_value 0 (list_ascii_of_string (decimal k)) = Some k.
Proof.
  intros H. rewrite decimal_string, digits_value_uint, uint_value_zero.
  change (Pos.of_uint (N.to_uint (Z.to_N k))) with (N.of_uint (N.to_uint (Z.to_N k))).
  now rewrite DecimalN.Unsigned.of_to, Z2N.id.
Qed.

Lemma uint_digits (d : Decimal.uint) :
  forallb is_digit (list_ascii_of_string (NilEmpty.string_of_uint d)) = true.
Proof. induction d; [reflexivity|..]; exact IHd. Qed.

Lemma decimal_digits (k : Z) :
  forallb is_digit (list_ascii_of_string (decimal k)) = true.
Proof. rewrite decimal_string. apply uint_digits. Qed.

Lemma decimal_not_empty (k : Z) : list_ascii_of_string (decimal k) <> [].
Proof.
  rewrite decimal_string. pose proof (to_uint_not_nil (Z.to_N k)) as H.
  destruct (N.to_uint (Z.to_N k)); [contradiction|..]; discriminate.
Qed.

(** A number below 1000 has at most three digits. *)
Lemma decimal_small (m : Z) :
  (0 <= m < 1000)%Z -> (String.length (decimal m) <= 3)%nat.
Proof.
  intros H.
  assert (A : forallb (fun i => Nat.leb (String.length (decimal (Z.of_nat i))) 3)
                      (seq 0 1000) = true) by (vm_compute; reflexivity).
  rewrite forallb_forall in A. specialize (A (Z.to_nat m)).
  rewrite Z2Nat.id in A by lia. apply Nat.leb_le, A, in_seq. lia.
Qed.

Lemma digits_value_zeros (j : nat) (cs : list ascii) :
  digits_value 0 (repeat "0"%char j ++ cs) = digits_value 0 cs.
Proof. induction j as [|j IH]; [reflexivity|exact IH]. Qed.

Lemma split_point_digits (a b : list ascii) :
  forallb is_digit a = true -> split_point (a ++ "."%char :: b) = (a, b).
Proof.
  induction a as [|c a IH]; intros H; [reflexivity|].
  cbn [forallb] in H. apply andb_true_iff in H. destruct H as [Hc H].
  cbn [app split_point]. rewrite (IH H).
  destruct (Ascii.eqb_spec c "."%char) as [->|_]; [discriminate|reflexivity].
Qed.

(** *** The amplitude of a term *)

(** The number that three decimals denote: [x] rounded to a multiple of
    1/1000. *)
Definition rounded3 (x : R) : R := (IZR (round_half_even (x * 1000)) / 1000)%R.

Lemma round_half_even_nonneg (x : R) : (0 <= x)%R -> (0 <= round_half_even x)%Z.
Proof.
  intros H. destruct (base_Int_part x) as [_ B].
  assert (I : (0 <= Int_part x)%Z).
  { apply Z.lt_succ_r, lt_IZR. rewrite succ_IZR. cbn. lra. }
  unfold round_half_even.
  destruct (Rlt_dec _ _); [exact I|].
  destruct (Rlt_dec _ _); [lia|].
  destruct (Z.even _); lia.
Qed.

(** The characters of three decimals: digits and one point. *)
Definition is_numeric (c : ascii) : bool := is_digit c || Ascii.eqb c ".".

Lemma forallb_weaken {X : Type} (p q : X -> bool) (l : list X) :
  (forall x, p x = true -> q x = true) -> forallb p l = true -> forallb q l = true.
Proof.
  intros H. induction l as [|x l IH]; [reflexivity|].
  cbn [forallb]. intros E. apply andb_true_iff in E. destruct E as [E1 E2].
  now rewrite (H x E1), (IH E2).
Qed.

Lemma fmt3_numeric (x : R) :
  forallb is_numeric (list_ascii_of_string (fmt3 x)) = true.
Proof.
  assert (D : forall s, forallb is_digit s = true -> forallb is_numeric s = true).
  { intros s. apply forallb_weaken. intros c Hc. unfold is_numeric. now rewrite Hc. }
  unfold fmt3. cbv zeta.
  rewrite !list_ascii_app, list_ascii_zeros, !forallb_app.
  rewrite !(D _ (decimal_digits _)).
  rewrite (D (repeat "0"%char _)); [reflexivity|].
  generalize (3 - String.length (decimal (round_half_even (x * 1000) mod 1000)))%nat.
  intros j. induction j as [|j IH]; [reflexivity|exact IH].
Qed.

(** [float] reads three decimals as the rounded amplitude. *)
Lemma parse_float_fmt3 (x : R) : (0 <= x)%R -> parse_float (fmt3 x) = Ok (rounded3 x).
Proof.
  intros Hx. unfold parse_float, fmt3, rounded3. cbv zeta.
  assert (K : (0 <= round_half_even (x * 1000))%Z)
    by (apply round_half_even_nonneg; lra).
  set (k := round_half_even (x * 1000)) in *.
  pose proof (Z.div_mod k 1000 ltac:(lia)) as E.
  pose proof (Z.mod_pos_bound k 1000 ltac:(lia)) as F.
  assert (I : (0 <= k / 1000)%Z) by (apply Z.div_pos; lia).
  rewrite list_ascii_app. change (list_ascii_of_string ("." ++ ?s))
    with ("."%char :: list_ascii_of_string s).
  rewrite split_point_digits by apply decimal_digits.
  rewrite list_ascii_app, list_ascii_zeros, digits_value_zeros.
  rewrite (digits_value_decimal (k mod 1000)) by lia.
  pose proof (digits_value_decimal (k / 1000) I) as DI.
  pose proof (decimal_not_empty (k / 1000)) as NE.
  destruct (list_ascii_of_string (decimal (k / 1000))) as [|c a]; [contradiction|].
  rewrite DI.
  rewrite length_app, repeat_length, length_list_ascii.
  pose proof (decimal_small (k mod 1000) F) as L.
  replace (3 - String.length (decimal (k mod 1000))
           + String.length (decimal (k mod 1000)))%nat with 3%nat by lia.
  apply (f_equal IZR) in E. rewrite plus_IZR, mult_IZR in E.
  f_equal. rewrite E. simpl. field.
Qed.

(** *** The two regular expressions on a rendering *)

Lemma findall_parens_skip (s rest : list ascii) :
  forallb (fun c => negb (Ascii.eqb c "(")) s = true ->
  findall_parens None (s ++ rest) = findall_parens None rest.
Proof.
  induction s as [|c s IH]; intros H; [reflexivity|].
  cbn [forallb] in H. apply andb_true_iff in H. destruct H as [Hc H].
  cbn [app findall_parens]. apply negb_true_iff in Hc. rewrite Hc. now apply IH.
Qed.

Lemma findall_parens_take (f acc rest : list ascii) :
  forallb (fun c => negb (Ascii.eqb c ")")) f = true ->
  findall_parens (Some acc) (f ++ ")"%char :: rest)
  = string_of_list_ascii (rev acc ++ f) :: findall_parens None rest.
Proof.
  revert acc. induction f as [|c f IH]; intros acc H.
  - cbn [app findall_parens]. now rewrite Ascii.eqb_refl, app_nil_r.
  - cbn [forallb] in H. apply andb_true_iff in H. destruct H as [Hc H].
    cbn [app findall_parens]. apply negb_true_iff in Hc. rewrite Hc.
    rewrite (IH (c :: acc) H). cbn [rev]. now rewrite <- app_assoc.
Qed.

Lemma findall_kets_skip (s rest : list ascii) :
  forallb (fun c => negb (Ascii.eqb c "|")) s = true ->
  findall_kets None (s ++ rest) = findall_kets None rest.
Proof.
  induction s as [|c s IH]; intros H; [reflexivity|].
  cbn [forallb] in H. apply andb_true_iff in H. destruct H as [Hc H].
  cbn [app findall_kets]. apply negb_true_iff in Hc. rewrite Hc. now apply IH.
Qed.

Lemma findall_kets_bit (c : ascii) (acc rest : list ascii) :
  is_bit_char c = true ->
  findall_kets (Some (acc, O)) (c :: rest) = findall_kets (Some (c :: acc, O)) rest.
Proof.
  intros H. apply orb_true_iff in H.
  destruct H as [H|H]; apply Ascii.eqb_eq in H; subst; reflexivity.
Qed.

Lemma findall_kets_close (acc rest : list ascii) :
  findall_kets (Some (acc, O)) (rangle ++ rest)
  = string_of_list_ascii (rev acc ++ rangle) :: findall_kets None rest.
Proof.
  cbn -[rev]. cbn [rev]. now rewrite <- !app_assoc.
Qed.

Lemma findall_kets_label (label acc rest : list ascii) :
  forallb is_bit_char label = true ->
  findall_kets (Some (acc, O)) (label ++ rangle ++ rest)
  = string_of_list_ascii (rev acc ++ label ++ rangle) :: findall_kets None rest.
Proof.
  revert acc. induction label as [|c label IH]; intros acc H.
  - apply findall_kets_close.
  - cbn [forallb] in H. apply andb_true_iff in H. destruct H as [Hc H].
    cbn [app]. rewrite (findall_kets_bit c acc _ Hc), (IH (c :: acc) H).
    cbn [rev]. now rewrite <- app_assoc.
Qed.

Lemma term_chars (label : string) (a : R) :
  list_ascii_of_string (term label a)
  = "("%char :: list_ascii_of_string (fmt3 a)
    ++ ")"%char :: "|"%char :: list_ascii_of_string label ++ rangle.
Proof. unfold term. now rewrite !list_ascii_app. Qed.

Lemma numeric_chars (x : R) (c : ascii) :
  is_numeric c = false ->
  forallb (fun c' => negb (Ascii.eqb c' c)) (list_ascii_of_string (fmt3 x)) = true.
Proof.
  intros Hc. apply (forallb_weaken is_numeric); [|apply fmt3_numeric].
  intros c' H. destruct (Ascii.eqb_spec c' c) as [->|_]; [congruence|reflexivity].
Qed.

Lemma bit_chars_differ (l : list ascii) (c : ascii) :
  is_bit_char c = false -> forallb is_bit_char l = true ->
  forallb (fun c' => negb (Ascii.eqb c' c)) l = true.
Proof.
  intros Hc. apply forallb_weaken.
  intros c' H. destruct (Ascii.eqb_spec c' c) as [->|_]; [congruence|reflexivity].
Qed.

(** What the first expression finds in a term: its amplitude. *)
Lemma findall_parens_term (label : string) (a : R) (rest : list ascii) :
  forallb is_bit_char (list_ascii_of_string label) = true ->
  findall_parens None (list_ascii_of_string (term label a) ++ rest)
  = fmt3 a :: findall_parens None rest.
Proof.
  intros Hl. rewrite term_chars. cbn [app]. rewrite <- app_assoc. cbn [app].
  change (findall_parens None ("("%char :: ?s)) with (findall_parens (Some []) s).
  rewrite findall_parens_take by (now apply numeric_chars).
  cbn [rev app]. rewrite string_of_list_ascii_of_string. f_equal.
  change (findall_parens None ("|"%char :: ?s)) with (findall_parens None s).
  rewrite <- app_assoc.
  rewrite findall_parens_skip by (now apply bit_chars_differ).
  now apply (findall_parens_skip rangle).
Qed.

(** What the second expression finds in a term: its ket. *)
Lemma findall_kets_term (label : string) (a : R) (rest : list ascii) :
  forallb is_bit_char (list_ascii_of_string label) = true ->
  findall_kets None (list_ascii_of_string (term label a) ++ rest)
  = ("|" ++ label ++ "⟩")%string :: findall_kets None rest.
Proof.
  intros Hl. rewrite term_chars. cbn [app]. rewrite <- app_assoc. cbn [app].
  change (findall_kets None ("("%char :: ?s)) with (findall_kets None s).
  rewrite findall_kets_skip by (now apply numeric_chars).
  change (findall_kets None (")"%char :: "|"%char :: ?s))
    with (findall_kets (Some (["|"%char], O)) s).
  rewrite <- app_assoc, (findall_kets_label _ _ _ Hl). f_equal.
  replace (rev ["|"%char] ++ list_ascii_of_string label ++ rangle)
    with (list_ascii_of_string ("|" ++ label ++ "⟩"))
    by (now rewrite !list_ascii_app).
  apply string_of_list_ascii_of_string.
Qed.

Lemma concat_chars (sep t : string) (ts : list string) :
  list_ascii_of_string (String.concat sep (t :: ts))
  = list_ascii_of_string t
    ++ match ts with
       | [] => []
       | _ :: _ => list_ascii_of_string sep ++ list_ascii_of_string (String.concat sep ts)
       end.
Proof.
  destruct ts; cbn [String.concat]; [now rewrite app_nil_r|now rewrite !list_ascii_app].
Qed.

(** A label made of the characters '0' and '1'. *)
Definition bit_label (lx : string * R) : Prop :=
  forallb is_bit_char (list_ascii_of_string (fst lx)) = true.

Lemma findall_parens_terms (es : list (string * R)) :
  Forall bit_label es ->
  findall_parens None
    (list_ascii_of_string
       (String.concat " + " (map (fun lx => term (fst lx) (snd lx)) es)))
  = map (fun lx => fmt3 (snd lx)) es.
Proof.
  induction 1 as [|[label a] es Hl _ IH]; [reflexivity|].
  cbn [map fst snd]. rewrite concat_chars, (findall_parens_term _ _ _ Hl). f_equal.
  destruct es as [|e es]; [reflexivity|].
  cbn [map] in *. now rewrite (findall_parens_skip (list_ascii_of_string " + ")).
Qed.

Lemma findall_kets_terms (es : list (string * R)) :
  Forall bit_label es ->
  findall_kets None
    (list_ascii_of_string
       (String.concat " + " (map (fun lx => term (fst lx) (snd lx)) es)))
  = map (fun lx => ("|" ++ fst lx ++ "⟩")%string) es.
Proof.
  induction 1 as [|[label a] es Hl _ IH]; [reflexivity|].
  cbn [map fst snd]. rewrite concat_chars, (findall_kets_term _ _ _ Hl). f_equal.
  destruct es as [|e es]; [reflexivity|].
  cbn [map] in *. now rewrite (findall_kets_skip (list_ascii_of_string " + ")).
Qed.

Lemma parse_floats_terms (es : list (string * R)) :
  Forall (fun lx => (0 <= snd lx)%R) es ->
  parse_floats (map (fun lx => fmt3 (snd lx)) es)
  = Ok (map (fun lx => rounded3 (snd lx)) es).
Proof.
  induction 1 as [|[label a] es Ha _ IH]; [reflexivity|].
  cbn [map parse_floats fst snd] in *. now rewrite (parse_float_fmt3 a Ha), IH.
Qed.

(** *** The samples *)

(** The entries that a rendering shows. *)
Definition shown (entries : list (string * R)) : list (string * R) :=
  filter (fun lx => Rgtb (snd lx) threshold) entries.

(** [counts / np.sum(counts)] for the strings drawn. *)
Definition bar_heights (states : list string) : list R :=
  let counts := map snd (unique_counts states) in
  let drawn := INR (fold_right Nat.add O counts) in
  map (fun c => (INR c / drawn)%R) counts.

(** The outcome [out] of [sample_probability] when the round has left the
    world [w1] and the state holds the labelled amplitudes [entries]: the
    kets are those of the entries shown, and they are drawn with the
    squares of the amplitudes as three decimals give them, divided by their
    sum; when that sum is 0, [np.random.choice] raises. *)
Definition read_back (G : Generator) (entries : list (string * R)) (w1 : world G)
           (out : result (list string * list R) * world G) : Prop :=
  let kets := map (fun lx => ("|" ++ fst lx ++ "⟩")%string) (shown entries) in
  let probabilities :=
    map (fun lx => (Rabs (rounded3 (snd lx)) ^ 2)%R) (shown entries) in
  let total := sum probabilities in
  (total <> 0%R ->
   out = (let (states, g2) :=
            choice_p_gen G kets 1024 (map (fun p => (p / total)%R) probabilities)
                         (fst w1) in
          (Ok (kets, bar_heights states), (g2, snd w1))))
  /\ (total = 0%R -> exists msg, out = (Raise (ValueError msg), w1)).

Lemma shown_positive (entries : list (string * R)) :
  Forall (fun lx => (0 <= snd lx)%R) (shown entries).
Proof.
  pose proof threshold_pos as T. apply Forall_forall. intros lx H.
  apply filter_In in H. destruct H as [_ H]. unfold Rgtb in H.
  destruct (Rgt_dec (snd lx) threshold); [lra|discriminate].
Qed.

Lemma shown_labels (entries : list (string * R)) :
  Forall bit_label entries -> Forall bit_label (shown entries).
Proof.
  rewrite !Forall_forall. intros H lx Hlx. apply filter_In in Hlx. now apply H.
Qed.

Lemma np_random_choice_p_value (G : Generator) (a : list string) (k : nat)
      (p : list R) (g : gen G) :
  a <> [] -> length a = length p ->
  np_random_choice_p G a k p g
  = (let (xs, g') := choice_p_gen G a k p g in (Ok xs, g')).
Proof.
  intros Ha Hl. unfold np_random_choice_p. destruct a as [|x a]; [contradiction|].
  now rewrite Hl, Nat.eqb_refl.
Qed.

(** [sample_probability] after a round that completes, for an engine
    whose [state_to_braket] writes the rendering of [entries]. *)
Lemma sample_probability_of_rendering (G : Generator) (cls : simulator_class G)
      (fuel : nat) (w w1 : world G) (entries : list (string * R)) :
  class_round G cls fuel w = (Ok tt, w1) ->
  class_state_to_braket G cls (snd w1) = (Ok (rendering entries), snd w1) ->
  Forall bit_label entries ->
  read_back G entries w1 (sample_probability G cls fuel w).
Proof.
  intros Hround Htext Hlab. destruct w1 as [g1 self1]. cbn [fst snd] in *.
  assert (E : sample_probability G cls fuel w
    = (let kets := map (fun lx => ("|" ++ fst lx ++ "⟩")%string) (shown entries) in
       let probabilities :=
         map (fun lx => (Rabs (rounded3 (snd lx)) ^ 2)%R) (shown entries) in
       let total := sum probabilities in
       if Rneqb total 0
       then bind (on_rng G (np_random_choice_p G kets 1024
                              (map (fun p => (p / total)%R) probabilities)))
                 (fun states => ret (kets, bar_heights states)) (g1, self1)
       else (Raise (ValueError "probabilities contain NaN"), (g1, self1)))).
  { unfold sample_probability.
    rewrite (bind_ok _ _ _ _ _ Hround).
    rewrite (bind_ok _ _ _ _ _ (on_self_eq G _ g1 self1 self1 _ Htext)).
    unfold rendering. fold (shown entries).
    rewrite findall_parens_terms, findall_kets_terms by now apply shown_labels.
    rewrite parse_floats_terms by apply shown_positive.
    unfold bind at 1, lift at 1. rewrite map_map. cbv zeta.
    destruct (Rneqb _ 0); reflexivity. }
  rewrite E. clear E. unfold read_back. cbv zeta. cbn [fst snd].
  set (kets := map (fun lx => ("|" ++ fst lx ++ "⟩")%string) (shown entries)).
  set (probabilities := map (fun lx => (Rabs (rounded3 (snd lx)) ^ 2)%R) (shown entries)).
  split.
  - intros Ht. rewrite (Rneqb_diff _ _ Ht).
    assert (Hk : kets <> []).
    { unfold kets, probabilities in *. destruct (shown entries); [|discriminate].
      now contradiction Ht. }
    unfold bind, on_rng. cbn [fst snd].
    rewrite (np_random_choice_p_value G kets 1024 _ g1 Hk)
      by (unfold kets, probabilities; now rewrite !length_map).
    now destruct (choice_p_gen G kets 1024 _ g1).
  - intros Ht. rewrite Ht, Rneqb_same. now eexists.
Qed.

Lemma dense_labels (n : Z) (v : list R) :
  Forall bit_label
    (map (fun dx : nat * R => (zfill (bin_tail (Z.of_nat (fst dx))) n, snd dx))
         (combine (seq 0 (length v)) v)).
Proof.
  apply Forall_map, Forall_forall. intros dx _. unfold bit_label. cbn [fst].
  apply zfill_bits. lia.
Qed.

Lemma tensor_labels (t : tensor) :
  Forall bit_label (map (fun qx => (bits_string (fst qx), snd qx)) (indexed t)).
Proof.
  apply Forall_map, Forall_forall. intros qx _. unfold bit_label. cbn [fst].
  rewrite bits_string_chars, list_ascii_of_string_of_list_ascii.
  apply bit_chars_valid.
Qed.

(** X23. After its round, [sample_probability] works from the text of
    [state_to_braket] alone, and reading the text back gives this: the kets
    are those of the amplitudes greater than 1e-10, in the order of the
    rendering, and they are drawn with the squares of the amplitudes rounded
    to three decimals, divided by their sum. An amplitude that is negative
    or at most 1e-10 has no ket and no weight; when every weight is 0 (nothing
    is shown, or every amplitude shown rounds to 0.000) the call raises
    ValueError after the round has changed the state. *)
Theorem sample_probability_reads_the_text (G : Generator) (fuel : nat)
        (w w1 : world G) :
  (forall v : list R,
     SV_round G fuel w = (Ok tt, w1) ->
     self_state (snd w1) = StMatrix (col v) ->
     read_back G
       (map (fun dx => (zfill (bin_tail (Z.of_nat (fst dx))) (self_n (snd w1)), snd dx))
            (combine (seq 0 (length v)) v))
       w1 (sample_probability G (GateSVSimulator G) fuel w))
  /\ (forall t : tensor,
        Tensor_round G fuel w = (Ok tt, w1) ->
        self_state (snd w1) = StTensor t ->
        read_back G (map (fun qx => (bits_string (fst qx), snd qx)) (indexed t))
                  w1 (sample_probability G (GateTensorSimulator G) fuel w)).
Proof.
  split.
  - intros v Hround Hst.
    apply (sample_probability_of_rendering G (GateSVSimulator G)).
    + exact Hround.
    + exact (SV_braket_text (snd w1) v Hst).
    + apply dense_labels.
  - intros t Hround Hst.
    apply (sample_probability_of_rendering G (GateTensorSimulator G)).
    + exact Hround.
    + exact (Tensor_braket_text (snd w1) t Hst).
    + apply tensor_labels.
Qed.

(** X23 on one qubit in the state |0>, whose round applies the Hadamard
    gate. *)
Lemma sample_probability_reads_the_text_witness :
  read_back numpy_prefix
    (map (fun dx => (zfill (bin_tail (Z.of_nat (fst dx))) 1, snd dx))
         (combine (seq 0 (length (mat_vec I_gate (mat_vec H_gate [1; 0]%R))))
                  (mat_vec I_gate (mat_vec H_gate [1; 0]%R))))
    ([], {| self_n := 1; self_seed := 42;
            self_state := StMatrix (col (mat_vec I_gate (mat_vec H_gate [1; 0]%R))) |})
    (sample_probability numpy_prefix (GateSVSimulator numpy_prefix) 5
       ([], {| self_n := 1; self_seed := 42;
               self_state := StMatrix (col [1; 0]%R) |})).
Proof.
  apply (proj1 (sample_probability_reads_the_text numpy_prefix 5
                  ([], {| self_n := 1; self_seed := 42;
                          self_state := StMatrix (col [1; 0]%R) |})
                  ([], {| self_n := 1; self_seed := 42;
                          self_state :=
                            StMatrix (col (mat_vec I_gate (mat_vec H_gate [1; 0]%R))) |}))
               (mat_vec I_gate (mat_vec H_gate [1; 0]%R))).
  - apply (SV_round_single numpy_prefix 5 []
             {| self_n := 1; self_seed := 42; self_state := StMatrix (col [1; 0]%R) |}
             [1; 0]%R); reflexivity.
  - reflexivity.
Defined.

(** ** Seeds and qubit counts that the constructors do not check *)

Section SeedsAndCounts.
Variable G : Generator.

(** The base constructor when no seed is kept: the seed is drawn. *)
Lemma GateSimulator_init_drawn (n : Z) (seed : pyval) (g : gen G) :
  seed = PyNone \/ seed = PyInt 0 ->
  (0 <= fst (randint_gen G 0 1000000 g) < 1000000)%Z
  /\ GateSimulator_init G (PyInt n) seed g
     = (Ok {| self_n := n; self_seed := fst (randint_gen G 0 1000000 g);
              self_state := StNone |},
        seed_gen G (fst (randint_gen G 0 1000000 g))).
Proof.
  intros Hseed.
  pose proof (randint_range G 0 1000000 g ltac:(lia)) as B. split; [exact B|].
  assert (E : GateSimulator_init G (PyInt n) seed g
              = bind (np_random_randint G 0 1000000)
                     (fun seed => bind (np_random_seed G seed)
                        (fun _ => ret {| self_n := n; self_seed := seed;
                                         self_state := StNone |})) g)
    by (destruct Hseed as [->| ->]; reflexivity).
  rewrite E. unfold bind, np_random_randint, np_random_seed, ret.
  cbn [Z.ltb Z.compare].
  destruct (randint_gen G 0 1000000 g) as [x g0]. cbn [fst] in *.
  replace (0 <=? x)%Z with true by (symmetry; apply Z.leb_le; lia).
  replace (x <? 2 ^ 32)%Z with true by (symmetry; apply Z.ltb_lt; lia).
  reflexivity.
Qed.

Lemma GateSimulator_init_bad_seed (n s : Z) (g : gen G) :
  (s < 0 \/ 2 ^ 32 <= s)%Z ->
  GateSimulator_init G (PyInt n) (PyInt s) g
  = (Raise (ValueError "Seed must be between 0 and 2**32 - 1"), g).
Proof.
  intros H. unfold GateSimulator_init, bind, ret, np_random_seed.
  destruct (Z.eqb_spec s 0) as [E|_]; [lia|].
  destruct (Z.leb_spec 0 s), (Z.ltb_spec s (2 ^ 32)); try lia; reflexivity.
Qed.

(** X24. Constructed without a seed ([None]) or with the seed 0, a
    simulator draws its seed from the generator as it finds it: a number
    from 0 to 999999, kept in [self.seed] and given to [np.random.seed]. When
    the seed drawn is not 0, constructing again with that seed gives the same
    simulator and leaves the same generator, whatever the generator is at
    that time; the seed 0 itself is never used as given. *)
Theorem unseeded_construction (n : Z) (state seed : pyval) (g g' : gen G) :
  seed = PyNone \/ seed = PyInt 0 ->
  let s := fst (randint_gen G 0 1000000 g) in
  (0 <= s < 1000000)%Z
  /\ GateSimulator_init G (PyInt n) seed g
     = (Ok {| self_n := n; self_seed := s; self_state := StNone |}, seed_gen G s)
  /\ (s <> 0%Z ->
      GateSimulator_init G (PyInt n) seed g = GateSimulator_init G (PyInt n) (PyInt s) g'
      /\ GateSVSimulator_init G (PyInt n) state seed g
         = GateSVSimulator_init G (PyInt n) state (PyInt s) g'
      /\ GateTensorSimulator_init G (PyInt n) state seed g
         = GateTensorSimulator_init G (PyInt n) state (PyInt s) g').
Proof.
  intros Hseed s. destruct (GateSimulator_init_drawn n seed g Hseed) as [B E].
  fold s in B, E. split; [exact B|]. split; [exact E|].
  intros Hs.
  assert (U : usable_seed s) by (unfold usable_seed; lia).
  assert (E' : GateSimulator_init G (PyInt n) seed g
               = GateSimulator_init G (PyInt n) (PyInt s) g')
    by now rewrite E, (GateSimulator_init_value G n s g' U).
  split; [exact E'|]. split.
  - unfold GateSVSimulator_init, bind at 1 3. now rewrite E'.
  - unfold GateTensorSimulator_init, bind at 1 3. now rewrite E'.
Qed.

(** X25. A seed below 0 or above [2^32 - 1] passes the type check of the
    constructors and is refused by [np.random.seed]: all three constructors
    raise ValueError, and the generator is left as it was. *)
Theorem seed_out_of_range (n : Z) (state : pyval) (s : Z) (g : gen G) :
  (s < 0 \/ 2 ^ 32 <= s)%Z ->
  exists msg,
    GateSimulator_init G (PyInt n) (PyInt s) g = (Raise (ValueError msg), g)
    /\ GateSVSimulator_init G (PyInt n) state (PyInt s) g = (Raise (ValueError msg), g)
    /\ GateTensorSimulator_init G (PyInt n) state (PyInt s) g
       = (Raise (ValueError msg), g).
Proof.
  intros H. pose proof (GateSimulator_init_bad_seed n s g H) as B.
  eexists. split; [exact B|]. split.
  - unfold GateSVSimulator_init, bind at 1. now rewrite B.
  - unfold GateTensorSimulator_init, bind at 1. now rewrite B.
Qed.

(** X26. A negative qubit count passes the constructors' checks. With a
    seed [s], [1 <= s < 2^32], the dense engine then raises ValueError from
    [np.random.choice], whatever state is given; the tensor engine raises
    ValueError when no bitstring is given, and IndexError when a bitstring
    of '0's and '1's is given, since the array has rank 0. In each case the
    generator has been reseeded. *)
Theorem negative_qubit_count (n : Z) (state : pyval) (s : Z) (g : gen G) :
  (n < 0)%Z -> usable_seed s ->
  ((state = PyNone \/ exists str, state = PyStr str) ->
   exists msg,
     GateSVSimulator_init G (PyInt n) state (PyInt s) g
     = (Raise (ValueError msg), seed_gen G s))
  /\ (state = PyNone \/ state = PyStr "" ->
      exists msg,
        GateTensorSimulator_init G (PyInt n) state (PyInt s) g
        = (Raise (ValueError msg), seed_gen G s))
  /\ (forall str, state = PyStr str -> (1 <= String.length str)%nat ->
        forallb is_bit_char (list_ascii_of_string str) = true ->
        exists msg,
          GateTensorSimulator_init G (PyInt n) state (PyInt s) g
          = (Raise (IndexError msg), seed_gen G s)).
Proof.
  intros Hn Hs.
  pose proof (GateSimulator_init_value G n s g Hs) as B.
  apply Z.ltb_lt in Hn.
  split; [|split].
  - intros Hstate. eexists. unfold GateSVSimulator_init.
    rewrite (bind_ok _ _ _ _ _ B). cbn [self_n].
    assert (C : forall k : list string -> M (gen G) simulator,
              bind (np_random_choice G ["0"; "1"]%string n) k (seed_gen G s)
              = (Raise (ValueError "negative dimensions are not allowed"), seed_gen G s))
      by (intros k; unfold bind, np_random_choice; now rewrite Hn).
    destruct Hstate as [->|[str ->]]; apply C.
  - intros Hstate. eexists. unfold GateTensorSimulator_init.
    rewrite (bind_ok _ _ _ _ _ B). cbn [self_n].
    rewrite (truthy_none_or_empty state Hstate).
    destruct Hstate as [->| ->];
      unfold bind, np_random_choice; now rewrite Hn.
  - intros str -> Hlen Hbits. eexists. unfold GateTensorSimulator_init.
    rewrite (bind_ok _ _ _ _ _ B). cbn [self_n].
    rewrite (truthy_nonempty str Hlen).
    unfold bind, ret, lift. rewrite (ints_of_bits _ Hbits).
    replace (Z.to_nat n) with O by (apply Z.ltb_lt in Hn; lia).
    rewrite (tensor_set_too_many 0)
      by (rewrite length_map, length_list_ascii; lia).
    reflexivity.
Qed.

End SeedsAndCounts.

(** X24 for numpy's generator as seed 42 leaves it. *)
Lemma unseeded_construction_witness :
  let s := fst (randint_gen numpy_prefix 0 1000000 (seed_gen numpy_prefix 42)) in
  (0 <= s < 1000000)%Z
  /\ GateSimulator_init numpy_prefix (PyInt 2) PyNone (seed_gen numpy_prefix 42)
     = (Ok {| self_n := 2; self_seed := s; self_state := StNone |},
        seed_gen numpy_prefix s)
  /\ (s <> 0%Z ->
      GateSimulator_init numpy_prefix (PyInt 2) PyNone (seed_gen numpy_prefix 42)
      = GateSimulator_init numpy_prefix (PyInt 2) (PyInt s) []
      /\ GateSVSimulator_init numpy_prefix (PyInt 2) (PyStr "01") PyNone
                              (seed_gen numpy_prefix 42)
         = GateSVSimulator_init numpy_prefix (PyInt 2) (PyStr "01") (PyInt s) []
      /\ GateTensorSimulator_init numpy_prefix (PyInt 2) (PyStr "01") PyNone
                                  (seed_gen numpy_prefix 42)
         = GateTensorSimulator_init numpy_prefix (PyInt 2) (PyStr "01") (PyInt s) []).
Proof.
  apply (unseeded_construction numpy_prefix 2 (PyStr "01") PyNone
           (seed_gen numpy_prefix 42) []).
  left. reflexivity.
Defined.

(** X25 at the seed -1. *)
Lemma seed_out_of_range_witness :
  exists msg,
    GateSimulator_init numpy_prefix (PyInt 2) (PyInt (-1)) []
    = (Raise (ValueError msg), [])
    /\ GateSVSimulator_init numpy_prefix (PyInt 2) (PyStr "01") (PyInt (-1)) []
       = (Raise (ValueError msg), [])
    /\ GateTensorSimulator_init numpy_prefix (PyInt 2) (PyStr "01") (PyInt (-1)) []
       = (Raise (ValueError msg), []).
Proof.
  apply (seed_out_of_range numpy_prefix 2 (PyStr "01") (-1) []).
  left. lia.
Defined.

(** X26 at [n = -1] and the seed 42, with the bitstring "0". *)
Lemma negative_qubit_count_witness :
  ((PyStr "0" = PyNone \/ exists str, PyStr "0" = PyStr str) ->
   exists msg,
     GateSVSimulator_init numpy_prefix (PyInt (-1)) (PyStr "0") (PyInt 42) []
     = (Raise (ValueError msg), seed_gen numpy_prefix 42))
  /\ (PyStr "0" = PyNone \/ PyStr "0" = PyStr "" ->
      exists msg,
        GateTensorSimulator_init numpy_prefix (PyInt (-1)) (PyStr "0") (PyInt 42) []
        = (Raise (ValueError msg), seed_gen numpy_prefix 42))
  /\ (forall str, PyStr "0" = PyStr str -> (1 <= String.length str)%nat ->
        forallb is_bit_char (list_ascii_of_string str) = true ->
        exists msg,
          GateTensorSimulator_init numpy_prefix (PyInt (-1)) (PyStr "0") (PyInt 42) []
          = (Raise (IndexError msg), seed_gen numpy_prefix 42)).
Proof.
  apply (negative_qubit_count numpy_prefix (-1) (PyStr "0") 42 []).
  - lia.
  - unfold usable_seed. lia.
Defined.

(** ** Rounds on one qubit and on none *)





Lemma SV_make_operations_none (G : Generator) (fuel : nat) (g : gen G)
      (self : simulator) :
  self_n self = 0%Z ->
  SV_make_operations G fuel (g, self) = (Ok (H_gate, I_gate), (g, self)).
Proof.
  intros Hn. unfold SV_make_operations.
  rewrite (bind_ok _ _ _ _ _ (on_self_eq G get g self self (Ok self) eq_refl)).
  now rewrite Hn.
Qed.

Lemma Tensor_make_operations_none (G : Generator) (fuel : nat) (g : gen G)
      (self : simulator) :
  self_n self = 0%Z ->
  Tensor_make_operations G fuel (g, self)
  = (Ok ([(H_gate, [chr_a; 98%nat], [chr_a])], I_gate, make_qubits_ein 0), (g, self)).
Proof.
  intros Hn. unfold Tensor_make_operations.
  rewrite (bind_ok _ _ _ _ _ (on_self_eq G get g self self (Ok self) eq_refl)).
  now rewrite Hn.
Qed.

(** X28. A simulator of no qubit can be constructed but cannot run a
    round. The dense engine raises ValueError in [CX @ operations @ state]
    (a 2 x 2 array times the 1 x 1 state) and leaves the simulator as it
    was. The tensor engine applies the Hadamard gate by [einsum], stores the
    flattened result of two entries in [self.state], and then raises
    ValueError in [reshape]: the simulator is left with a 1-D state. No random
    number is drawn. *)
Theorem no_round_on_zero_qubits (G : Generator) (fuel : nat) (g : gen G)
        (sv tv : simulator) (x : R) :
  self_n sv = 0%Z -> self_state sv = StMatrix [[x]] ->
  self_n tv = 0%Z -> self_state tv = StTensor (Scalar x) ->
  (exists msg, SV_round G fuel (g, sv) = (Raise (ValueError msg), (g, sv)))
  /\ (exists msg flat,
         Tensor_round G fuel (g, tv)
         = (Raise (ValueError msg), (g, set_state (StFlat flat) tv))
         /\ length flat = 2%nat).
Proof.
  intros Nsv Ssv Ntv Stv. split.
  - eexists. unfold SV_round.
    rewrite (bind_ok _ _ _ _ _ (SV_make_operations_none G fuel g sv Nsv)).
    cbn [fst snd]. apply on_self_eq.
    unfold SV_apply_operations. rewrite bind_get, Ssv.
    reflexivity.
  - do 2 eexists. unfold Tensor_round.
    rewrite (bind_ok _ _ _ _ _ (Tensor_make_operations_none G fuel g tv Ntv)).
    cbn [fst snd]. split.
    + apply on_self_eq. unfold Tensor_apply_operations.
      cbn [einsum_loop]. unfold bind, get. rewrite Stv.
      unfold einsum, lift, put_state, ret. cbn -[H_gate I_gate mat_vec].
      rewrite Ntv. reflexivity.
    + reflexivity.
Qed.

(** X28 on the states that the constructors give for [n = 0]. *)
Lemma no_round_on_zero_qubits_witness :
  (exists msg,
      SV_round numpy_prefix 5
        ([], {| self_n := 0; self_seed := 1; self_state := StMatrix [[1%R]] |})
      = (Raise (ValueError msg),
         ([], {| self_n := 0; self_seed := 1; self_state := StMatrix [[1%R]] |})))
  /\ (exists msg flat,
         Tensor_round numpy_prefix 5
           ([], {| self_n := 0; self_seed := 1; self_state := StTensor (Scalar 1%R) |})
         = (Raise (ValueError msg),
            ([], set_state (StFlat flat)
                   {| self_n := 0; self_seed := 1;
                      self_state := StTensor (Scalar 1%R) |}))
         /\ length flat = 2%nat).
Proof.
  apply (no_round_on_zero_qubits numpy_prefix 5 []
           {| self_n := 0; self_seed := 1; self_state := StMatrix [[1%R]] |}
           {| self_n := 0; self_seed := 1; self_state := StTensor (Scalar 1%R) |} 1);
    reflexivity.
Defined.

(** ** [CX] twice *)

Lemma lxor_pow2_bound (n d t : nat) :
  (d < 2 ^ n)%nat -> (t < n)%nat -> (Nat.lxor d (2 ^ t) < 2 ^ n)%nat.
Proof.
  intros Hd Ht. rewrite <- (bools_value_flip n d t Hd Ht).
  pose proof (bools_value_bound
                (replace_nth (n - 1 - t) (negb (nth (n - 1 - t) (to_bits n d) false))
                             (to_bits n d))) as B.
  now rewrite length_replace_nth, length_to_bits in B.
Qed.

Lemma lxor_pow2_twice (d t : nat) : Nat.lxor (Nat.lxor d (2 ^ t)) (2 ^ t) = d.
Proof. now rewrite Nat.lxor_assoc, Nat.lxor_nilpotent, Nat.lxor_0_r. Qed.

Lemma lxor_pow2_other_bit (d c t : nat) :
  c <> t -> Nat.testbit (Nat.lxor d (2 ^ t)) c = Nat.testbit d c.
Proof.
  intros H. rewrite Nat.lxor_spec, Nat.pow2_bits_eqb.
  destruct (Nat.eqb_spec t c); [congruence|]. now destruct (Nat.testbit d c).
Qed.

(** X29. For in-bounds [control <> target], the array that [CX] returns
    undoes itself on every basis state: applied to the basis state [d] it
    gives a basis state [d'] (with index below [2^n]), and applied to [d'] it
    gives [d] back. *)
Theorem CX_twice_on_basis (self : simulator) (control target : Z) (d : nat) :
  (0 <= control < self_n self)%Z -> (0 <= target < self_n self)%Z ->
  control <> target -> (d < 2 ^ Z.to_nat (self_n self))%nat ->
  let n := Z.to_nat (self_n self) in
  exists (cx : matrix R) (d' : nat),
    CX control target self = (Ok cx, self)
    /\ (d' < 2 ^ n)%nat
    /\ matmul cx (col (basis (2 ^ n) d)) = Ok (col (basis (2 ^ n) d'))
    /\ matmul cx (col (basis (2 ^ n) d')) = Ok (col (basis (2 ^ n) d)).
Proof.
  intros Hc Ht Hne Hd n.
  set (c := Z.to_nat control). set (t := Z.to_nat target).
  assert (Hcn : (c < n)%nat) by (unfold c, n; lia).
  assert (Htn : (t < n)%nat) by (unfold t, n; lia).
  assert (Hct : c <> t) by (unfold c, t; lia).
  exists (madd (kronecker_product (zero_args n (n - 1 - c)))
               (kronecker_product (one_args n (n - 1 - c) (n - 1 - t)))).
  exists (if Nat.testbit d c then Nat.lxor d (2 ^ t) else d).
  assert (Hd' : ((if Nat.testbit d c then Nat.lxor d (2 ^ t) else d) < 2 ^ n)%nat)
    by (destruct (Nat.testbit d c); [now apply lxor_pow2_bound|exact Hd]).
  split; [|split; [exact Hd'|split]].
  - now apply CX_value.
  - rewrite (matmul_col n) by (try apply shaped_CX_matrix; apply basis_length).
    now rewrite CX_matrix_basis.
  - rewrite (matmul_col n) by (try apply shaped_CX_matrix; apply basis_length).
    rewrite CX_matrix_basis by assumption. do 3 f_equal.
    destruct (Nat.testbit d c) eqn:E.
    + now rewrite lxor_pow2_other_bit, E, lxor_pow2_twice.
    + now rewrite E.
Qed.

(** X29 on two qubits: [CX(1, 0)] on the basis state |10>. *)
Lemma CX_twice_on_basis_witness :
  let n := Z.to_nat 2 in
  exists (cx : matrix R) (d' : nat),
    CX 1 0 {| self_n := 2; self_seed := 42; self_state := StNone |}
    = (Ok cx, {| self_n := 2; self_seed := 42; self_state := StNone |})
    /\ (d' < 2 ^ n)%nat
    /\ matmul cx (col (basis (2 ^ n) 2)) = Ok (col (basis (2 ^ n) d'))
    /\ matmul cx (col (basis (2 ^ n) d')) = Ok (col (basis (2 ^ n) 2)).
Proof.
  apply (CX_twice_on_basis {| self_n := 2; self_seed := 42; self_state := StNone |}
           1 0 2).
  - simpl. lia.
  - simpl. lia.
  - lia.
  - simpl. lia.
Defined.

(** ** The expectation of Y by the parity of the register *)

Lemma Cpow_i_parity (k : nat) :
  Cpow Ci (2 * k) = RtoC ((-1) ^ k) /\ Cpow Ci (2 * k + 1) = (0%R, ((-1) ^ k)%R).
Proof.
  induction k as [|k [IH0 IH1]].
  - split; cbn; unfold Cmul, Ci, RtoC; cbn [fst snd]; f_equal; ring.
  - replace (2 * S k)%nat with (S (2 * k + 1)) by lia.
    replace (S (2 * k + 1) + 1)%nat with (S (S (2 * k + 1))) by lia.
    cbn [Cpow]. rewrite IH1.
    split; unfold Cmul, Ci, RtoC; cbn [fst snd pow]; f_equal; ring.
Qed.

(** X30. [calculate_expectation_value('Y')] takes the real part of a form
    whose matrix is [i^n] times a real one, the states being real. On an odd
    number of qubits it therefore returns 0 whatever the state; on [2k]
    qubits it returns [(-1)^k] times the form of the tensor power of
    [[0, -1], [1, 0]]. No normalisation is needed, and the simulator is
    left as it is. *)
Theorem expectation_of_Y_by_parity (k : nat) (self : simulator) (v : list R) :
  state_flat (self_state self) = Ok v ->
  (self_n self = Z.of_nat (2 * k + 1) -> length v = (2 ^ (2 * k + 1))%nat ->
   calculate_expectation_value (PyStr "Y") self = (Ok 0%R, self))
  /\ (self_n self = Z.of_nat (2 * k) -> length v = (2 ^ (2 * k))%nat ->
      calculate_expectation_value (PyStr "Y") self
      = (Ok ((-1) ^ k
             * dot v (mat_vec (kronecker_product (repeat W_gate (2 * k))) v))%R,
         self)).
Proof.
  intros Hs. destruct (Cpow_i_parity k) as [E0 E1]. split; intros Hn Hv.
  - rewrite (expectation_Y (2 * k + 1) self v Hn Hs Hv), E1.
    unfold Re. cbn [fst]. do 2 f_equal. ring.
  - rewrite (expectation_Y (2 * k) self v Hn Hs Hv), E0. reflexivity.
Qed.

(** X30 on one qubit in the state [(|0> + |1>)/sqrt 2]. *)
Lemma expectation_of_Y_by_parity_witness :
  (self_n {| self_n := 1; self_seed := 42;
             self_state := StMatrix (col [1 / sqrt 2; 1 / sqrt 2]%R) |}
   = Z.of_nat (2 * 0 + 1) ->
   length [1 / sqrt 2; 1 / sqrt 2]%R = (2 ^ (2 * 0 + 1))%nat ->
   calculate_expectation_value (PyStr "Y")
     {| self_n := 1; self_seed := 42;
        self_state := StMatrix (col [1 / sqrt 2; 1 / sqrt 2]%R) |}
   = (Ok 0%R, {| self_n := 1; self_seed := 42;
                 self_state := StMatrix (col [1 / sqrt 2; 1 / sqrt 2]%R) |}))
  /\ (self_n {| self_n := 1; self_seed := 42;
                self_state := StMatrix (col [1 / sqrt 2; 1 / sqrt 2]%R) |}
      = Z.of_nat (2 * 0) ->
      length [1 / sqrt 2; 1 / sqrt 2]%R = (2 ^ (2 * 0))%nat ->
      calculate_expectation_value (PyStr "Y")
        {| self_n := 1; self_seed := 42;
           self_state := StMatrix (col [1 / sqrt 2; 1 / sqrt 2]%R) |}
      = (Ok ((-1) ^ 0
             * dot [1 / sqrt 2; 1 / sqrt 2]%R
                   (mat_vec (kronecker_product (repeat W_gate (2 * 0)))
                            [1 / sqrt 2; 1 / sqrt 2]%R))%R,
         {| self_n := 1; self_seed := 42;
            self_state := StMatrix (col [1 / sqrt 2; 1 / sqrt 2]%R) |})).
Proof.
  apply (expectation_of_Y_by_parity 0
           {| self_n := 1; self_seed := 42;
              self_state := StMatrix (col [1 / sqrt 2; 1 / sqrt 2]%R) |}
           [1 / sqrt 2; 1 / sqrt 2]%R).
  reflexivity.
Defined.
